(** * Fish Tracker: the event scheduling and statistics engine

    A shallow embedding of [imports/api/events/EventsCollection.js]
    (validation, constants, queries, publications) and of
    [imports/api/events/EventsMethods.js] (insert, update, delete, complete,
    getStats, calculateNextOccurrence), then of the client code that reads
    the events (the hooks, the form and the dashboard), with the properties
    of the specification stated over it.

    Documents and payloads are JavaScript objects: finite maps from property
    names to values.  A property that is absent reads as [undefined], which
    is the [None] of a lookup; the values that travel over the wire and sit
    in the store are [null], booleans, numbers, strings and dates.  A string
    is the sequence of its code units, each of them below 256. *)

From Stdlib Require Import Ascii ZArith QArith Qround Lia.
From Stdlib Require PrimFloat FloatOps SpecFloat Uint63.
From stdpp Require Import gmap strings list fin_maps.
From stdpp Require Import sorting.

Local Open Scope Z_scope.

(** ** JavaScript values and the coercions the code relies on *)

Module JS.

(** Numbers are kept integral; a date carries its time value in
    milliseconds since the epoch, [None] being the invalid date (NaN). *)
Inductive value :=
| VNull
| VBool (b : bool)
| VNum (n : Z)
| VStr (s : string)
| VDate (tv : option Z).

#[global] Instance value_eq_dec : EqDecision value.
Proof. solve_decision. Defined.

(** What the host gives and the source leaves to it.  [LocalTZA t isUTC]
    is the offset of local time from UTC, in milliseconds (ECMA-262,
    21.4.1.25): the offset in effect at the instant [t] when [isUTC], and
    otherwise the offset at the local time [t], where a local time that a
    clock change skips or repeats reads with the offset from before the
    change.  The two string conversions of the language are the host's as
    well; their grammar plays no part in the methods ([None] is NaN). *)
Record Host := {
  LocalTZA : Z -> bool -> Z;
  StringToNumber : string -> option Z;
  DateParse : string -> option Z
}.

(** [ToBoolean] on the result of a property read. *)
Definition truthy (v : option value) : bool :=
  match v with
  | None | Some VNull => false
  | Some (VBool b) => b
  | Some (VNum n) => negb (n =? 0)
  | Some (VStr s) => negb (String.eqb s EmptyString)
  | Some (VDate _) => true
  end.

Definition is_string (v : option value) : bool :=
  match v with Some (VStr _) => true | _ => false end.

Definition is_date (v : option value) : bool :=
  match v with Some (VDate _) => true | _ => false end.

(** [a === b] for two values read from different objects: primitives
    compare by value, two date objects are never the same object. *)
Definition strict_eq (a b : option value) : bool :=
  match a, b with
  | None, None | Some VNull, Some VNull => true
  | Some (VBool x), Some (VBool y) => Bool.eqb x y
  | Some (VNum x), Some (VNum y) => x =? y
  | Some (VStr x), Some (VStr y) => String.eqb x y
  | _, _ => false
  end.

(** [v === 'lit'] *)
Definition is_lit (v : option value) (lit : string) : bool :=
  strict_eq v (Some (VStr lit)).

(** [names.includes(v)] for an array of string literals. *)
Definition includes (names : list string) (v : option value) : bool :=
  existsb (is_lit v) names.

Definition ToNumber (h : Host) (v : option value) : option Z :=
  match v with
  | None => None
  | Some VNull => Some 0
  | Some (VBool b) => Some (if b then 1 else 0)
  | Some (VNum n) => Some n
  | Some (VStr s) => StringToNumber h s
  | Some (VDate tv) => tv
  end.

(** [a < b]: two strings compare by code units, anything else as
    numbers, and a comparison with NaN is false. *)
Definition lt (h : Host) (a b : option value) : bool :=
  match a, b with
  | Some (VStr x), Some (VStr y) => String.ltb x y
  | _, _ =>
      match ToNumber h a, ToNumber h b with
      | Some x, Some y => x <? y
      | _, _ => false
      end
  end.

(** White space and line terminators among the code units below 256:
    TAB, LF, VT, FF, CR, SP and NBSP. *)
Definition is_space (c : ascii) : bool :=
  let n := nat_of_ascii c in
  ((9 <=? n)%nat && (n <=? 13)%nat) || (n =? 32)%nat || (n =? 160)%nat.

Fixpoint trimStart (s : string) : string :=
  match s with
  | String c s' => if is_space c then trimStart s' else s
  | EmptyString => EmptyString
  end.

Fixpoint trimEnd (s : string) : string :=
  match s with
  | EmptyString => EmptyString
  | String c s' =>
      match trimEnd s' with
      | EmptyString => if is_space c then EmptyString else String c EmptyString
      | t => String c t
      end
  end.

Definition trim (s : string) : string := trimEnd (trimStart s).

(** [s.length]: the number of code units. *)
Definition strlen (s : string) : Z := Z.of_nat (String.length s).

End JS.

Export JS.

(** A document or a payload. *)
Abbreviation obj := (gmap string value).

(** An object as the code builds it.  A property of an object literal can
    hold [undefined], the [None] here: the object then has the property
    ([k in o] is true) although it reads like an absent one.  Payloads and
    stored documents have no such property, since neither the wire format
    nor the store carries [undefined]. *)
Abbreviation literal := (gmap string (option value)).

(** The properties of a literal that hold a value: what is sent or
    stored of it. *)
Definition defined (o : literal) : obj := omap id o.

(** ** The date object: time values, calendar, local time (ECMA-262, 21.4.1) *)

Module ESDate.

Definition msPerDay : Z := 86400000.

Definition Day (t : Z) : Z := t / msPerDay.
Definition TimeWithinDay (t : Z) : Z := t mod msPerDay.

Definition DayFromYear (y : Z) : Z :=
  365 * (y - 1970) + (y - 1969) / 4 - (y - 1901) / 100 + (y - 1601) / 400.

Definition DaysInYear (y : Z) : Z :=
  if negb (y mod 4 =? 0) then 365
  else if negb (y mod 100 =? 0) then 366
  else if negb (y mod 400 =? 0) then 365
  else 366.

Definition InLeapYear (y : Z) : Z := DaysInYear y - 365.

(** The largest [y] with [DayFromYear y <= d]: an estimate from the mean
    length of a year, corrected by one at most. *)
Definition YearFromDay (d : Z) : Z :=
  let y0 := 1970 + (400 * d) / 146097 in
  if d <? DayFromYear y0 then y0 - 1
  else if DayFromYear (y0 + 1) <=? d then y0 + 1
  else y0.

Definition YearFromTime (t : Z) : Z := YearFromDay (Day t).

Definition DayWithinYear (t : Z) : Z := Day t - DayFromYear (YearFromTime t).

(** Days of the year that precede month [m] (0 is January). *)
Definition DaysBeforeMonth (leap m : Z) : Z :=
  match m with
  | 0 => 0
  | 1 => 31
  | 2 => 59 + leap
  | 3 => 90 + leap
  | 4 => 120 + leap
  | 5 => 151 + leap
  | 6 => 181 + leap
  | 7 => 212 + leap
  | 8 => 243 + leap
  | 9 => 273 + leap
  | 10 => 304 + leap
  | _ => 334 + leap
  end.

Definition MonthFromDay (leap dwy : Z) : Z :=
  if dwy <? 31 then 0
  else if dwy <? 59 + leap then 1
  else if dwy <? 90 + leap then 2
  else if dwy <? 120 + leap then 3
  else if dwy <? 151 + leap then 4
  else if dwy <? 181 + leap then 5
  else if dwy <? 212 + leap then 6
  else if dwy <? 243 + leap then 7
  else if dwy <? 273 + leap then 8
  else if dwy <? 304 + leap then 9
  else if dwy <? 334 + leap then 10
  else 11.

Definition MonthFromTime (t : Z) : Z :=
  MonthFromDay (InLeapYear (YearFromTime t)) (DayWithinYear t).

Definition DateFromTime (t : Z) : Z :=
  DayWithinYear t
  - DaysBeforeMonth (InLeapYear (YearFromTime t)) (MonthFromTime t) + 1.

(** [MakeDay]: the day number of the first of the month, plus [date - 1];
    a month outside 0..11 carries into the year. *)
Definition MakeDay (year month date : Z) : Z :=
  let ym := year + month / 12 in
  let mn := month mod 12 in
  DayFromYear ym + DaysBeforeMonth (InLeapYear ym) mn + date - 1.

Definition MakeTime (hour min sec ms : Z) : Z :=
  hour * 3600000 + min * 60000 + sec * 1000 + ms.

Definition MakeDate (day time : Z) : Z := day * msPerDay + time.

Definition TimeClip (t : Z) : option Z :=
  if Z.abs t <=? 8640000000000000 then Some t else None.

Section Local.
Variable h : Host.

Definition LocalTime (t : Z) : Z := t + LocalTZA h t true.
Definition UTC (t : Z) : Z := t - LocalTZA h t false.

(** [new Date(v)]: the time value of the new object. *)
Definition construct (v : option value) : option Z :=
  match v with
  | Some (VDate tv) => tv
  | Some (VStr s) => DateParse h s ≫= TimeClip
  | _ => ToNumber h v ≫= TimeClip
  end.

(** [d.getDate()], [d.getMonth()] on the time value of [d]. *)
Definition getDate (tv : option Z) : option Z :=
  (fun t => DateFromTime (LocalTime t)) <$> tv.

Definition getMonth (tv : option Z) : option Z :=
  (fun t => MonthFromTime (LocalTime t)) <$> tv.

(** [d.setDate(dt)], [d.setMonth(m)], [d.setHours(hh, mm, ss, ms)]:
    the new time value of [d]. *)
Definition setDate (tv dt : option Z) : option Z :=
  match tv, dt with
  | Some t0, Some dt =>
      let t := LocalTime t0 in
      TimeClip (UTC (MakeDate (MakeDay (YearFromTime t) (MonthFromTime t) dt)
                              (TimeWithinDay t)))
  | _, _ => None
  end.

Definition setMonth (tv m : option Z) : option Z :=
  match tv, m with
  | Some t0, Some m =>
      let t := LocalTime t0 in
      TimeClip (UTC (MakeDate (MakeDay (YearFromTime t) m (DateFromTime t))
                              (TimeWithinDay t)))
  | _, _ => None
  end.

Definition setHours (tv : option Z) (hh mm ss ms : Z) : option Z :=
  match tv with
  | Some t0 =>
      let t := LocalTime t0 in
      TimeClip (UTC (MakeDate (Day t) (MakeTime hh mm ss ms)))
  | None => None
  end.
End Local.

End ESDate.


(** ** Numbers: the double-precision quotient and product of the statistics

    A count is an exact Number.  A quotient or a product of Numbers is the
    exact result rounded to the nearest double, ties to the even
    significand (53 bits, exponents from -1074; no result here is large
    enough to overflow). *)

Module Double.

(** Nearest integer to [num / den] for [den > 0], ties to even. *)
Definition rne (num den : Z) : Z :=
  let f := num / den in
  let r := num mod den in
  if 2 * r <? den then f
  else if den <? 2 * r then f + 1
  else if Z.even f then f else f + 1.

(** [n / d * 2 ^ (- e)] as a fraction of integers. *)
Definition scaled_num (n e : Z) : Z := n * 2 ^ Z.max 0 (- e).
Definition scaled_den (d e : Z) : Z := d * 2 ^ Z.max 0 e.

(** The exponent of the last place of [n / d] ([n], [d] positive): the [e]
    with [2^52 <= n / d * 2^(-e) < 2^53], not below the subnormal one. *)
Definition exponent (n d : Z) : Z :=
  let e0 := Z.log2 n - Z.log2 d - 53 in
  let e := if 2 ^ 53 * scaled_den d e0 <=? scaled_num n e0 then e0 + 1 else e0 in
  Z.max (-1074) e.

Definition round_pos (n d : Z) : Q :=
  let e := exponent n d in
  let m := rne (scaled_num n e) (scaled_den d e) in
  Qmake (m * 2 ^ Z.max 0 e) (Z.to_pos (2 ^ Z.max 0 (- e))).

(** The double nearest to the rational [q]. *)
Definition round (q : Q) : Q :=
  match Qnum q with
  | Z0 => 0%Q
  | Zpos n => round_pos (Zpos n) (Zpos (Qden q))
  | Zneg n => Qopp (round_pos (Zpos n) (Zpos (Qden q)))
  end.

(** [a / b] and [a * b] on Numbers. *)
Definition div (a b : Q) : Q := round (a / b)%Q.
Definition mul (a b : Q) : Q := round (a * b)%Q.

(** [Math.round(x)]: the nearest integer, a tie going up. *)
Definition Math_round (x : Q) : Z := Qfloor (x + (1 # 2))%Q.

(** The same product in the binary64 arithmetic of the kernel, to compare
    the rounding above with: [(c / t) * 100] on primitive floats, and the
    rational a finite float stands for. *)
Definition binary64_percent (c t : Z) : SpecFloat.spec_float :=
  FloatOps.Prim2SF
    (PrimFloat.mul
       (PrimFloat.div (PrimFloat.of_uint63 (Uint63.of_Z c))
                      (PrimFloat.of_uint63 (Uint63.of_Z t)))
       (PrimFloat.of_uint63 (Uint63.of_Z 100))).

Definition of_binary64 (f : SpecFloat.spec_float) : option Q :=
  match f with
  | SpecFloat.S754_zero _ => Some 0%Q
  | SpecFloat.S754_finite s m e =>
      Some (Qmake ((if s then -1 else 1) * Zpos m * 2 ^ Z.max 0 e)
                  (Z.to_pos (2 ^ Z.max 0 (- e))))
  | _ => None
  end.

Definition agrees_with_binary64 (ct : Z * Z) : bool :=
  match of_binary64 (binary64_percent ct.1 ct.2) with
  | Some q => Qeq_bool q (mul (div (inject_Z ct.1) (inject_Z ct.2)) 100)
  | None => false
  end.

(** The pairs [(c, t)] with [0 <= c <= t] and [1 <= t <= n]. *)
Definition ratios (n : nat) : list (Z * Z) :=
  t ← seq 1 n; c ← seq 0 (S t); [(Z.of_nat c, Z.of_nat t)].

End Double.

(** ** EventsCollection.js: constants and validation *)

Module EventsCollection.

(** [Object.keys] of the three constant tables. *)
Definition EVENT_TYPES : list string :=
  ["feeding"; "cleaning"; "water_change"; "medication"; "aquarium_medication";
   "observation"; "maintenance"; "other"]%string.

Definition EVENT_PRIORITIES : list string := ["low"; "medium"; "high"]%string.

Definition EVENT_RECURRENCES : list string := ["daily"; "weekly"; "monthly"]%string.

(** [names.join(', ')] *)
Fixpoint join (names : list string) : string :=
  match names with
  | [] => EmptyString
  | [x] => x
  | x :: rest => x +:+ ", " +:+ join rest
  end.

Definition validTargetTypes : list string := ["fish"; "aquarium"]%string.

(** The time value of [new Date('2020-01-01')]. *)
Definition date_2020_01_01 : Z := 1577836800000.

Definition msg_targetType : string :=
  "Le type de cible doit être : " +:+ join validTargetTypes.
Definition msg_fishId : string :=
  "L'ID du poisson est obligatoire pour les événements de poisson".
Definition msg_type : string :=
  "Le type d'événement doit être : " +:+ join EVENT_TYPES.
Definition dquote : string := String "034"%char EmptyString.
Definition msg_coherence : string :=
  "Les traitements d'aquarium doivent avoir targetType = "
  +:+ dquote +:+ "aquarium" +:+ dquote.
Definition msg_title_required : string := "Le titre de l'événement est obligatoire".
Definition msg_title_short : string := "Le titre doit contenir au moins 2 caractères".
Definition msg_title_long : string := "Le titre ne peut pas dépasser 100 caractères".
Definition msg_scheduledAt_required : string := "La date prévue est obligatoire".
Definition msg_scheduledAt_2020 : string :=
  "La date prévue ne peut pas être antérieure à 2020".
Definition msg_priority : string :=
  "La priorité doit être : " +:+ join EVENT_PRIORITIES.
Definition msg_recurrence : string :=
  "La récurrence doit être : " +:+ join EVENT_RECURRENCES.
Definition msg_description : string :=
  "La description ne peut pas dépasser 500 caractères".
Definition msg_notes : string := "Les notes ne peuvent pas dépasser 500 caractères".
Definition msg_completedAt : string :=
  "La date de réalisation ne peut pas être antérieure à la date prévue".

Record validation := { isValid : bool; errors : list string }.

(** [errors.push(msg)] under a condition. *)
Definition push_if (c : bool) (msg : string) (errors : list string) : list string :=
  if c then errors ++ [msg] else errors.

(** The length of a string-valued property ([0] stands for a read that the
    guards of the callers exclude). *)
Definition length_of (v : option value) : Z :=
  match v with Some (VStr s) => strlen s | _ => 0 end.

Definition trimmed_length_of (v : option value) : Z :=
  match v with Some (VStr s) => strlen (trim s) | _ => 0 end.

(** The blocks of [validateEventData], in the order of the source; each
    takes the array of messages so far and returns it, extended or not. *)

(* Validation du targetType (obligatoire) *)
Definition check_targetType (eventData : obj) (errors : list string) : list string :=
  let targetType := eventData !! "targetType" in
  push_if (negb (truthy targetType) || negb (includes validTargetTypes targetType))
    msg_targetType errors.

(* Validation du fishId (obligatoire seulement pour targetType = 'fish') *)
Definition check_fishId (eventData : obj) (errors : list string) : list string :=
  let fishId := eventData !! "fishId" in
  if is_lit (eventData !! "targetType") "fish" then
    push_if (negb (truthy fishId) || negb (is_string fishId)) msg_fishId errors
  else errors.

(* Validation du type (obligatoire, valeurs prédéfinies) *)
Definition check_type (eventData : obj) (errors : list string) : list string :=
  let type := eventData !! "type" in
  push_if (negb (truthy type) || negb (includes EVENT_TYPES type)) msg_type errors.

(* Validation de cohérence : aquarium_medication doit avoir targetType = 'aquarium' *)
Definition check_coherence (eventData : obj) (errors : list string) : list string :=
  push_if (is_lit (eventData !! "type") "aquarium_medication"
           && negb (is_lit (eventData !! "targetType") "aquarium"))
    msg_coherence errors.

(* Validation du titre (obligatoire, 2-100 caractères) *)
Definition check_title (eventData : obj) (errors : list string) : list string :=
  let title := eventData !! "title" in
  if negb (truthy title) || negb (is_string title) then errors ++ [msg_title_required]
  else if trimmed_length_of title <? 2 then errors ++ [msg_title_short]
  else if 100 <? trimmed_length_of title then errors ++ [msg_title_long]
  else errors.

(* Validation de la date prévue (obligatoire) *)
Definition check_scheduledAt (h : Host) (eventData : obj) (errors : list string)
  : list string :=
  let scheduledAt := eventData !! "scheduledAt" in
  if negb (truthy scheduledAt) || negb (is_date scheduledAt)
  then errors ++ [msg_scheduledAt_required]
  else if JS.lt h scheduledAt (Some (VDate (Some date_2020_01_01)))
  then errors ++ [msg_scheduledAt_2020]
  else errors.

(* Validation de la priorité (valeurs prédéfinies) *)
Definition check_priority (eventData : obj) (errors : list string) : list string :=
  let priority := eventData !! "priority" in
  push_if (truthy priority && negb (includes EVENT_PRIORITIES priority))
    msg_priority errors.

(* Validation de la récurrence (valeurs prédéfinies ou null) *)
Definition check_recurrence (eventData : obj) (errors : list string) : list string :=
  let recurrence := eventData !! "recurrence" in
  if truthy recurrence then
    push_if (negb (includes EVENT_RECURRENCES recurrence)) msg_recurrence errors
  else errors.

(* Validation de la description (optionnelle, max 500 caractères) *)
Definition check_description (eventData : obj) (errors : list string) : list string :=
  let description := eventData !! "description" in
  push_if (truthy description && is_string description
           && (500 <? length_of description))
    msg_description errors.

(* Validation des notes (optionnelles, max 500 caractères) *)
Definition check_notes (eventData : obj) (errors : list string) : list string :=
  let notes := eventData !! "notes" in
  push_if (truthy notes && is_string notes && (500 <? length_of notes))
    msg_notes errors.

(* Validation de cohérence : completedAt doit être après scheduledAt *)
Definition check_completedAt (h : Host) (eventData : obj) (errors : list string)
  : list string :=
  let completedAt := eventData !! "completedAt" in
  let scheduledAt := eventData !! "scheduledAt" in
  if truthy completedAt && truthy scheduledAt then
    push_if (JS.lt h completedAt scheduledAt) msg_completedAt errors
  else errors.

Definition validateEventData (h : Host) (eventData : obj) : validation :=
  let errors := [] in
  let errors := check_targetType eventData errors in
  let errors := check_fishId eventData errors in
  let errors := check_type eventData errors in
  let errors := check_coherence eventData errors in
  let errors := check_title eventData errors in
  let errors := check_scheduledAt h eventData errors in
  let errors := check_priority eventData errors in
  let errors := check_recurrence eventData errors in
  let errors := check_description eventData errors in
  let errors := check_notes eventData errors in
  let errors := check_completedAt h eventData errors in
  {| isValid := Nat.eqb (List.length errors) 0; errors := errors |}.

End EventsCollection.

(** ** The two collections behind the methods

    The store keeps each event under its [_id]; a read returns the
    properties together with [_id].  Every write that reaches the store is
    appended to a journal, so that the order of the persistence calls of
    one method can be stated. *)

Module Store.

Inductive write :=
| Inserted (id : string) (doc : obj)
| Updated (id : string) (fields : obj)
| Removed (id : string).

Record state := {
  events : gmap string obj;
  fish : gmap string obj;
  journal : list write
}.

(** What a method call gets from its invocation: the caller, the clock at
    the call, and the identifier the store generator hands out next. *)
Record call := {
  userId : option string;
  now : Z;
  randomId : string
}.

(** [this.userId]: the identifier of the caller, [null] without a login. *)
Definition this_userId (this : call) : option value :=
  Some (match userId this with Some u => VStr u | None => VNull end).

Inductive exn :=
| MeteorError (error reason : string)
| MatchError
| Failure.

Inductive outcome (A : Type) :=
| Return (a : A)
| Throw (e : exn).
Arguments Return {A} a.
Arguments Throw {A} e.

(** A computation on the store that returns or throws. *)
Definition M (A : Type) : Type := state -> outcome A * state.

Definition ret {A} (a : A) : M A := fun st => (Return a, st).
Definition throw {A} (e : exn) : M A := fun st => (Throw e, st).
Definition bind {A B} (m : M A) (k : A -> M B) : M B :=
  fun st =>
    match m st with
    | (Return a, st') => k a st'
    | (Throw e, st') => (Throw e, st')
    end.

Notation "'let!' x ':=' m 'in' k" := (bind m (fun x => k))
  (at level 10, x name, m at level 100, k at level 200, only parsing).

(** [try { m } catch (error) { if (error instanceof Meteor.Error) throw
    error; throw new Meteor.Error(code, reason) }] *)
Definition try_catch {A} (m : M A) (code reason : string) : M A :=
  fun st =>
    match m st with
    | (Throw (MeteorError e r), st') => (Throw (MeteorError e r), st')
    | (Throw _, st') => (Throw (MeteorError code reason), st')
    | r => r
    end.

(** [try { m } catch (error) { throw new Meteor.Error(code, reason) }] *)
Definition catch_all {A} (m : M A) (code reason : string) : M A :=
  fun st =>
    match m st with
    | (Throw _, st') => (Throw (MeteorError code reason), st')
    | r => r
    end.

(** The document as a read returns it. *)
Definition document (id : string) (props : obj) : obj :=
  <["_id" := VStr id]> props.

(** [Collection.findOneAsync({ _id: id, ownerId: owner })] *)
Definition lookup_owned (coll : gmap string obj) (id owner : option value)
  : option obj :=
  match id with
  | Some (VStr i) =>
      match coll !! i with
      | Some props =>
          if strict_eq (props !! "ownerId") owner then Some (document i props)
          else None
      | None => None
      end
  | _ => None
  end.

Definition EventsCollection_findOneAsync (id owner : option value) : M (option obj) :=
  fun st => (Return (lookup_owned (events st) id owner), st).

Definition FishCollection_findOneAsync (id owner : option value) : M (option obj) :=
  fun st => (Return (lookup_owned (fish st) id owner), st).

(** [EventsCollection.insertAsync(doc)]: a document without the property
    [_id] gets the generated identifier; one that has the property
    (['_id' in doc]) keeps its [_id] when that is a non-empty string and is
    refused otherwise, also when the property holds [undefined]; an
    identifier already in use is refused. *)
Definition EventsCollection_insertAsync (this : call) (doc : literal) : M string :=
  fun st =>
    let chosen :=
      match doc !! "_id" with
      | None => Some (randomId this)
      | Some (Some (VStr i)) => if String.eqb i EmptyString then None else Some i
      | Some _ => None
      end in
    match chosen with
    | None => (Throw Failure, st)
    | Some id =>
        match events st !! id with
        | Some _ => (Throw Failure, st)
        | None =>
            let props := defined (delete "_id" doc) in
            (Return id,
             {| events := <[id := props]> (events st);
                fish := fish st;
                journal := journal st ++ [Inserted id props] |})
        end
    end.

(** [EventsCollection.updateAsync(id, { $set: fields })]: the number of
    documents changed; [_id] cannot be given another value.  A write that
    the store accepts is taken to succeed: a failure of the persistence
    itself is not modelled. *)
Definition EventsCollection_updateAsync (id : string) (fields : literal) : M Z :=
  fun st =>
    let fields := defined fields in
    match events st !! id with
    | None => (Return 0, st)
    | Some props =>
        if bool_decide (fields !! "_id" = None ∨ fields !! "_id" = Some (VStr id))
        then
          (Return 1,
           {| events := <[id := delete "_id" fields ∪ props]> (events st);
              fish := fish st;
              journal := journal st ++ [Updated id fields] |})
        else (Throw Failure, st)
    end.

(** [EventsCollection.removeAsync(id)] *)
Definition EventsCollection_removeAsync (id : string) : M Z :=
  fun st =>
    match events st !! id with
    | None => (Return 0, st)
    | Some _ =>
        (Return 1,
         {| events := delete id (events st);
            fish := fish st;
            journal := journal st ++ [Removed id] |})
    end.

(** Selectors of the counting queries: a condition per named property. *)
Inductive condition :=
| Is (v : value)
| Before (d : option Z)
| NotBefore (d : option Z)
| NotAfter (d : option Z).

Definition date_rel (rel : Z -> Z -> bool) (v : option value) (d : option Z) : bool :=
  match v, d with
  | Some (VDate (Some t)), Some b => rel t b
  | _, _ => false
  end.

Definition holds (c : condition) (v : option value) : bool :=
  match c with
  | Is x => bool_decide (v = Some x)
  | Before d => date_rel Z.ltb v d
  | NotBefore d => date_rel Z.geb v d
  | NotAfter d => date_rel Z.leb v d
  end.

Definition matches (selector : list (string * condition)) (doc : obj) : bool :=
  forallb (fun kc => holds kc.2 (doc !! kc.1)) selector.

(** [EventsCollection.find(selector).countAsync()] *)
Definition count_where (p : obj -> bool) (coll : gmap string obj) : Z :=
  Z.of_nat (List.length (List.filter (fun kv => p (document kv.1 kv.2))
                                     (map_to_list coll))).

Definition EventsCollection_count (selector : list (string * condition)) : M Z :=
  fun st => (Return (count_where (matches selector) (events st)), st).

End Store.

(** ** EventsMethods.js *)

Module EventsMethods.
Import Store EventsCollection ESDate.

(** An object literal [{ ...base, k1: v1, k2: v2 }]: later properties
    win, and a property written as [undefined] is a property of the
    object all the same. *)
Definition assign (base : obj) (props : list (string * option value)) : literal :=
  foldl (fun o kv => <[kv.1 := kv.2]> o) (Some <$> base) props.

Definition prop (k : string) (v : value) : string * option value := (k, Some v).
Definition undefined (k : string) : string * option value := (k, None).

(** [a || b] on property reads, and [a || literal]. *)
Definition or_else (a b : option value) : option value :=
  if truthy a then a else b.
Definition or_default (a : option value) (d : value) : value :=
  match a with
  | Some v => if truthy a then v else d
  | None => d
  end.

(** [check(v, String)], [check(v, Date)] *)
Definition check (ok : bool) : M unit :=
  if ok then ret tt else throw MatchError.

(** [v.trim()]: only a string has the method. *)
Definition trim_call (v : option value) : M value :=
  match v with
  | Some (VStr s) => ret (VStr (trim s))
  | _ => throw Failure
  end.

Definition new_Date (this : call) : value := VDate (Some (now this)).

Definition calculateNextOccurrence (h : Host) (currentDate recurrence : option value)
  : value :=
  let nextDate := construct h currentDate in
  if is_lit recurrence "daily" then
    VDate (setDate h nextDate ((fun d => d + 1) <$> getDate h nextDate))
  else if is_lit recurrence "weekly" then
    VDate (setDate h nextDate ((fun d => d + 7) <$> getDate h nextDate))
  else if is_lit recurrence "monthly" then
    VDate (setMonth h nextDate ((fun m => m + 1) <$> getMonth h nextDate))
  else VNull.

Definition not_authorized (reason : string) : exn :=
  MeteorError "not-authorized" reason.
Definition fish_not_found : exn :=
  MeteorError "fish-not-found" "Poisson introuvable ou non autorisé".
Definition event_not_found : exn :=
  MeteorError "event-not-found" "Événement introuvable ou non autorisé".
Definition fish_required : exn :=
  MeteorError "fish-required"
    "Un poisson doit être spécifié pour les événements de poisson".
Definition already_completed : exn :=
  MeteorError "already-completed" "Cet événement est déjà marqué comme terminé".
Definition validation_error (v : validation) : exn :=
  MeteorError "validation-error" (join (errors v)).

Definition insertEvent (h : Host) (this : call) (eventData : obj) : M string :=
  if negb (truthy (this_userId this)) then
    throw (not_authorized "Vous devez être connecté pour créer un événement")
  else
    let! _ := check (is_string (eventData !! "type")) in
    let! _ := check (is_string (eventData !! "title")) in
    let! _ := check (is_date (eventData !! "scheduledAt")) in
    let! _ := check (is_string (eventData !! "targetType")) in
    let! _ := (if is_lit (eventData !! "targetType") "fish"
               then check (is_string (eventData !! "fishId")) else ret tt) in
    try_catch
      (let! _ :=
         (if is_lit (eventData !! "targetType") "fish" then
            let! fish :=
              FishCollection_findOneAsync (eventData !! "fishId") (this_userId this) in
            match fish with
            | None => throw fish_not_found
            | Some _ => ret tt
            end
          else ret tt) in
       let validation := validateEventData h eventData in
       let! _ := (if negb (isValid validation)
                  then throw (validation_error validation) else ret tt) in
       let! title := trim_call (eventData !! "title") in
       let! description :=
         (if truthy (eventData !! "description")
          then trim_call (eventData !! "description") else ret (VStr EmptyString)) in
       let! notes :=
         (if truthy (eventData !! "notes")
          then trim_call (eventData !! "notes") else ret (VStr EmptyString)) in
       let eventToInsert :=
         assign eventData
           [ prop "title" title;
             prop "description" description;
             prop "notes" notes;
             prop "isCompleted" (VBool false);
             prop "completedAt" VNull;
             prop "priority" (or_default (eventData !! "priority") (VStr "medium"));
             prop "recurrence" (or_default (eventData !! "recurrence") VNull);
             prop "nextOccurrence"
               (if truthy (eventData !! "recurrence")
                then calculateNextOccurrence h (eventData !! "scheduledAt")
                                             (eventData !! "recurrence")
                else VNull);
             ("ownerId", this_userId this);
             prop "createdAt" (new_Date this);
             prop "updatedAt" (new_Date this) ] in
       EventsCollection_insertAsync this eventToInsert)
      "insert-failed" "Erreur lors de la création de l'événement".

Definition updateEvent (h : Host) (this : call) (eventId : string) (updateData : obj)
  : M bool :=
  if negb (truthy (this_userId this)) then
    throw (not_authorized "Vous devez être connecté pour modifier un événement")
  else
    try_catch
      (let! found :=
         EventsCollection_findOneAsync (Some (VStr eventId)) (this_userId this) in
       match found with
       | None => throw event_not_found
       | Some existingEvent =>
           let! _ :=
             (if truthy (updateData !! "fishId")
                 && negb (strict_eq (updateData !! "fishId") (existingEvent !! "fishId"))
              then
                let! fish :=
                  FishCollection_findOneAsync (updateData !! "fishId")
                                              (this_userId this) in
                match fish with
                | None => throw fish_not_found
                | Some _ => ret tt
                end
              else ret tt) in
           let! _ :=
             (if is_lit (updateData !! "targetType") "fish"
                 && negb (truthy (updateData !! "fishId"))
                 && negb (truthy (existingEvent !! "fishId"))
              then throw fish_required else ret tt) in
           let dataToValidate := updateData ∪ existingEvent in
           let validation := validateEventData h dataToValidate in
           let! _ := (if negb (isValid validation)
                      then throw (validation_error validation) else ret tt) in
           let updateFields := assign updateData [ prop "updatedAt" (new_Date this) ] in
           let! updateFields :=
             (if truthy (updateData !! "title") then
                let! t := trim_call (updateData !! "title") in
                ret (<["title" := Some t]> updateFields)
              else ret updateFields) in
           let! updateFields :=
             (if truthy (updateData !! "description") then
                let! t := trim_call (updateData !! "description") in
                ret (<["description" := Some t]> updateFields)
              else ret updateFields) in
           let! updateFields :=
             (if truthy (updateData !! "notes") then
                let! t := trim_call (updateData !! "notes") in
                ret (<["notes" := Some t]> updateFields)
              else ret updateFields) in
           let updateFields :=
             if truthy (updateData !! "recurrence") || truthy (updateData !! "scheduledAt")
             then
               let newScheduledAt :=
                 or_else (updateData !! "scheduledAt") (existingEvent !! "scheduledAt") in
               let newRecurrence :=
                 match updateData !! "recurrence" with
                 | Some r => Some r
                 | None => existingEvent !! "recurrence"
                 end in
               <["nextOccurrence" :=
                   Some (if truthy newRecurrence
                         then calculateNextOccurrence h newScheduledAt newRecurrence
                         else VNull)]> updateFields
             else updateFields in
           let! result := EventsCollection_updateAsync eventId updateFields in
           ret (0 <? result)
       end)
      "update-failed" "Erreur lors de la modification de l'événement".

Definition deleteEvent (this : call) (eventId : string) : M bool :=
  if negb (truthy (this_userId this)) then
    throw (not_authorized "Vous devez être connecté pour supprimer un événement")
  else
    try_catch
      (let! found :=
         EventsCollection_findOneAsync (Some (VStr eventId)) (this_userId this) in
       match found with
       | None => throw event_not_found
       | Some _ =>
           let! result := EventsCollection_removeAsync eventId in
           ret (0 <? result)
       end)
      "delete-failed" "Erreur lors de la suppression de l'événement".

Definition completeEvent (h : Host) (this : call) (eventId : string) (notes : string)
  : M bool :=
  if negb (truthy (this_userId this)) then
    throw (not_authorized
             "Vous devez être connecté pour marquer un événement comme terminé")
  else
    try_catch
      (let! found :=
         EventsCollection_findOneAsync (Some (VStr eventId)) (this_userId this) in
       match found with
       | None => throw event_not_found
       | Some event =>
           if truthy (event !! "isCompleted") then throw already_completed
           else
             let updateFields : literal :=
               assign ∅
                 [ prop "isCompleted" (VBool true);
                   prop "completedAt" (new_Date this);
                   prop "notes" (VStr (trim notes));
                   prop "updatedAt" (new_Date this) ] in
             let! _ :=
               (if truthy (event !! "recurrence") && truthy (event !! "nextOccurrence")
                then
                  let nextEventData :=
                    assign event
                      [ undefined "_id";
                        ("scheduledAt", event !! "nextOccurrence");
                        prop "nextOccurrence"
                          (calculateNextOccurrence h (event !! "nextOccurrence")
                                                   (event !! "recurrence"));
                        prop "isCompleted" (VBool false);
                        prop "completedAt" VNull;
                        prop "notes" (VStr EmptyString);
                        prop "createdAt" (new_Date this);
                        prop "updatedAt" (new_Date this) ] in
                  let! _ := EventsCollection_insertAsync this nextEventData in
                  ret tt
                else ret tt) in
             let! result := EventsCollection_updateAsync eventId updateFields in
             ret (0 <? result)
       end)
      "complete-failed" "Erreur lors du marquage de l'événement comme terminé".

Record today_stats := {
  today_total : Z;
  today_completed : Z;
  today_remaining : Z
}.

Record stats := {
  total : Z;
  completed : Z;
  pending : Z;
  overdue : Z;
  today : today_stats;
  completionRate : Z
}.

(** [total > 0 ? Math.round((completed / total) * 100) : 0] *)
Definition completion_rate (completed total : Z) : Z :=
  if 0 <? total
  then Double.Math_round
         (Double.mul (Double.div (inject_Z completed) (inject_Z total)) 100)
  else 0.

Definition getEventStats (h : Host) (this : call) : M stats :=
  if negb (truthy (this_userId this)) then
    throw (not_authorized "Vous devez être connecté pour voir les statistiques")
  else
    catch_all
      (let now := new_Date this in
       let startOfDay := setHours h (construct h (Some now)) 0 0 0 0 in
       let endOfDay := setHours h (construct h (Some now)) 23 59 59 999 in
       let ownerId := default VNull (this_userId this) in
       let! total := EventsCollection_count [("ownerId", Is ownerId)] in
       let! completed :=
         EventsCollection_count
           [("ownerId", Is ownerId); ("isCompleted", Is (VBool true))] in
       let! pending :=
         EventsCollection_count
           [("ownerId", Is ownerId); ("isCompleted", Is (VBool false))] in
       let! overdue :=
         EventsCollection_count
           [("ownerId", Is ownerId); ("isCompleted", Is (VBool false));
            ("scheduledAt", Before (construct h (Some now)))] in
       let! todayTotal :=
         EventsCollection_count
           [("ownerId", Is ownerId);
            ("scheduledAt", NotBefore startOfDay); ("scheduledAt", NotAfter endOfDay)] in
       let! todayCompleted :=
         EventsCollection_count
           [("ownerId", Is ownerId); ("isCompleted", Is (VBool true));
            ("scheduledAt", NotBefore startOfDay); ("scheduledAt", NotAfter endOfDay)] in
       ret {| total := total;
              completed := completed;
              pending := pending;
              overdue := overdue;
              today := {| today_total := todayTotal;
                          today_completed := todayCompleted;
                          today_remaining := todayTotal - todayCompleted |};
              completionRate := completion_rate completed total |})
      "stats-failed" "Erreur lors du calcul des statistiques".

End EventsMethods.

(** ** EventsPublications.js: the snapshot of the statistics publication *)

Module EventsPublications.
Import Store ESDate.

Record today_stats := {
  today_total : Z;
  today_completed : Z;
  today_remaining : Z
}.

Record stats := {
  total : Z;
  completed : Z;
  pending : Z;
  overdue : Z;
  today : today_stats;
  completionRate : Z;
  lastUpdated : value
}.

(** [calculateStats(userId)], read off the store at the instant [now]. *)
Definition calculateStats (h : Host) (now : Z) (userId : string) (st : state) : stats :=
  let count selector := count_where (matches selector) (events st) in
  let startOfDay := setHours h (Some now) 0 0 0 0 in
  let endOfDay := setHours h (Some now) 23 59 59 999 in
  let total := count [("ownerId", Is (VStr userId))] in
  let completed :=
    count [("ownerId", Is (VStr userId)); ("isCompleted", Is (VBool true))] in
  let pending :=
    count [("ownerId", Is (VStr userId)); ("isCompleted", Is (VBool false))] in
  let overdue :=
    count [("ownerId", Is (VStr userId)); ("isCompleted", Is (VBool false));
           ("scheduledAt", Before (Some now))] in
  let todayTotal :=
    count [("ownerId", Is (VStr userId));
           ("scheduledAt", NotBefore startOfDay); ("scheduledAt", NotAfter endOfDay)] in
  let todayCompleted :=
    count [("ownerId", Is (VStr userId)); ("isCompleted", Is (VBool true));
           ("scheduledAt", NotBefore startOfDay); ("scheduledAt", NotAfter endOfDay)] in
  {| total := total;
     completed := completed;
     pending := pending;
     overdue := overdue;
     today := {| today_total := todayTotal;
                 today_completed := todayCompleted;
                 today_remaining := todayTotal - todayCompleted |};
     completionRate := EventsMethods.completion_rate completed total;
     lastUpdated := VDate (Some now) |}.

End EventsPublications.

(** ** The words of the specification

    Definitions that follow the text of the specification rather than the
    source; the theorems compare the two. *)

Module Spec.
Import Store EventsCollection ESDate.

(** *** Validation rules (4.2), each with the message that reports it *)

Record rule := {
  violated : Host -> obj -> bool;
  message : string
}.

Definition nonempty_string (v : option value) : bool :=
  match v with
  | Some (VStr s) => negb (String.eqb s EmptyString)
  | _ => false
  end.

(** A property that is given: neither absent nor null. *)
Definition present (v : option value) : bool :=
  match v with
  | None | Some VNull => false
  | Some _ => true
  end.

(** The recurrences of the data model (3). *)
Definition RECURRENCES : list string := ["none"; "daily"; "weekly"; "monthly"]%string.

(** The rules of 4.2, in their order.  Two readings are left open here:
    when an optional property counts as [given], and which [recurrences]
    there are. *)
Definition rule_list (given : option value -> bool) (recurrences : list string)
  : list rule :=
  [ (* targetType membership *)
    {| violated := fun _ d => negb (includes validTargetTypes (d !! "targetType"));
       message := msg_targetType |};
    (* fishId required when targetType = fish *)
    {| violated := fun _ d =>
         is_lit (d !! "targetType") "fish" && negb (nonempty_string (d !! "fishId"));
       message := msg_fishId |};
    (* type membership *)
    {| violated := fun _ d => negb (includes EVENT_TYPES (d !! "type"));
       message := msg_type |};
    (* aquarium_medication requires targetType = aquarium *)
    {| violated := fun _ d =>
         is_lit (d !! "type") "aquarium_medication"
         && negb (is_lit (d !! "targetType") "aquarium");
       message := msg_coherence |};
    (* title required, 2 to 100 characters *)
    {| violated := fun _ d => negb (nonempty_string (d !! "title"));
       message := msg_title_required |};
    {| violated := fun _ d =>
         nonempty_string (d !! "title") && (trimmed_length_of (d !! "title") <? 2);
       message := msg_title_short |};
    {| violated := fun _ d =>
         nonempty_string (d !! "title") && (100 <? trimmed_length_of (d !! "title"));
       message := msg_title_long |};
    (* scheduledAt present, not before 2020 *)
    {| violated := fun _ d => negb (is_date (d !! "scheduledAt"));
       message := msg_scheduledAt_required |};
    {| violated := fun h d =>
         is_date (d !! "scheduledAt")
         && JS.lt h (d !! "scheduledAt") (Some (VDate (Some date_2020_01_01)));
       message := msg_scheduledAt_2020 |};
    (* priority and recurrence membership, if present *)
    {| violated := fun _ d =>
         given (d !! "priority") && negb (includes EVENT_PRIORITIES (d !! "priority"));
       message := msg_priority |};
    {| violated := fun _ d =>
         given (d !! "recurrence") && negb (includes recurrences (d !! "recurrence"));
       message := msg_recurrence |};
    (* description and notes at most 500 characters *)
    {| violated := fun _ d =>
         nonempty_string (d !! "description") && (500 <? length_of (d !! "description"));
       message := msg_description |};
    {| violated := fun _ d =>
         nonempty_string (d !! "notes") && (500 <? length_of (d !! "notes"));
       message := msg_notes |};
    (* completedAt not before scheduledAt, if both present *)
    {| violated := fun h d =>
         given (d !! "completedAt") && given (d !! "scheduledAt")
         && JS.lt h (d !! "completedAt") (d !! "scheduledAt");
       message := msg_completedAt |} ].

(** The rules as the specification words them. *)
Definition rules : list rule := rule_list present RECURRENCES.

(** The rules as [validateEventData] reads them: an optional property is
    checked when it is truthy, and the recurrences are those of
    [EVENT_RECURRENCES]. *)
Definition enforced : list rule := rule_list truthy EVENT_RECURRENCES.

(** The payloads on which the two readings agree. *)
Definition plain (d : obj) : Prop :=
  (forall k, k ∈ ["priority"; "recurrence"; "completedAt"; "scheduledAt"]%string ->
             present (d !! k) = truthy (d !! k))
  /\ is_lit (d !! "recurrence") "none" = false.

(** The message of a rule, present or not. *)
Definition seg (c : bool) (msg : string) : list string := if c then [msg] else [].

(** The messages of the violated rules, in the order of the rules. *)
Definition messages (rs : list rule) (h : Host) (d : obj) : list string :=
  message <$> List.filter (fun r => violated r h d) rs.

Definition violations (h : Host) (d : obj) : list string := messages enforced h d.

(** *** Statistics (4.4) *)

Definition owned_by (u : string) (d : obj) : bool :=
  bool_decide (d !! "ownerId" = Some (VStr u)).

Definition completed_is (b : bool) (d : obj) : bool :=
  bool_decide (d !! "isCompleted" = Some (VBool b)).

Definition scheduled_before (now : Z) (d : obj) : bool :=
  match d !! "scheduledAt" with
  | Some (VDate (Some t)) => t <? now
  | _ => false
  end.

(** The instants of the first and of the last millisecond of the local
    day of [now]. *)
Definition startOfDay (h : Host) (now : Z) : Z :=
  UTC h (Day (LocalTime h now) * msPerDay).
Definition endOfDay (h : Host) (now : Z) : Z :=
  UTC h (Day (LocalTime h now) * msPerDay + (msPerDay - 1)).

(** A host without clock changes: local time is [tza] ahead of UTC
    throughout. *)
Definition fixed_offset (h : Host) (tza : Z) : Prop :=
  forall t isUTC, LocalTZA h t isUTC = tza.

(** No clock change on the local day of [d]: local time is [tza] ahead of
    UTC at the two ends of that day and at every instant of it. *)
Definition steady_day (h : Host) (d tza : Z) : Prop :=
  let D := Day (LocalTime h d) in
  LocalTZA h (D * msPerDay) false = tza
  /\ LocalTZA h (D * msPerDay + (msPerDay - 1)) false = tza
  /\ forall t, Day (t + tza) = D \/ Day (LocalTime h t) = D -> LocalTZA h t true = tza.

Definition scheduled_today (h : Host) (now : Z) (d : obj) : bool :=
  match d !! "scheduledAt" with
  | Some (VDate (Some t)) => (startOfDay h now <=? t) && (t <=? endOfDay h now)
  | _ => false
  end.

(** [round(100 * completed / total)] in exact arithmetic, a tie going up. *)
Definition exact_rate (completed total : Z) : Z :=
  if 0 <? total then (200 * completed + total) / (2 * total) else 0.

(** *** Calendar *)

Definition DaysInMonth (y m : Z) : Z :=
  if m =? 11 then 31
  else DaysBeforeMonth (InLeapYear y) (m + 1) - DaysBeforeMonth (InLeapYear y) m.

(** The civil date and the time of day of a time value. *)
Definition civil (t : Z) : Z * Z * Z * Z :=
  (YearFromTime t, MonthFromTime t, DateFromTime t, TimeWithinDay t).

(** The month after [(y, m)]. *)
Definition next_month (y m : Z) : Z * Z := (y + (m + 1) / 12, (m + 1) mod 12).

(** One month later: the same day of the next month at the same time of
    day; a day that the next month does not have rolls over into the month
    after it. *)
Definition one_month_later (c : Z * Z * Z * Z) : Z * Z * Z * Z :=
  let '(y, m, d, tod) := c in
  let next := next_month y m in
  if d <=? DaysInMonth next.1 next.2 then (next.1, next.2, d, tod)
  else
    let after := next_month next.1 next.2 in
    (after.1, after.2, d - DaysInMonth next.1 next.2, tod).

(** *** Mutations (4.3) *)

(** An authenticated caller. *)
Definition authenticated (this : call) : Prop :=
  exists u, userId this = Some u /\ u <> EmptyString.

(** The event with identifier [id] as the caller may see it. *)
Definition own_event (st : state) (this : call) (id : string) : option obj :=
  lookup_owned (events st) (Some (VStr id)) (this_userId this).

(** What completing writes: the four properties, and the event after it. *)
Definition completion (this : call) (notes : string) : obj :=
  <["updatedAt" := VDate (Some (now this))]>
    (<["notes" := VStr (trim notes)]>
       (<["completedAt" := VDate (Some (now this))]>
          (<["isCompleted" := VBool true]> ∅))).

Definition completed_with (this : call) (notes : string) (e : obj) : obj :=
  completion this notes ∪ e.

(** A text property after normalisation: trimmed, empty when not given. *)
Definition trimmed_or_empty (v : option value) : value :=
  match v with
  | Some (VStr s) => VStr (trim s)
  | _ => VStr EmptyString
  end.

(** *** Data model (3) *)

(** [fishId] present if and only if [targetType] is fish. *)
Definition fishId_iff_fish (d : obj) : Prop :=
  is_Some (d !! "fishId") <-> d !! "targetType" = Some (VStr "fish").

End Spec.

(** ** Concrete hosts, stores and payloads used by the examples *)

Module Scenario.
Import Store.

(** A server on UTC. *)
Definition host : Host :=
  {| LocalTZA := fun _ _ => 0;
     StringToNumber := fun _ => None;
     DateParse := fun _ => None |}.

(** 2024-01-31T08:00Z and the instants of two later calls. *)
Definition t_jan31 : Z := 1706688000000.
Definition t_mar02 : Z := 1709366400000.
Definition t_call1 : Z := 1706000000000.
Definition t_call2 : Z := 1706700000000.

Definition alice (now : Z) (next : string) : call :=
  {| userId := Some "alice"; now := now; randomId := next |}.

Definition bob (now : Z) (next : string) : call :=
  {| userId := Some "bob"; now := now; randomId := next |}.

Definition nemo : obj := {[ "name" := VStr "Nemo"; "ownerId" := VStr "alice" ]}.

(** No event yet; alice owns the fish [f1]. *)
Definition empty_store : state :=
  {| events := ∅; fish := {[ "f1" := nemo ]}; journal := [] |}.

(** A monthly feeding of [f1] on the 31st of January; the payload also
    carries properties the server is to decide itself. *)
Definition monthly_feeding : obj :=
  list_to_map
    [ ("type", VStr "feeding"); ("title", VStr "  Feed Nemo ");
      ("scheduledAt", VDate (Some t_jan31));
      ("targetType", VStr "fish"); ("fishId", VStr "f1");
      ("recurrence", VStr "monthly");
      ("isCompleted", VBool true); ("completedAt", VDate (Some t_mar02));
      ("createdAt", VDate (Some 0)); ("updatedAt", VDate (Some 0)) ].

(** An aquarium treatment aimed at a fish. *)
Definition incoherent (fishId : string) : obj :=
  list_to_map
    [ ("type", VStr "aquarium_medication"); ("title", VStr "Treatment");
      ("scheduledAt", VDate (Some t_jan31));
      ("targetType", VStr "fish"); ("fishId", VStr fishId) ].

(** An aquarium event whose payload names a fish. *)
Definition aquarium_with_fish : obj :=
  list_to_map
    [ ("type", VStr "cleaning"); ("title", VStr "Clean the tank");
      ("scheduledAt", VDate (Some t_jan31));
      ("targetType", VStr "aquarium"); ("fishId", VStr "f1") ].

(** A stored daily feeding of [f1], owned by alice, under the id [e1]. *)
Definition daily_feeding : obj :=
  list_to_map
    [ ("type", VStr "feeding"); ("title", VStr "Feed Nemo");
      ("description", VStr EmptyString); ("notes", VStr EmptyString);
      ("scheduledAt", VDate (Some t_jan31));
      ("targetType", VStr "fish"); ("fishId", VStr "f1");
      ("isCompleted", VBool false); ("completedAt", VNull);
      ("priority", VStr "medium"); ("recurrence", VStr "daily");
      ("nextOccurrence", VDate (Some (t_jan31 + 86400000)));
      ("ownerId", VStr "alice");
      ("createdAt", VDate (Some t_call1)); ("updatedAt", VDate (Some t_call1)) ].

Definition one_event : state :=
  {| events := {[ "e1" := daily_feeding ]};
     fish := {[ "f1" := nemo ]};
     journal := [] |}.

(** Partial payloads of an update. *)
Definition change_owner : obj := {[ "ownerId" := VStr "mallory" ]}.
Definition clear_recurrence : obj := {[ "recurrence" := VNull ]}.
Definition retarget_aquarium : obj := {[ "targetType" := VStr "aquarium" ]}.

(** Forty events of alice, scheduled on the 31st of January, the first
    twenty-three of them completed. *)
Definition numbered (i : nat) : string * obj :=
  (String (ascii_of_nat (48 + i)) EmptyString,
   list_to_map
     [ ("type", VStr "feeding"); ("title", VStr "Feed Nemo");
       ("scheduledAt", VDate (Some t_jan31));
       ("targetType", VStr "aquarium");
       ("isCompleted", VBool (i <? 23)%nat);
       ("ownerId", VStr "alice") ]).

Definition forty_events : state :=
  {| events := list_to_map (numbered <$> seq 0 40);
     fish := ∅;
     journal := [] |}.

End Scenario.

(** ** EventsCollection.js: the predefined queries *)

Module EventsQueries.
Import Store ESDate.

(** One property of a selector: a condition on the value of [k], or the
    empty object [{}] that a selector under construction can be left
    with.  No value of the store is an object, so that nothing equals
    [{}]. *)
Inductive clause :=
| Field (k : string) (c : condition)
| EmptyObject (k : string).

Definition satisfies (doc : obj) (cl : clause) : bool :=
  match cl with
  | Field k c => holds c (doc !! k)
  | EmptyObject _ => false
  end.

(** [limit]: not given, or a Number ([None] is NaN). *)
Inductive limit_option :=
| NoLimit
| Limit (n : option Z).

(** [EventsCollection.find(selector, { sort, limit })] *)
Record cursor := {
  selector : list clause;
  sort : list (string * Z);
  limit : limit_option
}.

(** The documents a cursor ranges over, before its limit. *)
Definition selects (c : cursor) (doc : obj) : bool :=
  forallb (satisfies doc) (selector c).

(** [cursor.count()] of a cursor without limit. *)
Definition count (c : cursor) (st : state) : Z :=
  count_where (selects c) (events st).

Definition find (selector : list clause) : cursor :=
  {| selector := selector; sort := []; limit := NoLimit |}.

Definition getUserEvents (userId : string) : cursor :=
  {| selector := [Field "ownerId" (Is (VStr userId))];
     sort := [("scheduledAt"%string, -1)];
     limit := NoLimit |}.

Definition getFishEvents (fishId userId : string) : cursor :=
  {| selector := [Field "fishId" (Is (VStr fishId)); Field "ownerId" (Is (VStr userId))];
     sort := [("scheduledAt"%string, -1)];
     limit := NoLimit |}.

(** [now] is the instant of the call, read by [new Date()]. *)
Definition getOverdueEvents (now : Z) (userId : string) : cursor :=
  {| selector := [Field "ownerId" (Is (VStr userId));
                  Field "isCompleted" (Is (VBool false));
                  Field "scheduledAt" (Before (Some now))];
     sort := [("scheduledAt"%string, 1)];
     limit := NoLimit |}.

(** [targetDate] defaults to [new Date()] when it is not given. *)
Definition getTodayEvents (h : Host) (now : Z) (userId : string)
    (targetDate : option value) : cursor :=
  let targetDate :=
    match targetDate with
    | None => Some (VDate (Some now))
    | Some v => Some v
    end in
  let startOfDay := setHours h (construct h targetDate) 0 0 0 0 in
  let endOfDay := setHours h (construct h targetDate) 23 59 59 999 in
  {| selector := [Field "ownerId" (Is (VStr userId));
                  Field "scheduledAt" (NotBefore startOfDay);
                  Field "scheduledAt" (NotAfter endOfDay)];
     sort := [("scheduledAt"%string, 1)];
     limit := NoLimit |}.

Record counters := {
  total : Z;
  completed : Z;
  pending : Z;
  overdue : Z
}.

Definition getEventStats (now : Z) (userId : string) (st : state) : counters :=
  {| total := count (find [Field "ownerId" (Is (VStr userId))]) st;
     completed :=
       count (find [Field "ownerId" (Is (VStr userId));
                    Field "isCompleted" (Is (VBool true))]) st;
     pending :=
       count (find [Field "ownerId" (Is (VStr userId));
                    Field "isCompleted" (Is (VBool false))]) st;
     overdue :=
       count (find [Field "ownerId" (Is (VStr userId));
                    Field "isCompleted" (Is (VBool false));
                    Field "scheduledAt" (Before (Some now))]) st |}.

End EventsQueries.

(** ** EventsPublications.js: what each publication hands out *)

Module Publications.
Import Store ESDate EventsMethods EventsQueries.

(** [this.ready()] without documents, or the cursor to publish. *)
Inductive published :=
| Ready
| Documents (c : cursor).

(** The object of options given to [events.filtered]: [sort], an object
    when given, and [limit]. *)
Record find_options := {
  opt_sort : option (list (string * Z));
  opt_limit : option value
}.

(** [Math.min(a, b)] *)
Definition Math_min (a b : option Z) : option Z :=
  match a, b with
  | Some x, Some y => Some (Z.min x y)
  | _, _ => None
  end.

Definition events_all (this : call) : published :=
  if negb (truthy (this_userId this)) then Ready
  else
    Documents
      {| selector := [Field "ownerId" (Is (default VNull (this_userId this)))];
         sort := [("scheduledAt"%string, -1)];
         limit := NoLimit |}.

Definition events_byFish (this : call) (fishId : option value) : outcome published :=
  if negb (truthy (this_userId this)) then Return Ready
  else if negb (is_string fishId) then Throw MatchError
  else
    Return
      (Documents
         {| selector := [Field "fishId" (Is (default VNull fishId));
                         Field "ownerId" (Is (default VNull (this_userId this)))];
            sort := [("scheduledAt"%string, -1)];
            limit := NoLimit |}).

Definition events_today (h : Host) (this : call) : published :=
  if negb (truthy (this_userId this)) then Ready
  else
    let now := new_Date this in
    let startOfDay := setHours h (construct h (Some now)) 0 0 0 0 in
    let endOfDay := setHours h (construct h (Some now)) 23 59 59 999 in
    Documents
      {| selector := [Field "ownerId" (Is (default VNull (this_userId this)));
                      Field "scheduledAt" (NotBefore startOfDay);
                      Field "scheduledAt" (NotAfter endOfDay)];
         sort := [("scheduledAt"%string, 1)];
         limit := NoLimit |}.

Definition events_overdue (this : call) : published :=
  if negb (truthy (this_userId this)) then Ready
  else
    let now := now this in
    Documents
      {| selector := [Field "ownerId" (Is (default VNull (this_userId this)));
                      Field "isCompleted" (Is (VBool false));
                      Field "scheduledAt" (Before (Some now))];
         sort := [("scheduledAt"%string, 1)];
         limit := NoLimit |}.

(** The time value of a date among the filters. *)
Definition time_of (v : option value) : option Z :=
  match v with Some (VDate tv) => tv | _ => None end.

Definition events_filtered (h : Host) (this : call) (filters : obj)
    (options : find_options) : published :=
  if negb (truthy (this_userId this)) then Ready
  else
    let query := [Field "ownerId" (Is (default VNull (this_userId this)))] in
    let query :=
      if truthy (filters !! "type") && is_string (filters !! "type")
      then query ++ [Field "type" (Is (default VNull (filters !! "type")))]
      else query in
    let query :=
      match filters !! "isCompleted" with
      | Some (VBool b) => query ++ [Field "isCompleted" (Is (VBool b))]
      | _ => query
      end in
    let query :=
      if truthy (filters !! "priority") && is_string (filters !! "priority")
      then query ++ [Field "priority" (Is (default VNull (filters !! "priority")))]
      else query in
    let query :=
      if truthy (filters !! "fishId") && is_string (filters !! "fishId")
      then query ++ [Field "fishId" (Is (default VNull (filters !! "fishId")))]
      else query in
    let query :=
      if truthy (filters !! "dateFrom") || truthy (filters !! "dateTo") then
        let scheduledAt := [] in
        let scheduledAt :=
          if truthy (filters !! "dateFrom") && is_date (filters !! "dateFrom")
          then scheduledAt ++ [NotBefore (time_of (filters !! "dateFrom"))]
          else scheduledAt in
        let scheduledAt :=
          if truthy (filters !! "dateTo") && is_date (filters !! "dateTo")
          then scheduledAt ++ [NotAfter (time_of (filters !! "dateTo"))]
          else scheduledAt in
        match scheduledAt with
        | [] => query ++ [EmptyObject "scheduledAt"]
        | _ => query ++ (Field "scheduledAt" <$> scheduledAt)
        end
      else query in
    Documents
      {| selector := query;
         sort := default [("scheduledAt"%string, -1)] (opt_sort options);
         limit :=
           Limit (Math_min (ToNumber h (or_else (opt_limit options) (Some (VNum 50))))
                           (Some 100)) |}.

End Publications.


(** ** The client: what the hooks compute from the events they receive *)

(** More of the language, for the client code. *)
Module JSClient.
Import ESDate.

(** [a >= b], [a <= b], [a < b] between two date objects: their time
    values compare, and nothing compares with NaN. *)
Definition date_compare (rel : Z -> Z -> bool) (a b : option Z) : bool :=
  match a, b with
  | Some x, Some y => rel x y
  | _, _ => false
  end.

(** [a - b] on Numbers and on date objects. *)
Definition minus (a b : option Z) : option Z :=
  match a, b with
  | Some x, Some y => Some (x - y)
  | _, _ => None
  end.

(** [WeekDay], 0 for Sunday (ECMA-262, 21.4.1.13), and [d.getDay()]. *)
Definition WeekDay (t : Z) : Z := (Day t + 4) mod 7.

Definition getDay (h : Host) (tv : option Z) : option Z :=
  (fun t => WeekDay (LocalTime h t)) <$> tv.

(** [array.filter(p).length] *)
Definition filter_length {A} (p : A -> bool) (array : list A) : Z :=
  Z.of_nat (List.length (List.filter p array)).

(** [array.sort(compare)]: the sort is stable, and a comparison that
    gives NaN counts as 0. *)
Fixpoint sort_insert {A} (compare : A -> A -> option Z) (x : A) (sorted : list A)
  : list A :=
  match sorted with
  | [] => [x]
  | y :: rest =>
      if 0 <? default 0 (compare x y) then y :: sort_insert compare x rest
      else x :: sorted
  end.

Definition Array_sort {A} (compare : A -> A -> option Z) (array : list A) : list A :=
  foldr (sort_insert compare) [] array.

End JSClient.

(** *** hooks/useEvents.js *)

Module useEvents.
Import ESDate JSClient.

Record eventStats := {
  total : Z;
  today : Z;
  overdue : Z;
  completed : Z;
  pending : Z;
  thisWeek : Z
}.

(** [getEventStats()] over the events of the subscription, at the instant
    [now] read by [new Date()]. *)
Definition getEventStats (h : Host) (now : Z) (events : list obj) : eventStats :=
  if (List.length events =? 0)%nat then
    {| total := 0; today := 0; overdue := 0; completed := 0; pending := 0;
       thisWeek := 0 |}
  else
    let now := Some now in
    let startOfDay := setHours h (construct h (Some (VDate now))) 0 0 0 0 in
    let endOfDay := setHours h (construct h (Some (VDate now))) 23 59 59 999 in
    let startOfWeek := construct h (Some (VDate now)) in
    let startOfWeek := setDate h startOfWeek (minus (getDate h now) (getDay h now)) in
    let startOfWeek := setHours h startOfWeek 0 0 0 0 in
    {| total := Z.of_nat (List.length events);
       today :=
         filter_length
           (fun event =>
              let eventDate := construct h (event !! "scheduledAt") in
              date_compare Z.geb eventDate startOfDay
              && date_compare Z.leb eventDate endOfDay) events;
       overdue :=
         filter_length
           (fun event =>
              negb (truthy (event !! "isCompleted"))
              && date_compare Z.ltb (construct h (event !! "scheduledAt")) now) events;
       completed := filter_length (fun event => truthy (event !! "isCompleted")) events;
       pending :=
         filter_length (fun event => negb (truthy (event !! "isCompleted"))) events;
       thisWeek :=
         filter_length
           (fun event =>
              let eventDate := construct h (event !! "scheduledAt") in
              date_compare Z.geb eventDate startOfWeek) events |}.

End useEvents.

(** *** hooks/useAnalytics.js: the statistics of the events

    First the expressions that [eventStats] evaluates, one by one, then
    the computation as a whole. *)

Module useAnalytics.
Import ESDate JSClient.

Definition totalEvents (events : list obj) : Z := Z.of_nat (List.length events).

Definition completedEvents (events : list obj) : Z :=
  filter_length (fun event => truthy (event !! "isCompleted")) events.

Definition pendingEvents (h : Host) (now : Z) (events : list obj) : Z :=
  filter_length
    (fun event =>
       negb (truthy (event !! "isCompleted"))
       && date_compare Z.geb (construct h (event !! "scheduledAt")) (Some now)) events.

Definition overdueEvents (h : Host) (now : Z) (events : list obj) : Z :=
  filter_length
    (fun event =>
       negb (truthy (event !! "isCompleted"))
       && date_compare Z.ltb (construct h (event !! "scheduledAt")) (Some now)) events.

Definition fishSpecificEvents (events : list obj) : Z :=
  filter_length (fun event => truthy (event !! "fishId")) events.

Definition generalEvents (events : list obj) : Z :=
  filter_length (fun event => negb (truthy (event !! "fishId"))) events.

(** The five next events: [filter], [sort] by date, [slice(0, 5)]. *)
Definition upcomingEvents (h : Host) (now : Z) (events : list obj) : list obj :=
  take 5
    (Array_sort (fun a b => minus (construct h (a !! "scheduledAt"))
                            (construct h (b !! "scheduledAt")))
       (List.filter
          (fun event =>
             negb (truthy (event !! "isCompleted"))
             && date_compare Z.geb (construct h (event !! "scheduledAt")) (Some now))
          events)).

(** [date.toISOString()] returns for a valid date and throws a
    [RangeError] for the invalid one; the text it returns is not
    modelled. *)
Definition toISOString_returns (tv : option Z) : bool :=
  match tv with Some _ => true | None => false end.

(** Whether the loop that fills [last30Days] runs to its end: for each of
    the thirty days up to [now], from the earliest, it converts the day
    and then the scheduledAt of every event. *)
Definition last30Days_returns (h : Host) (now : Z) (events : list obj) : bool :=
  forallb
    (fun i =>
       toISOString_returns (TimeClip (now - Z.of_nat i * msPerDay))
       && forallb
            (fun event => toISOString_returns (construct h (event !! "scheduledAt")))
            events)
    (rev (seq 0 30)).

(** The object that [eventStats] holds, without its [typeBreakdown] and
    its [last30Days]. *)
Module Stats.
Record t := {
  totalEvents : Z;
  completedEvents : Z;
  pendingEvents : Z;
  overdueEvents : Z;
  upcomingEvents : list obj;
  fishSpecificEvents : Z;
  generalEvents : Z
}.
End Stats.

(** [eventStats] for the events of a subscription that is ready, at the
    instant [now] read by [new Date()]: [None] when the computation throws
    (the [RangeError] of [toISOString]). *)
Definition eventStats (h : Host) (now : Z) (events : list obj) : option Stats.t :=
  if last30Days_returns h now events then
    Some {| Stats.totalEvents := totalEvents events;
            Stats.completedEvents := completedEvents events;
            Stats.pendingEvents := pendingEvents h now events;
            Stats.overdueEvents := overdueEvents h now events;
            Stats.upcomingEvents := upcomingEvents h now events;
            Stats.fishSpecificEvents := fishSpecificEvents events;
            Stats.generalEvents := generalEvents events |}
  else None.

End useAnalytics.

(** *** components/EventForm.jsx: validation and submission *)

Module EventForm.
Import Store ESDate EventsMethods JSClient.

(** The state of the form: eight strings. *)
Record formData := {
  type : string;
  title : string;
  description : string;
  targetType : string;
  fishId : string;
  scheduledAt : string;
  priority : string;
  notes : string
}.

(** The state as the object it is. *)
Definition fields (f : formData) : obj :=
  list_to_map
    [ ("type"%string, VStr (type f)); ("title"%string, VStr (title f));
      ("description"%string, VStr (description f));
      ("targetType"%string, VStr (targetType f));
      ("fishId"%string, VStr (fishId f)); ("scheduledAt"%string, VStr (scheduledAt f));
      ("priority"%string, VStr (priority f)); ("notes"%string, VStr (notes f)) ].

(** [d.getFullYear()], [d.setFullYear(y)] *)
Definition getFullYear (h : Host) (tv : option Z) : option Z :=
  (fun t => YearFromTime (LocalTime h t)) <$> tv.

Definition setFullYear (h : Host) (tv y : option Z) : option Z :=
  match y with
  | Some y =>
      let t := match tv with Some t0 => LocalTime h t0 | None => 0 end in
      TimeClip (UTC h (MakeDate (MakeDay y (MonthFromTime t) (DateFromTime t))
                                (TimeWithinDay t)))
  | None => None
  end.

(** [validateForm()]: the object of errors, empty when the form is valid. *)
Definition validateForm (h : Host) (now : Z) (f : formData) : gmap string string :=
  let newErrors : gmap string string := ∅ in
  let newErrors :=
    if String.eqb (trim (title f)) EmptyString
    then <["title" := "Le titre est obligatoire"%string]> newErrors
    else if 100 <? strlen (title f)
    then <["title" := "Le titre ne peut pas dépasser 100 caractères"%string]> newErrors
    else newErrors in
  let newErrors :=
    if String.eqb (scheduledAt f) EmptyString
    then <["scheduledAt" := "La date et l'heure sont obligatoires"%string]> newErrors
    else
      let scheduledDate := construct h (Some (VStr (scheduledAt f))) in
      let minDate := Some now in
      let minDate := setFullYear h minDate (minus (getFullYear h minDate) (Some 1)) in
      if date_compare Z.ltb scheduledDate minDate
      then <["scheduledAt" := "La date ne peut pas être trop ancienne"%string]> newErrors
      else newErrors in
  let newErrors :=
    if String.eqb (targetType f) "fish" && String.eqb (fishId f) EmptyString
    then <["fishId" := "Vous devez sélectionner un poisson"%string]> newErrors
    else newErrors in
  let newErrors :=
    if negb (String.eqb (description f) EmptyString) && (500 <? strlen (description f))
    then <["description" :=
             "La description ne peut pas dépasser 500 caractères"%string]> newErrors
    else newErrors in
  newErrors.

(** What a submission sends to the server: the arguments of the method
    call, as they travel. *)
Inductive request :=
| createEvent (eventData : obj)
| updateEvent (eventId : option value) (updateData : obj).

(** [handleSubmit]: nothing is sent when the form is not valid. *)
Definition handleSubmit (h : Host) (now : Z) (mode : string) (eventData : option obj)
    (f : formData) : option request :=
  if negb (bool_decide (validateForm h now f = ∅)) then None
  else
    let eventDataToSend :=
      assign (fields f)
        [ prop "scheduledAt" (VDate (construct h (Some (VStr (scheduledAt f)))));
          prop "title" (VStr (trim (title f)));
          prop "description" (VStr (trim (description f)));
          prop "notes" (VStr (trim (notes f))) ] in
    let eventDataToSend :=
      if String.eqb (targetType f) "aquarium"
      then delete "fishId" eventDataToSend else eventDataToSend in
    match eventData with
    | Some existing =>
        if String.eqb mode "edit"
        then Some (updateEvent (existing !! "_id") (defined eventDataToSend))
        else Some (createEvent (defined eventDataToSend))
    | None => Some (createEvent (defined eventDataToSend))
    end.

End EventForm.

(** *** components/EventsDashboard.jsx: the tabs, and deleting the completed events *)

Module EventsDashboard.
Import Store ESDate EventsMethods JSClient.

(** [deleteEvent(eventId)] of the hook: the method call [events.delete],
    whose identifier has to be a string. *)
Definition events_delete (this : call) (eventId : option value) : M bool :=
  match eventId with
  | Some (VStr id) => deleteEvent this id
  | _ =>
      if negb (truthy (this_userId this)) then
        throw (not_authorized "Vous devez être connecté pour supprimer un événement")
      else throw MatchError
  end.

(** [for (const event of completedEvents) await deleteEvent(event._id)] *)
Fixpoint delete_each (this : call) (completedEvents : list obj) : M unit :=
  match completedEvents with
  | [] => ret tt
  | event :: rest =>
      let! _ := events_delete this (event !! "_id") in
      delete_each this rest
  end.

(** [try { m } catch (err) { console.error(...) }] *)
Definition logged (m : M unit) : M unit :=
  fun st =>
    match m st with
    | (Throw _, st') => (Return tt, st')
    | r => r
    end.

(** [handleDeleteCompletedEvents], the user answering [confirmed] to the
    confirmation. *)
Definition handleDeleteCompletedEvents (this : call) (confirmed : bool)
    (events : list obj) : M unit :=
  let completedEvents :=
    List.filter (fun event => truthy (event !! "isCompleted")) events in
  if (List.length completedEvents =? 0)%nat then ret tt
  else if confirmed then logged (delete_each this completedEvents)
  else ret tt.

(** [getFilteredEvents()] for the tab [filter], at the instant [now] read
    by [new Date()]. *)
Definition getFilteredEvents (h : Host) (now : Z) (filter : string)
    (events : list obj) : list obj :=
  let now := Some now in
  let startOfDay := setHours h (construct h (Some (VDate now))) 0 0 0 0 in
  let endOfDay := setHours h (construct h (Some (VDate now))) 23 59 59 999 in
  if String.eqb filter "today" then
    List.filter
      (fun event =>
         let eventDate := construct h (event !! "scheduledAt") in
         date_compare Z.geb eventDate startOfDay
         && date_compare Z.leb eventDate endOfDay) events
  else if String.eqb filter "overdue" then
    List.filter
      (fun event =>
         negb (truthy (event !! "isCompleted"))
         && date_compare Z.ltb (construct h (event !! "scheduledAt")) now) events
  else if String.eqb filter "pending" then
    List.filter (fun event => negb (truthy (event !! "isCompleted"))) events
  else events.

(** [filteredEvents]: the events of the tab, sorted by date. *)
Definition filteredEvents (h : Host) (now : Z) (filter : string)
    (events : list obj) : list obj :=
  Array_sort (fun a b => minus (construct h (a !! "scheduledAt"))
                               (construct h (b !! "scheduledAt")))
    (getFilteredEvents h now filter events).

End EventsDashboard.

(** ** Notions in which the further properties are stated *)

Module Behaviour.
Import Store EventsCollection ESDate Spec EventsQueries Publications JSClient.
Import EventsMethods.

(** *** Computations *)

(** A computation that writes nothing when it throws. *)
Definition atomic {A} (m : M A) : Prop :=
  forall st e st', m st = (Throw e, st') -> st' = st.
(** A computation that never writes. *)
Definition readonly {A} (m : M A) : Prop :=
  forall st o st', m st = (o, st') -> st' = st.
(** From [st] to [st'] the journal gained one write at most. *)
Definition at_most_one_write (st st' : state) : Prop :=
  exists ws, journal st' = journal st ++ ws /\ (List.length ws <= 1)%nat.

Definition complete_failed : exn :=
  MeteorError "complete-failed" "Erreur lors du marquage de l'événement comme terminé".

(** *** What the methods write *)

(** The properties [insertEvent] writes over those of the payload. *)
Definition inserted_props (h : Host) (this : call) (eventData : obj) : obj :=
  <["updatedAt" := VDate (Some (now this))]>
    (<["createdAt" := VDate (Some (now this))]>
       (<["ownerId" := default VNull (this_userId this)]>
          (<["nextOccurrence" :=
               if truthy (eventData !! "recurrence")
               then calculateNextOccurrence h (eventData !! "scheduledAt")
                                            (eventData !! "recurrence")
               else VNull]>
             (<["recurrence" := or_default (eventData !! "recurrence") VNull]>
                (<["priority" := or_default (eventData !! "priority") (VStr "medium")]>
                   (<["completedAt" := VNull]>
                      (<["isCompleted" := VBool false]>
                         (<["notes" := trimmed_or_empty (eventData !! "notes")]>
                            (<["description" := trimmed_or_empty (eventData !! "description")]>
                               (<["title" := trimmed_or_empty (eventData !! "title")]>
                                  (delete "_id" eventData))))))))))).

(** The identifier under which the store keeps a new document. *)
Definition inserted_id (this : call) (eventData : obj) : option string :=
  match eventData !! "_id" with
  | None => Some (randomId this)
  | Some (VStr i) => Some i
  | Some _ => None
  end.

(** A text property of the payload of an update, trimmed when it is set. *)
Definition set_trimmed (k : string) (updateData fields : obj) : obj :=
  match updateData !! k with
  | Some (VStr s) => if String.eqb s EmptyString then fields else <[k := VStr (trim s)]> fields
  | _ => fields
  end.

(** The properties that [updateEvent] sets on the event [existing]. *)
Definition updated_fields (h : Host) (this : call) (updateData existing : obj) : obj :=
  let fields := <["updatedAt" := VDate (Some (now this))]> updateData in
  let fields := set_trimmed "title" updateData fields in
  let fields := set_trimmed "description" updateData fields in
  let fields := set_trimmed "notes" updateData fields in
  if truthy (updateData !! "recurrence") || truthy (updateData !! "scheduledAt")
  then
    let newScheduledAt :=
      or_else (updateData !! "scheduledAt") (existing !! "scheduledAt") in
    let newRecurrence :=
      match updateData !! "recurrence" with
      | Some r => Some r
      | None => existing !! "recurrence"
      end in
    <["nextOccurrence" :=
        if truthy newRecurrence
        then calculateNextOccurrence h newScheduledAt newRecurrence
        else VNull]> fields
  else fields.

(** A text without a leading white space. *)
Definition starts_clean (s : string) : Prop :=
  match s with
  | EmptyString => True
  | String c _ => is_space c = false
  end.

(** *** Counting *)

(** What one document adds to a counter. *)
Definition indicator (b : bool) : Z := if b then 1 else 0.

(** *** Publications *)

(** A publication serves its subscriber: it hands out documents to a
    subscriber who is logged in only, and none but the subscriber's. *)
Definition serves (r : published) (this : call) : Prop :=
  match r with
  | Ready => True
  | Documents c =>
      authenticated this
      /\ forall doc, selects c doc = true -> doc !! "ownerId" = this_userId this
  end.

(** The factor that a string filter contributes. *)
Definition string_filter (filters doc : obj) (k : string) : bool :=
  if truthy (filters !! k) && is_string (filters !! k)
  then bool_decide (doc !! k = Some (default VNull (filters !! k)))
  else true.

(** The factor that the filters on the date contribute. *)
Definition date_filter (filters doc : obj) : bool :=
  if truthy (filters !! "dateFrom") || truthy (filters !! "dateTo") then
    (is_date (filters !! "dateFrom") || is_date (filters !! "dateTo"))
    && (if is_date (filters !! "dateFrom")
        then date_rel Z.geb (doc !! "scheduledAt") (time_of (filters !! "dateFrom"))
        else true)
    && (if is_date (filters !! "dateTo")
        then date_rel Z.leb (doc !! "scheduledAt") (time_of (filters !! "dateTo"))
        else true)
  else true.

(** *** The client *)

(** The comparison of two elements by a numeric key, and the order it
    sorts in. *)
Definition by_key {A} (key : A -> option Z) (a b : A) : option Z :=
  minus (key a) (key b).

Definition key_le {A} (key : A -> option Z) (a b : A) : Prop :=
  exists x y, key a = Some x /\ key b = Some y /\ x <= y.

(** The identifier of a document of the subscription. *)
Definition id_of (event : obj) : string :=
  match event !! "_id" with Some (VStr id) => id | _ => EmptyString end.

End Behaviour.

(** ** Further stores used by the examples *)

Module Examples.
Import Store.

(** A host on the clock of Paris in 2024: one hour ahead of UTC, and two
    hours from 2024-03-31T01:00Z to 2024-10-27T01:00Z.  The local hour from
    02:00 that the first change skips and the one that the second change
    repeats read with the offset from before the change. *)
Definition t_mar31_01 : Z := 1711846800000.
Definition t_oct27_01 : Z := 1729990800000.

Definition paris : Host :=
  {| LocalTZA := fun t isUTC =>
       if isUTC then
         if (t_mar31_01 <=? t) && (t <? t_oct27_01) then 7200000 else 3600000
       else
         if (t_mar31_01 + 7200000 <=? t) && (t <? t_oct27_01 + 7200000)
         then 7200000 else 3600000;
     StringToNumber := fun _ => None;
     DateParse := fun _ => None |}.

(** 2024-03-28T01:30Z, half past two in the morning in Paris. *)
Definition t_mar28 : Z := 1711589400000.

(** 2024-11-02T22:30Z, half past eleven at night in Paris, on the
    Saturday of the week in which the clocks went back. *)
Definition t_nov02 : Z := 1730586600000.

(** The daily feeding of [f1], completed. *)
Definition done_feeding : obj :=
  <["completedAt" := VDate (Some Scenario.t_call2)]>
    (<["isCompleted" := VBool true]> Scenario.daily_feeding).

(** A change of water that is due once. *)
Definition water_change : obj :=
  list_to_map
    [ ("type", VStr "water_change"); ("title", VStr "Change the water");
      ("description", VStr EmptyString); ("notes", VStr EmptyString);
      ("scheduledAt", VDate (Some Scenario.t_jan31));
      ("targetType", VStr "aquarium");
      ("isCompleted", VBool false); ("completedAt", VNull);
      ("priority", VStr "high"); ("recurrence", VNull);
      ("nextOccurrence", VNull);
      ("ownerId", VStr "alice");
      ("createdAt", VDate (Some Scenario.t_call1));
      ("updatedAt", VDate (Some Scenario.t_call1)) ].

(** Two events of alice: [e1] is completed, [e2] is not. *)
Definition two_events : state :=
  {| events := {[ "e1" := done_feeding; "e2" := water_change ]};
     fish := {[ "f1" := Scenario.nemo ]};
     journal := [] |}.

(** No event yet; alice owns the fish [f1] and bob the fish [f2]. *)
Definition dory : obj := {[ "name" := VStr "Dory"; "ownerId" := VStr "bob" ]}.

Definition two_owners : state :=
  {| events := ∅; fish := {[ "f1" := Scenario.nemo; "f2" := dory ]}; journal := [] |}.

(** The cleaning of the aquarium, in a payload that names the fish [f2];
    and the update that aims an event at a fish without naming one. *)
Definition cleaning_naming_f2 : obj :=
  <["fishId" := VStr "f2"]> Scenario.aquarium_with_fish.

Definition retarget_fish : obj := {[ "targetType" := VStr "fish" ]}.

End Examples.

(** * Properties *)

(** ** The calendar *)

Module CalendarFacts.
Import ESDate Spec.

Lemma YearFromDay_spec d :
  DayFromYear (YearFromDay d) <= d < DayFromYear (YearFromDay d + 1).
Proof.
  unfold YearFromDay.
  set (y0 := 1970 + 400 * d / 146097).
  assert (H0 : DayFromYear (y0 - 1) <= d < DayFromYear (y0 + 2)).
  { unfold DayFromYear, y0. Z.div_mod_to_equations; lia. }
  destruct (Z.ltb_spec d (DayFromYear y0)).
  - replace (y0 - 1 + 1) with y0 by lia. lia.
  - destruct (Z.leb_spec (DayFromYear (y0 + 1)) d).
    + replace (y0 + 1 + 1) with (y0 + 2) by lia. lia.
    + lia.
Qed.

Lemma DayFromYear_succ y : DayFromYear (y + 1) = DayFromYear y + DaysInYear y.
Proof.
  unfold DayFromYear, DaysInYear.
  destruct (Z.eqb_spec (y mod 4) 0); simpl;
  [destruct (Z.eqb_spec (y mod 100) 0); simpl;
   [destruct (Z.eqb_spec (y mod 400) 0); simpl|]|];
  Z.div_mod_to_equations; lia.
Qed.

Lemma DaysInYear_cases y : DaysInYear y = 365 \/ DaysInYear y = 366.
Proof.
  unfold DaysInYear. repeat case_match; auto.
Qed.

Lemma DayFromYear_mono y1 y2 : y1 <= y2 -> DayFromYear y1 <= DayFromYear y2.
Proof.
  intros H. unfold DayFromYear. Z.div_mod_to_equations. lia.
Qed.

Lemma YearFromDay_unique y d :
  DayFromYear y <= d < DayFromYear (y + 1) -> YearFromDay d = y.
Proof.
  intros H. pose proof (YearFromDay_spec d) as S.
  destruct (Z.lt_trichotomy (YearFromDay d) y) as [L|[E|G]]; [|done|].
  - pose proof (DayFromYear_mono (YearFromDay d + 1) y ltac:(lia)). lia.
  - pose proof (DayFromYear_mono (y + 1) (YearFromDay d) ltac:(lia)). lia.
Qed.

Lemma InLeapYear_cases y : InLeapYear y = 0 \/ InLeapYear y = 1.
Proof. unfold InLeapYear. destruct (DaysInYear_cases y); lia. Qed.

Lemma Day_MakeDate day tod : 0 <= tod < msPerDay -> Day (MakeDate day tod) = day.
Proof.
  intros H. unfold Day, MakeDate, msPerDay in *. Z.div_mod_to_equations. lia.
Qed.

Lemma TimeWithinDay_MakeDate day tod :
  0 <= tod < msPerDay -> TimeWithinDay (MakeDate day tod) = tod.
Proof.
  intros H. unfold TimeWithinDay, MakeDate, msPerDay in *. Z.div_mod_to_equations. lia.
Qed.

Lemma TimeWithinDay_range t : 0 <= TimeWithinDay t < msPerDay.
Proof. unfold TimeWithinDay, msPerDay. Z.div_mod_to_equations. lia. Qed.

Lemma MakeDate_Day t : MakeDate (Day t) (TimeWithinDay t) = t.
Proof. unfold MakeDate, Day, TimeWithinDay, msPerDay. Z.div_mod_to_equations. lia. Qed.

Lemma DayWithinYear_range t :
  0 <= DayWithinYear t < DaysInYear (YearFromTime t).
Proof.
  unfold DayWithinYear, YearFromTime.
  pose proof (YearFromDay_spec (Day t)) as S.
  rewrite DayFromYear_succ in S. lia.
Qed.

Lemma MonthFromDay_range leap dwy : 0 <= MonthFromDay leap dwy <= 11.
Proof. unfold MonthFromDay. repeat case_match; lia. Qed.

Lemma MonthFromTime_range t : 0 <= MonthFromTime t <= 11.
Proof. apply MonthFromDay_range. Qed.

Ltac month_cases m :=
  assert (m = 0 \/ m = 1 \/ m = 2 \/ m = 3 \/ m = 4 \/ m = 5 \/ m = 6 \/ m = 7
          \/ m = 8 \/ m = 9 \/ m = 10 \/ m = 11) as Hcases by lia;
  repeat (destruct Hcases as [-> | Hcases]); [..|subst m].

Lemma DaysInMonth_range y m : 0 <= m <= 11 -> 28 <= DaysInMonth y m <= 31.
Proof.
  intros H. unfold DaysInMonth. destruct (InLeapYear_cases y) as [-> | ->];
  month_cases m; simpl; lia.
Qed.

Lemma MonthFromDay_first leap m dt :
  (leap = 0 \/ leap = 1) -> 0 <= m <= 11 ->
  1 <= dt <= (if m =? 11 then 31
              else DaysBeforeMonth leap (m + 1) - DaysBeforeMonth leap m) ->
  MonthFromDay leap (DaysBeforeMonth leap m + dt - 1) = m.
Proof.
  intros [-> | ->] Hm; month_cases m; simpl; intros Hd; unfold MonthFromDay;
    repeat (case_match; try lia); lia.
Qed.

Lemma MakeDay_in_month y m dt :
  0 <= m <= 11 -> MakeDay y m dt = DayFromYear y + DaysBeforeMonth (InLeapYear y) m + dt - 1.
Proof.
  intros H. unfold MakeDay.
  replace (m / 12) with 0 by (Z.div_mod_to_equations; lia).
  replace (m mod 12) with m by (Z.div_mod_to_equations; lia).
  by rewrite Z.add_0_r.
Qed.

Lemma MakeDay_carry y m dt :
  0 <= m <= 11 ->
  MakeDay y (m + 1) dt = MakeDay (next_month y m).1 (next_month y m).2 dt.
Proof.
  intros H. unfold next_month. simpl.
  rewrite (MakeDay_in_month _ ((m + 1) mod 12)) by (Z.div_mod_to_equations; lia).
  reflexivity.
Qed.

Lemma DaysBeforeMonth_year_end y :
  DaysBeforeMonth (InLeapYear y) 11 + 31 = DaysInYear y.
Proof. unfold InLeapYear. simpl. lia. Qed.

Lemma civil_MakeDay y m dt tod :
  0 <= m <= 11 -> 1 <= dt <= DaysInMonth y m -> 0 <= tod < msPerDay ->
  civil (MakeDate (MakeDay y m dt) tod) = (y, m, dt, tod).
Proof.
  intros Hm Hd Ht. rewrite MakeDay_in_month by done.
  set (d := DayFromYear y + DaysBeforeMonth (InLeapYear y) m + dt - 1).
  assert (Hy : YearFromDay d = y).
  { apply YearFromDay_unique. rewrite DayFromYear_succ.
    pose proof (DaysBeforeMonth_year_end y) as E.
    unfold d. unfold DaysInMonth in Hd.
    destruct (InLeapYear_cases y) as [L | L]; rewrite L in *;
      month_cases m; simpl in *; lia. }
  unfold civil, DateFromTime, MonthFromTime, DayWithinYear, YearFromTime.
  rewrite Day_MakeDate, TimeWithinDay_MakeDate, Hy by done.
  assert (Hm' : MonthFromDay (InLeapYear y) (d - DayFromYear y) = m).
  { unfold d.
    replace (DayFromYear y + DaysBeforeMonth (InLeapYear y) m + dt - 1 - DayFromYear y)
      with (DaysBeforeMonth (InLeapYear y) m + dt - 1) by lia.
    apply MonthFromDay_first; [apply InLeapYear_cases | done | done]. }
  rewrite !Hm'. unfold d. do 2 f_equal. lia.
Qed.

Lemma DateFromTime_range t :
  1 <= DateFromTime t <= DaysInMonth (YearFromTime t) (MonthFromTime t).
Proof.
  unfold DateFromTime, MonthFromTime, DaysInMonth.
  pose proof (DayWithinYear_range t) as R. unfold InLeapYear in *.
  set (dwy := DayWithinYear t) in *. set (n := DaysInYear (YearFromTime t)) in *.
  destruct (DaysInYear_cases (YearFromTime t)) as [E | E]; fold n in E; rewrite E in *;
    unfold MonthFromDay; repeat (case_match; try lia); simpl; lia.
Qed.

(** The first of the month after [(y, m)] follows the last day of [(y, m)]. *)
Lemma MakeDay_overflow y m k :
  0 <= m <= 11 ->
  MakeDay y m (DaysInMonth y m + k) = MakeDay (next_month y m).1 (next_month y m).2 k.
Proof.
  intros Hm. unfold next_month; simpl.
  rewrite MakeDay_in_month by done.
  rewrite (MakeDay_in_month _ ((m + 1) mod 12)) by (Z.div_mod_to_equations; lia).
  destruct (Z.eq_dec m 11) as [-> | Hne].
  - change ((11 + 1) / 12) with 1. change ((11 + 1) mod 12) with 0.
    rewrite DayFromYear_succ. pose proof (DaysBeforeMonth_year_end y).
    unfold DaysInMonth. simpl. simpl in H. lia.
  - replace ((m + 1) / 12) with 0 by (Z.div_mod_to_equations; lia).
    replace ((m + 1) mod 12) with (m + 1) by (Z.div_mod_to_equations; lia).
    rewrite Z.add_0_r. unfold DaysInMonth.
    destruct (Z.eqb_spec m 11); [lia|]. lia.
Qed.


Lemma next_month_range y m : 0 <= (next_month y m).2 <= 11.
Proof. unfold next_month; simpl. Z.div_mod_to_equations. lia. Qed.

Lemma MakeDay_shift t k :
  MakeDay (YearFromTime t) (MonthFromTime t) (DateFromTime t + k) = Day t + k.
Proof.
  rewrite MakeDay_in_month by apply MonthFromTime_range.
  unfold DateFromTime, DayWithinYear. lia.
Qed.

(** [setDate] moves the local time by whole days. *)
Lemma setDate_shift h t k :
  setDate h (Some t) ((fun d => d + k) <$> getDate h (Some t))
  = TimeClip (UTC h (LocalTime h t + k * msPerDay)).
Proof.
  simpl. rewrite MakeDay_shift. do 2 f_equal.
  set (l := LocalTime h t).
  pose proof (MakeDate_Day l) as E. unfold MakeDate in *. lia.
Qed.

(** Without clock changes a local time goes back to the instant it came
    from, moved as it was moved. *)
Lemma UTC_LocalTime_fixed h tza t x :
  fixed_offset h tza -> UTC h (LocalTime h t + x) = t + x.
Proof. intros Hf. unfold UTC, LocalTime. rewrite !Hf. lia. Qed.

Lemma LocalTime_UTC_fixed h tza l :
  fixed_offset h tza -> LocalTime h (UTC h l) = l.
Proof. intros Hf. unfold UTC, LocalTime. rewrite !Hf. lia. Qed.

Lemma setMonth_next h t :
  exists l',
    setMonth h (Some t) ((fun m => m + 1) <$> getMonth h (Some t)) = TimeClip (UTC h l')
    /\ civil l' = one_month_later (civil (LocalTime h t)).
Proof.
  exists (MakeDate (MakeDay (YearFromTime (LocalTime h t))
                            (MonthFromTime (LocalTime h t) + 1)
                            (DateFromTime (LocalTime h t)))
                   (TimeWithinDay (LocalTime h t))).
  split; [reflexivity|].
  set (l := LocalTime h t). clearbody l.
  unfold one_month_later, civil at 2.
  set (n1 := next_month (YearFromTime l) (MonthFromTime l)).
  set (n2 := next_month n1.1 n1.2).
  pose proof (MonthFromTime_range l) as Hm.
  pose proof (next_month_range (YearFromTime l) (MonthFromTime l)) as Hm1.
  pose proof (next_month_range n1.1 n1.2) as Hm2.
  fold n1 in Hm1. fold n2 in Hm2.
  pose proof (DateFromTime_range l) as Hd.
  pose proof (DaysInMonth_range (YearFromTime l) (MonthFromTime l) Hm) as R0.
  pose proof (DaysInMonth_range n1.1 n1.2 Hm1) as R1.
  pose proof (DaysInMonth_range n2.1 n2.2 Hm2) as R2.
  pose proof (TimeWithinDay_range l) as Ht.
  rewrite (MakeDay_carry _ (MonthFromTime l)) by exact Hm. fold n1.
  destruct (Z.leb_spec (DateFromTime l) (DaysInMonth n1.1 n1.2)) as [Hle | Hgt].
  - apply civil_MakeDay; lia.
  - replace (DateFromTime l)
      with (DaysInMonth n1.1 n1.2 + (DateFromTime l - DaysInMonth n1.1 n1.2)) at 1 by lia.
    rewrite MakeDay_overflow by exact Hm1. fold n2.
    apply civil_MakeDay; lia.
Qed.

End CalendarFacts.

(** ** Double-precision rounding keeps representable bounds *)

Module DoubleFacts.
Import Double EventsMethods.

Lemma rne_nonneg num den : 0 < den -> 0 <= num -> 0 <= rne num den.
Proof.
  intros Hd Hn. unfold rne.
  assert (0 <= num / den) by (apply Z.div_pos; lia).
  repeat case_match; lia.
Qed.

Lemma rne_le num den k : 0 < den -> num <= k * den -> rne num den <= k.
Proof.
  intros Hd Hn. unfold rne.
  pose proof (Z.div_mod num den ltac:(lia)) as E.
  pose proof (Z.mod_pos_bound num den Hd) as R.
  set (f := num / den) in *. set (r := num mod den) in *.
  assert (f <= k) by nia.
  destruct (Z.ltb_spec (2 * r) den); [done|].
  assert (f < k) by nia.
  repeat case_match; lia.
Qed.

Lemma exponent_nonpos n d B :
  0 < n -> 0 < d -> B < 2 ^ 53 -> n <= B * d -> exponent n d <= 0.
Proof.
  intros Hn Hd HB Hle. unfold exponent.
  set (e0 := Z.log2 n - Z.log2 d - 53).
  assert (Hlt : n < 2 ^ 53 * d) by nia.
  apply Z.max_lub; [lia|].
  destruct (Z.leb_spec (2 ^ 53 * scaled_den d e0) (scaled_num n e0)) as [Hc | Hc].
  - (* the quotient reaches 2^53 at e0 *)
    destruct (Z.le_gt_cases 0 e0) as [Hpos | Hneg]; [|lia].
    exfalso. unfold scaled_den, scaled_num in Hc.
    rewrite (Z.max_r 0 e0), (Z.max_l 0 (- e0)) in Hc by lia.
    pose proof (Z.pow_pos_nonneg 2 e0 ltac:(lia) Hpos).
    change (2 ^ 0) with 1 in Hc. nia.
  - destruct (Z.le_gt_cases e0 0) as [Hle0 | Hgt0]; [done|].
    exfalso.
    pose proof (Z.log2_spec n Hn) as [Ln _].
    pose proof (Z.log2_spec d Hd) as [_ Ld].
    pose proof (Z.log2_nonneg d) as Hld.
    assert (E : Z.log2 n = Z.log2 d + (53 + e0)) by (unfold e0; lia).
    rewrite E, Z.pow_add_r in Ln by lia.
    replace (Z.succ (Z.log2 d)) with (Z.log2 d + 1) in Ld by lia.
    rewrite Z.pow_add_r in Ld by lia. change (2 ^ 1) with 2 in Ld.
    pose proof (Z.pow_pos_nonneg 2 (Z.log2 d) ltac:(lia) Hld).
    assert (2 ^ 53 * 2 <= 2 ^ (53 + e0)).
    { rewrite Z.pow_add_r by lia.
      assert (2 ^ 1 <= 2 ^ e0) by (apply Z.pow_le_mono_r; lia).
      change (2 ^ 1) with 2 in *. nia. }
    nia.
Qed.

Lemma round_pos_range n d B :
  0 < n -> 0 < d -> 0 <= B < 2 ^ 53 -> n <= B * d ->
  (0 <= round_pos n d <= inject_Z B)%Q.
Proof.
  intros Hn Hd HB Hle.
  pose proof (exponent_nonpos n d B Hn Hd ltac:(lia) Hle) as He.
  unfold round_pos. set (e := exponent n d) in *.
  assert (Hp : 0 < 2 ^ (- e)) by (apply Z.pow_pos_nonneg; lia).
  unfold scaled_num, scaled_den.
  rewrite (Z.max_l 0 e), (Z.max_r 0 (- e)) by lia.
  change (2 ^ 0) with 1. rewrite !Z.mul_1_r.
  pose proof (rne_nonneg (n * 2 ^ (- e)) d Hd ltac:(nia)) as Hlo.
  pose proof (rne_le (n * 2 ^ (- e)) d (B * 2 ^ (- e)) Hd ltac:(nia)) as Hhi.
  unfold Qle; simpl. rewrite Z2Pos.id by done. lia.
Qed.

Lemma round_range q B :
  (0 <= q)%Q -> (q <= inject_Z B)%Q -> 0 <= B < 2 ^ 53 ->
  (0 <= round q <= inject_Z B)%Q.
Proof.
  intros Hlo Hhi HB. unfold round.
  destruct q as [num den]. unfold Qle in Hlo, Hhi; simpl in *.
  destruct num as [|n|n]; simpl.
  - unfold Qle; simpl; lia.
  - apply round_pos_range; lia.
  - lia.
Qed.

Lemma ratio_range c t :
  0 <= c <= t -> 0 < t -> (0 <= inject_Z c / inject_Z t <= 1)%Q.
Proof.
  intros Hc Ht. destruct t as [|p|p]; try lia.
  unfold Qle, Qdiv, Qmult, Qinv, inject_Z; simpl. lia.
Qed.

Lemma Math_round_range x B :
  (0 <= x <= inject_Z B)%Q -> 0 <= Math_round x <= B.
Proof.
  intros [Hlo Hhi]. unfold Math_round. split.
  - change 0 with (Qfloor 0). apply Qfloor_resp_le.
    apply Qle_trans with x; [done|].
    rewrite <- (Qplus_0_r x) at 1. apply Qplus_le_r. done.
  - assert (E : Qfloor (inject_Z B + (1 # 2)) = B).
    { unfold Qfloor, Qplus, inject_Z; simpl. Z.div_mod_to_equations. lia. }
    etransitivity; [|apply Z.eq_le_incl, E].
    apply Qfloor_resp_le. apply Qplus_le_l. done.
Qed.


(** On every ratio of counts up to a hundred events the rounding of the
    model is the rounding of the kernel's binary64 arithmetic. *)
Lemma percent_agrees_with_binary64 :
  forallb agrees_with_binary64 (ratios 100) = true.
Proof. vm_compute. reflexivity. Qed.

Lemma completion_rate_range c t :
  0 <= c <= t -> 0 <= completion_rate c t <= 100.
Proof.
  intros Hc. unfold completion_rate.
  destruct (Z.ltb_spec 0 t) as [Ht | Ht]; [|lia].
  apply Math_round_range. unfold mul, div.
  pose proof (ratio_range c t Hc Ht) as [R0 R1].
  pose proof (round_range _ 1 R0 R1 ltac:(lia)) as [D0 D1].
  set (x := round (inject_Z c / inject_Z t)) in *.
  apply round_range; [| |lia].
  - apply Qmult_le_0_compat; done.
  - change (inject_Z 100) with (1 * 100)%Q.
    apply Qmult_le_compat_r; done.
Qed.

End DoubleFacts.

(** ** Validation: the source reports exactly the violated rules *)

Module ValidationFacts.
Import EventsCollection Spec.

Lemma push_if_seg c msg e : push_if c msg e = e ++ seg c msg.
Proof. destruct c; simpl; by rewrite ?app_nil_r. Qed.

Lemma includes_truthy names v :
  forallb (fun s => negb (String.eqb s EmptyString)) names = true ->
  includes names v = true -> truthy v = true.
Proof.
  intros Hn Hi. unfold includes in Hi. apply existsb_exists in Hi as (s & Hs & E).
  rewrite forallb_forall in Hn. specialize (Hn s Hs).
  destruct v as [[| | |x|]|]; simpl in E; try discriminate.
  apply String.eqb_eq in E as ->. done.
Qed.

Lemma membership_rule names v :
  forallb (fun s => negb (String.eqb s EmptyString)) names = true ->
  negb (truthy v) || negb (includes names v) = negb (includes names v).
Proof.
  intros Hn. destruct (includes names v) eqn:E; simpl.
  - by rewrite (includes_truthy _ _ Hn E).
  - by rewrite orb_true_r.
Qed.

Lemma nonempty_string_spec v : nonempty_string v = truthy v && is_string v.
Proof. destruct v as [[| | | |]|]; simpl; by rewrite ?andb_false_r, ?andb_true_r. Qed.

Lemma check_targetType_seg d e :
  check_targetType d e = e ++ seg (negb (includes validTargetTypes (d !! "targetType"))) msg_targetType.
Proof. unfold check_targetType. by rewrite push_if_seg, membership_rule. Qed.

Lemma check_fishId_seg d e :
  check_fishId d e
  = e ++ seg (is_lit (d !! "targetType") "fish" && negb (nonempty_string (d !! "fishId")))
             msg_fishId.
Proof.
  unfold check_fishId. rewrite nonempty_string_spec.
  destruct (is_lit _ "fish"); simpl; [|by rewrite app_nil_r].
  rewrite push_if_seg. by rewrite negb_andb.
Qed.

Lemma check_type_seg d e :
  check_type d e = e ++ seg (negb (includes EVENT_TYPES (d !! "type"))) msg_type.
Proof. unfold check_type. by rewrite push_if_seg, membership_rule. Qed.

Lemma check_title_seg d e :
  check_title d e
  = e ++ seg (negb (nonempty_string (d !! "title"))) msg_title_required
      ++ seg (nonempty_string (d !! "title") && (trimmed_length_of (d !! "title") <? 2))
             msg_title_short
      ++ seg (nonempty_string (d !! "title") && (100 <? trimmed_length_of (d !! "title")))
             msg_title_long.
Proof.
  unfold check_title. rewrite nonempty_string_spec, <- negb_andb.
  destruct (truthy _ && is_string _); simpl; [|done].
  destruct (Z.ltb_spec (trimmed_length_of (d !! "title")) 2);
    destruct (Z.ltb_spec 100 (trimmed_length_of (d !! "title")));
    simpl; rewrite ?app_nil_r; try done; lia.
Qed.

Lemma check_scheduledAt_seg h d e :
  check_scheduledAt h d e
  = e ++ seg (negb (is_date (d !! "scheduledAt"))) msg_scheduledAt_required
      ++ seg (is_date (d !! "scheduledAt")
              && JS.lt h (d !! "scheduledAt") (Some (VDate (Some date_2020_01_01))))
             msg_scheduledAt_2020.
Proof.
  unfold check_scheduledAt.
  destruct (d !! "scheduledAt") as [[| | | |tv]|];
    cbn [truthy is_date negb orb andb seg]; rewrite ?orb_true_r; try done.
  destruct (JS.lt h _ _); simpl; by rewrite ?app_nil_r.
Qed.

Lemma check_recurrence_seg d e :
  check_recurrence d e
  = e ++ seg (truthy (d !! "recurrence")
              && negb (includes EVENT_RECURRENCES (d !! "recurrence"))) msg_recurrence.
Proof.
  unfold check_recurrence. destruct (truthy _); simpl; [|by rewrite app_nil_r].
  by rewrite push_if_seg.
Qed.

Lemma check_description_seg d e :
  check_description d e
  = e ++ seg (nonempty_string (d !! "description") && (500 <? length_of (d !! "description")))
             msg_description.
Proof. unfold check_description. by rewrite push_if_seg, nonempty_string_spec. Qed.

Lemma check_notes_seg d e :
  check_notes d e
  = e ++ seg (nonempty_string (d !! "notes") && (500 <? length_of (d !! "notes")))
             msg_notes.
Proof. unfold check_notes. by rewrite push_if_seg, nonempty_string_spec. Qed.

Lemma check_completedAt_seg h d e :
  check_completedAt h d e
  = e ++ seg (truthy (d !! "completedAt") && truthy (d !! "scheduledAt")
              && JS.lt h (d !! "completedAt") (d !! "scheduledAt")) msg_completedAt.
Proof.
  unfold check_completedAt. destruct (truthy _ && truthy _); simpl; [|by rewrite app_nil_r].
  by rewrite push_if_seg.
Qed.

Lemma violations_cons h d r rs :
  message <$> List.filter (fun r => violated r h d) (r :: rs)
  = seg (violated r h d) (message r) ++ (message <$> List.filter (fun r => violated r h d) rs).
Proof. simpl. by destruct (violated r h d). Qed.

Lemma validateEventData_errors h d : errors (validateEventData h d) = violations h d.
Proof.
  unfold validateEventData. cbv zeta. cbn [errors].
  rewrite check_completedAt_seg, check_notes_seg, check_description_seg,
    check_recurrence_seg, check_scheduledAt_seg, check_title_seg, check_type_seg,
    check_fishId_seg, check_targetType_seg.
  unfold check_priority, check_coherence. rewrite !push_if_seg.
  unfold violations, messages, enforced, rule_list. rewrite !violations_cons.
  cbn [violated message List.filter fmap list_fmap app].
  rewrite <- !app_assoc. by rewrite app_nil_r.
Qed.

Lemma validateEventData_isValid h d :
  isValid (validateEventData h d) = forallb (fun r => negb (violated r h d)) enforced.
Proof.
  change (isValid (validateEventData h d))
    with (Nat.eqb (List.length (errors (validateEventData h d))) 0).
  rewrite validateEventData_errors. unfold violations, messages.
  induction enforced as [|r rs IH]; [done|].
  simpl. destruct (violated r h d); simpl; done.
Qed.

End ValidationFacts.

(** ** The methods on the store *)

Module MethodFacts.
Import Store EventsCollection EventsMethods ESDate Spec.

Lemma strict_eq_str v s : strict_eq v (Some (VStr s)) = true <-> v = Some (VStr s).
Proof.
  destruct v as [[| | |x|]|]; simpl; split; try done.
  - by intros ->%String.eqb_eq.
  - intros [= ->]. apply String.eqb_refl.
Qed.

Lemma authenticated_truthy this :
  authenticated this -> truthy (this_userId this) = true.
Proof.
  intros (u & E & Hu). unfold this_userId. rewrite E. simpl.
  destruct (String.eqb_spec u EmptyString); done.
Qed.

Lemma authenticated_userId this u :
  userId this = Some u -> this_userId this = Some (VStr u).
Proof. unfold this_userId. by intros ->. Qed.

Lemma lookup_owned_Some coll i owner d :
  lookup_owned coll (Some (VStr i)) owner = Some d <->
  exists props, coll !! i = Some props
                /\ strict_eq (props !! "ownerId") owner = true
                /\ d = document i props.
Proof.
  unfold lookup_owned. destruct (coll !! i) as [props|].
  - destruct (strict_eq _ owner) eqn:E; split.
    + intros [= <-]. by exists props.
    + by intros (p & [= <-] & _ & ->).
    + done.
    + intros (p & [= <-] & F & _). congruence.
  - split; [done|]. by intros (p & F & _).
Qed.

Lemma lookup_owned_None_str coll i u :
  lookup_owned coll (Some (VStr i)) (Some (VStr u)) = None <->
  forall props, coll !! i = Some props -> props !! "ownerId" <> Some (VStr u).
Proof.
  unfold lookup_owned. destruct (coll !! i) as [props|]; [|done].
  destruct (strict_eq _ _) eqn:E.
  - apply strict_eq_str in E. split; [done|]. intros H. by destruct (H props).
  - split; [|done]. intros _ p [= <-] F. apply strict_eq_str in F. congruence.
Qed.

Lemma document_lookup_ne i props k :
  k <> "_id"%string -> document i props !! k = props !! k.
Proof. intros H. unfold document. by rewrite lookup_insert_ne. Qed.

(** *** Not found, already completed *)

Lemma updateEvent_not_found h this id payload st :
  authenticated this -> own_event st this id = None ->
  updateEvent h this id payload st = (Throw event_not_found, st).
Proof.
  intros Ha Hn. unfold updateEvent. rewrite (authenticated_truthy _ Ha). simpl.
  unfold try_catch, bind, EventsCollection_findOneAsync.
  unfold own_event in Hn. by rewrite Hn.
Qed.

Lemma deleteEvent_not_found this id st :
  authenticated this -> own_event st this id = None ->
  deleteEvent this id st = (Throw event_not_found, st).
Proof.
  intros Ha Hn. unfold deleteEvent. rewrite (authenticated_truthy _ Ha). simpl.
  unfold try_catch, bind, EventsCollection_findOneAsync.
  unfold own_event in Hn. by rewrite Hn.
Qed.

Lemma completeEvent_not_found h this id notes st :
  authenticated this -> own_event st this id = None ->
  completeEvent h this id notes st = (Throw event_not_found, st).
Proof.
  intros Ha Hn. unfold completeEvent. rewrite (authenticated_truthy _ Ha). simpl.
  unfold try_catch, bind, EventsCollection_findOneAsync.
  unfold own_event in Hn. by rewrite Hn.
Qed.

Lemma completeEvent_already_completed h this id notes st ev :
  authenticated this -> own_event st this id = Some ev ->
  truthy (ev !! "isCompleted") = true ->
  completeEvent h this id notes st = (Throw already_completed, st).
Proof.
  intros Ha Hs Hc. unfold completeEvent. rewrite (authenticated_truthy _ Ha). simpl.
  unfold try_catch, bind, EventsCollection_findOneAsync.
  unfold own_event in Hs. by rewrite Hs, Hc.
Qed.

Lemma deleteEvent_deletes this id st st' b :
  deleteEvent this id st = (Return b, st') ->
  events st' = delete id (events st).
Proof.
  unfold deleteEvent. destruct (truthy _); simpl; [|done].
  unfold try_catch, bind, EventsCollection_findOneAsync, EventsCollection_removeAsync.
  destruct (lookup_owned _ _ _) as [d|] eqn:E; simpl; [|done].
  destruct (events st !! id) eqn:E'; simpl.
  - by intros [= _ <-].
  - intros [= _ <-]. by rewrite delete_id.
Qed.

(** *** What an object literal sends and stores *)

Lemma defined_insert_Some (o : literal) k v :
  defined (<[k := Some v]> o) = <[k := v]> (defined o).
Proof. unfold defined. by apply omap_insert_Some. Qed.

Lemma defined_insert_None (o : literal) k :
  defined (<[k := None]> o) = delete k (defined o).
Proof. unfold defined. by apply omap_insert_None. Qed.

Lemma defined_delete (o : literal) k : defined (delete k o) = delete k (defined o).
Proof. unfold defined. apply omap_delete. Qed.

Lemma defined_fmap (m : obj) : defined (Some <$> m) = m.
Proof.
  unfold defined. apply map_eq. intros k.
  rewrite lookup_omap, lookup_fmap. by destruct (m !! k).
Qed.

Lemma defined_empty : defined ∅ = ∅.
Proof. apply omap_empty. Qed.

Lemma defined_insert_userId (o : literal) k this :
  defined (<[k := this_userId this]> o) = <[k := default VNull (this_userId this)]> (defined o).
Proof. apply defined_insert_Some. Qed.

(** What is stored of a literal whose properties are known. *)
Ltac stored :=
  repeat first [ rewrite defined_delete | rewrite defined_insert_Some
               | rewrite defined_insert_None | rewrite defined_insert_userId
               | rewrite defined_fmap | rewrite defined_empty ].

Lemma delete_document i props : delete "_id" (document i props) = delete "_id" props.
Proof. unfold document. apply delete_insert_eq. Qed.

(** *** Completing a recurring event *)

(** The object literal of the next occurrence, as the source writes it. *)
Local Abbreviation nextEventData_of h this event :=
  (assign event
    [ undefined "_id";
      ("scheduledAt", event !! "nextOccurrence");
      prop "nextOccurrence"
        (calculateNextOccurrence h (event !! "nextOccurrence") (event !! "recurrence"));
      prop "isCompleted" (VBool false);
      prop "completedAt" VNull;
      prop "notes" (VStr EmptyString);
      prop "createdAt" (new_Date this);
      prop "updatedAt" (new_Date this) ]).

(** The literal has the property [_id], and it holds [undefined]. *)
Lemma nextEventData_has_id h this event :
  nextEventData_of h this event !! "_id" = Some None.
Proof.
  cbn [assign foldl prop undefined fst snd].
  rewrite !lookup_insert_ne by done. apply lookup_insert_eq.
Qed.

(** So that the store refuses it, whatever it holds. *)
Lemma insertAsync_nextEventData h this c event st :
  EventsCollection_insertAsync c (nextEventData_of h this event) st = (Throw Failure, st).
Proof.
  unfold EventsCollection_insertAsync. by rewrite nextEventData_has_id.
Qed.

Lemma completeEvent_recurring h this id notes st ev :
  authenticated this -> own_event st this id = Some ev ->
  truthy (ev !! "isCompleted") = false ->
  truthy (ev !! "recurrence") && truthy (ev !! "nextOccurrence") = true ->
  completeEvent h this id notes st = (Throw Behaviour.complete_failed, st).
Proof.
  intros Ha Hs Hc Hr. unfold completeEvent. rewrite (authenticated_truthy _ Ha).
  cbn [negb]. unfold try_catch, bind at 1, EventsCollection_findOneAsync.
  unfold own_event in Hs. rewrite Hs. cbv beta iota. rewrite Hc, Hr.
  unfold bind. by rewrite insertAsync_nextEventData.
Qed.

(** *** Inversion of computations that return *)

Lemma bind_inv {A B} (m : M A) (k : A -> M B) st b st' :
  bind m k st = (Return b, st') ->
  exists a st1, m st = (Return a, st1) /\ k a st1 = (Return b, st').
Proof.
  unfold bind. destruct (m st) as [[a|e] st1]; [eauto|done].
Qed.

Lemma try_catch_inv {A} (m : M A) code reason st a st' :
  try_catch m code reason st = (Return a, st') -> m st = (Return a, st').
Proof.
  unfold try_catch. destruct (m st) as [[x|[]] st1]; congruence.
Qed.

Lemma check_inv ok st u st' :
  check ok st = (Return u, st') -> ok = true /\ st' = st.
Proof. destruct ok; simpl; [|done]. by intros [= _ <-]. Qed.

Lemma trim_call_inv v st x st' :
  trim_call v st = (Return x, st') ->
  exists s, v = Some (VStr s) /\ x = VStr (trim s) /\ st' = st.
Proof.
  destruct v as [[| | |s|]|]; simpl; try done. intros [= <- <-]. eauto.
Qed.

Lemma trimmed_inv v st x st' :
  (if truthy v then trim_call v else ret (VStr EmptyString)) st = (Return x, st') ->
  x = trimmed_or_empty v /\ st' = st.
Proof.
  destruct (truthy v) eqn:T.
  - intros (s & -> & -> & ->)%trim_call_inv. done.
  - intros [= <- <-]. split; [|done].
    destruct v as [[| | |s|]|]; simpl in *; try done.
    destruct (String.eqb_spec s EmptyString) as [->|]; done.
Qed.

Lemma insertAsync_inv this doc st id st' :
  EventsCollection_insertAsync this doc st = (Return id, st') ->
  events st !! id = None
  /\ st' = {| events := <[id := defined (delete "_id" doc)]> (events st);
              fish := fish st;
              journal := journal st ++ [Inserted id (defined (delete "_id" doc))] |}
  /\ (doc !! "_id" = None -> id = randomId this).
Proof.
  unfold EventsCollection_insertAsync.
  destruct (doc !! "_id") as [[[| | |i|]|]|] eqn:E; try done.
  - destruct (String.eqb i EmptyString); [done|].
    destruct (events st !! i) eqn:F; [done|]. intros [= <- <-]. done.
  - destruct (events st !! randomId this) eqn:F; [done|]. intros [= <- <-]. done.
Qed.

Lemma includes_recurrence_next h anchor r :
  includes EVENT_RECURRENCES r = true ->
  exists tv, calculateNextOccurrence h anchor r = VDate tv.
Proof.
  unfold includes, EVENT_RECURRENCES, calculateNextOccurrence. simpl.
  destruct (is_lit r "daily"); [eauto|].
  destruct (is_lit r "weekly"); [eauto|].
  destruct (is_lit r "monthly"); [eauto|done].
Qed.

(** *** Counting queries *)

Lemma filter_length_ext {A} (p q : A -> bool) l :
  (forall x, In x l -> p x = q x) ->
  List.length (List.filter p l) = List.length (List.filter q l).
Proof.
  induction l as [|x l IH]; [done|]. intros H. simpl.
  rewrite <- (H x) by (by left).
  destruct (p x); simpl; rewrite IH; auto using in_cons.
Qed.

Lemma filter_length_le {A} (p q : A -> bool) l :
  (forall x, In x l -> p x = true -> q x = true) ->
  (List.length (List.filter p l) <= List.length (List.filter q l))%nat.
Proof.
  induction l as [|x l IH]; [done|]. intros H. simpl.
  specialize (IH (fun y Hy => H y (in_cons _ _ _ Hy))).
  destruct (p x) eqn:P.
  - rewrite (H x) by (done || by left). simpl. lia.
  - destruct (q x); simpl; lia.
Qed.

Lemma filter_length_split {A} (p q r : A -> bool) l :
  (forall x, In x l -> r x = p x || q x) ->
  (forall x, In x l -> p x && q x = false) ->
  (List.length (List.filter p l) + List.length (List.filter q l)
   = List.length (List.filter r l))%nat.
Proof.
  induction l as [|x l IH]; [done|]. intros Hr Hd. simpl.
  specialize (IH (fun y Hy => Hr y (in_cons _ _ _ Hy))
                 (fun y Hy => Hd y (in_cons _ _ _ Hy))).
  pose proof (Hr x (in_eq _ _)) as Er. pose proof (Hd x (in_eq _ _)) as Ed.
  destruct (p x), (q x); simpl in *; try done; rewrite Er; simpl; lia.
Qed.

Lemma In_map_to_list (coll : gmap string obj) kv :
  In kv (map_to_list coll) -> coll !! kv.1 = Some kv.2.
Proof.
  destruct kv as [i x]. rewrite <- list_elem_of_In. apply elem_of_map_to_list.
Qed.

Lemma count_where_ext p q (coll : gmap string obj) :
  (forall i props, coll !! i = Some props ->
                   p (document i props) = q (document i props)) ->
  count_where p coll = count_where q coll.
Proof.
  intros H. unfold count_where. f_equal. apply filter_length_ext.
  intros kv Hkv. apply H. by apply In_map_to_list.
Qed.

Lemma count_where_le p q (coll : gmap string obj) :
  (forall i props, coll !! i = Some props ->
                   p (document i props) = true -> q (document i props) = true) ->
  count_where p coll <= count_where q coll.
Proof.
  intros H. unfold count_where. apply inj_le, filter_length_le.
  intros kv Hkv. apply H. by apply In_map_to_list.
Qed.

Lemma count_where_split p q r (coll : gmap string obj) :
  (forall i props, coll !! i = Some props ->
     r (document i props) = p (document i props) || q (document i props)) ->
  (forall i props, coll !! i = Some props ->
     p (document i props) && q (document i props) = false) ->
  count_where p coll + count_where q coll = count_where r coll.
Proof.
  intros Hr Hd. unfold count_where. rewrite <- Nat2Z.inj_add. f_equal.
  apply filter_length_split; intros kv Hkv.
  - apply Hr. by apply In_map_to_list.
  - apply Hd. by apply In_map_to_list.
Qed.

Lemma count_where_nonneg p (coll : gmap string obj) : 0 <= count_where p coll.
Proof. unfold count_where. lia. Qed.


Lemma matches_owner u d :
  matches [("ownerId", Is (VStr u))] d = owned_by u d.
Proof. unfold matches, owned_by. simpl. by rewrite andb_true_r. Qed.

Lemma matches_owner_completed u b d :
  matches [("ownerId", Is (VStr u)); ("isCompleted", Is (VBool b))] d
  = owned_by u d && completed_is b d.
Proof. unfold matches, owned_by, completed_is. simpl. by rewrite andb_true_r. Qed.

Lemma matches_overdue u now d :
  matches [("ownerId", Is (VStr u)); ("isCompleted", Is (VBool false));
           ("scheduledAt", Before (Some now))] d
  = owned_by u d && completed_is false d && scheduled_before now d.
Proof.
  unfold matches, owned_by, completed_is, scheduled_before. simpl.
  rewrite andb_true_r, andb_assoc.
  f_equal; by destruct (d !! "scheduledAt") as [[| | | |[t|]]|].
Qed.

Lemma date_window h now v :
  TimeClip (startOfDay h now) = Some (startOfDay h now) ->
  TimeClip (endOfDay h now) = Some (endOfDay h now) ->
  holds (NotBefore (setHours h (Some now) 0 0 0 0)) v
  && holds (NotAfter (setHours h (Some now) 23 59 59 999)) v
  = match v with
    | Some (VDate (Some t)) => (startOfDay h now <=? t) && (t <=? endOfDay h now)
    | _ => false
    end.
Proof.
  intros Hs He.
  assert (E1 : setHours h (Some now) 0 0 0 0 = Some (startOfDay h now)).
  { rewrite <- Hs. unfold setHours, startOfDay, MakeDate, MakeTime.
    do 2 f_equal; lia. }
  assert (E2 : setHours h (Some now) 23 59 59 999 = Some (endOfDay h now)).
  { rewrite <- He. unfold setHours, endOfDay, MakeDate, MakeTime, msPerDay.
    do 2 f_equal; lia. }
  rewrite E1, E2. destruct v as [[| | | |[t|]]|]; try done. simpl.
  f_equal. apply Z.geb_leb.
Qed.

Lemma matches_today h u now d :
  TimeClip (startOfDay h now) = Some (startOfDay h now) ->
  TimeClip (endOfDay h now) = Some (endOfDay h now) ->
  matches [("ownerId", Is (VStr u));
           ("scheduledAt", NotBefore (setHours h (Some now) 0 0 0 0));
           ("scheduledAt", NotAfter (setHours h (Some now) 23 59 59 999))] d
  = owned_by u d && scheduled_today h now d.
Proof.
  intros Hs He. unfold matches, owned_by, scheduled_today.
  cbn [forallb fst snd]. rewrite andb_true_r, (date_window h now _ Hs He). done.
Qed.

Lemma matches_today_completed h u now d :
  TimeClip (startOfDay h now) = Some (startOfDay h now) ->
  TimeClip (endOfDay h now) = Some (endOfDay h now) ->
  matches [("ownerId", Is (VStr u)); ("isCompleted", Is (VBool true));
           ("scheduledAt", NotBefore (setHours h (Some now) 0 0 0 0));
           ("scheduledAt", NotAfter (setHours h (Some now) 23 59 59 999))] d
  = owned_by u d && completed_is true d && scheduled_today h now d.
Proof.
  intros Hs He. unfold matches, owned_by, completed_is, scheduled_today.
  cbn [forallb fst snd]. rewrite andb_true_r, (date_window h now _ Hs He).
  by rewrite andb_assoc.
Qed.

(** What the method computes, query by query. *)
Lemma getEventStats_run h this u st :
  userId this = Some u -> u <> EmptyString ->
  let count selector := count_where (matches selector) (events st) in
  let startOfDay := setHours h (Some (now this)) 0 0 0 0 in
  let endOfDay := setHours h (Some (now this)) 23 59 59 999 in
  let own := ("ownerId", Is (VStr u)) in
  let total := count [own] in
  let completed := count [own; ("isCompleted", Is (VBool true))] in
  let todayTotal :=
    count [own; ("scheduledAt", NotBefore startOfDay); ("scheduledAt", NotAfter endOfDay)] in
  let todayCompleted :=
    count [own; ("isCompleted", Is (VBool true));
           ("scheduledAt", NotBefore startOfDay); ("scheduledAt", NotAfter endOfDay)] in
  getEventStats h this st
  = (Return {| total := total;
               completed := completed;
               pending := count [own; ("isCompleted", Is (VBool false))];
               overdue := count [own; ("isCompleted", Is (VBool false));
                                 ("scheduledAt", Before (Some (now this)))];
               today := {| today_total := todayTotal;
                           today_completed := todayCompleted;
                           today_remaining := todayTotal - todayCompleted |};
               completionRate := completion_rate completed total |}, st).
Proof.
  intros Eu Hu. unfold getEventStats.
  rewrite authenticated_truthy by (by exists u).
  unfold this_userId. rewrite Eu. reflexivity.
Qed.

(** *** Consistency of the snapshot *)

Lemma completed_pending_total u (coll : gmap string obj) :
  (forall i props, coll !! i = Some props ->
     props !! "ownerId" = Some (VStr u) ->
     exists b, props !! "isCompleted" = Some (VBool b)) ->
  count_where (matches [("ownerId", Is (VStr u)); ("isCompleted", Is (VBool true))]) coll
  + count_where (matches [("ownerId", Is (VStr u)); ("isCompleted", Is (VBool false))]) coll
  = count_where (matches [("ownerId", Is (VStr u))]) coll.
Proof.
  intros Hb. apply count_where_split; intros i props Hp;
    rewrite !matches_owner_completed, ?matches_owner;
    unfold owned_by, completed_is; rewrite !document_lookup_ne by done;
    specialize (Hb i props Hp).
  - destruct (bool_decide_reflect (props !! "ownerId" = Some (VStr u))) as [Eo|]; [|done].
    destruct (Hb Eo) as [[] ->]; done.
  - destruct (bool_decide (props !! "ownerId" = Some (VStr u))); [|done].
    destruct (props !! "isCompleted") as [[|[]| | |]|]; done.
Qed.

Lemma today_completed_le sel1 sel2 (coll : gmap string obj) x :
  count_where (matches (sel1 ++ x :: sel2)) coll <= count_where (matches (sel1 ++ sel2)) coll.
Proof.
  apply count_where_le. intros i props _. unfold matches.
  rewrite !forallb_app. simpl. intros H.
  apply andb_prop in H as [-> H]. apply andb_prop in H as [_ ->]. done.
Qed.

Lemma completed_le_total u (coll : gmap string obj) :
  count_where (matches [("ownerId", Is (VStr u)); ("isCompleted", Is (VBool true))]) coll
  <= count_where (matches [("ownerId", Is (VStr u))]) coll.
Proof. apply (today_completed_le [_] []). Qed.

(** The five facts follow from three inequalities between the counts. *)
Ltac consistent_snapshot Hday :=
  match goal with
  | |- context [("scheduledAt", NotBefore ?a)] =>
      match goal with
      | |- context [("scheduledAt", NotAfter ?b)] => specialize (Hday a b)
      end
  end;
  match goal with
  | |- context [completion_rate ?c ?t] =>
      pose proof (DoubleFacts.completion_rate_range c t ltac:(lia))
  end;
  split_and!; lia.

(** *** Validation and insertion *)

Lemma coherence_reported h d :
  is_lit (d !! "type") "aquarium_medication" = true ->
  is_lit (d !! "targetType") "fish" = true ->
  In msg_coherence (errors (validateEventData h d)).
Proof.
  intros Hty Htt.
  assert (Haq : is_lit (d !! "targetType") "aquarium" = false).
  { destruct (d !! "targetType") as [[| | |x|]|]; try done.
    simpl in Htt. apply String.eqb_eq in Htt as ->. done. }
  rewrite ValidationFacts.validateEventData_errors. unfold violations, messages, enforced, rule_list.
  rewrite !ValidationFacts.violations_cons. cbn [violated message].
  rewrite Hty, Haq. cbn [andb negb seg]. rewrite !in_app_iff. simpl. tauto.
Qed.

Lemma invalid_of_error h d msg :
  In msg (errors (validateEventData h d)) -> isValid (validateEventData h d) = false.
Proof.
  change (isValid (validateEventData h d))
    with (Nat.eqb (List.length (errors (validateEventData h d))) 0).
  by destruct (errors (validateEventData h d)).
Qed.

(** The steps of [insertEvent] on an incoherent payload, each with the
    error it throws. *)
Lemma insertEvent_incoherent h this d st :
  is_lit (d !! "type") "aquarium_medication" = true ->
  is_lit (d !! "targetType") "fish" = true ->
  insertEvent h this d st
  = (Throw
       (if negb (truthy (this_userId this)) then
          not_authorized "Vous devez être connecté pour créer un événement"
        else if negb (is_string (d !! "title") && is_date (d !! "scheduledAt")
                      && is_string (d !! "fishId")) then MatchError
        else if lookup_owned (fish st) (d !! "fishId") (this_userId this) is Some _
        then validation_error (validateEventData h d)
        else fish_not_found), st).
Proof.
  intros Hty Htt.
  pose proof (coherence_reported h d Hty Htt) as Hin.
  pose proof (invalid_of_error h d _ Hin) as Hinv.
  assert (Hstr_ty : is_string (d !! "type") = true)
    by (by destruct (d !! "type") as [[| | | |]|]).
  assert (Hstr_tt : is_string (d !! "targetType") = true)
    by (by destruct (d !! "targetType") as [[| | | |]|]).
  unfold insertEvent. rewrite Htt, Hstr_ty, Hstr_tt, Hinv.
  destruct (truthy (this_userId this)) eqn:Ha; cbn [negb]; [|done].
  unfold bind at 1. cbn [check ret].
  destruct (is_string (d !! "title")) eqn:E1; cbn [check ret throw andb negb]; [|done].
  unfold bind at 1. cbn [check ret].
  destruct (is_date (d !! "scheduledAt")) eqn:E2; cbn [check ret throw andb negb];
    [|done].
  unfold bind at 1. cbn [check ret]. unfold bind at 1.
  destruct (is_string (d !! "fishId")) eqn:E3; cbn [check ret throw andb negb]; [|done].
  unfold try_catch, bind, FishCollection_findOneAsync, ret, throw. cbv beta iota.
  by destruct (lookup_owned (fish st) (d !! "fishId") (this_userId this)) eqn:E4.
Qed.

(** On the payloads of [plain] the rules of the specification and the
    rules that are enforced are violated together. *)
Lemma plain_rules h d :
  plain d ->
  (fun r => violated r h d) <$> rules = (fun r => violated r h d) <$> enforced.
Proof.
  intros [Hp Hn]. unfold rules, enforced, rule_list. cbn [fmap list_fmap violated].
  rewrite !Hp by (rewrite !elem_of_cons; tauto).
  assert (E : includes RECURRENCES (d !! "recurrence")
              = includes EVENT_RECURRENCES (d !! "recurrence")).
  { unfold includes, RECURRENCES. cbn [existsb]. by rewrite Hn. }
  by rewrite E.
Qed.

Lemma forallb_fmap {A B} (f : A -> B) (p : B -> bool) (l : list A) :
  forallb p (f <$> l) = forallb (fun x => p (f x)) l.
Proof. induction l as [|x l IH]; [done|]. cbn [fmap list_fmap forallb]. by rewrite <- IH. Qed.

Lemma messages_fmap (rs1 rs2 : list rule) h d :
  message <$> rs1 = message <$> rs2 ->
  (fun r => violated r h d) <$> rs1 = (fun r => violated r h d) <$> rs2 ->
  messages rs1 h d = messages rs2 h d.
Proof.
  unfold messages. revert rs2.
  induction rs1 as [|r1 rs1 IH]; intros [|r2 rs2]; try done.
  cbn [fmap list_fmap]. intros [= Em Ems] [= Ev Evs]. cbn [List.filter].
  rewrite Ev. destruct (violated r2 h d); cbn [fmap list_fmap].
  - rewrite Em. f_equal. by apply IH.
  - by apply IH.
Qed.

Lemma alice_authenticated t next : authenticated (Scenario.alice t next).
Proof. exists "alice"%string. split; [reflexivity | discriminate]. Defined.

Lemma bob_authenticated t next : authenticated (Scenario.bob t next).
Proof. exists "bob"%string. split; [reflexivity | discriminate]. Defined.

End MethodFacts.

(** ** The properties of the specification *)

Import Store EventsCollection EventsMethods ESDate Spec MethodFacts.

(** [C1] Completing a recurring event fails.  For an event of the caller
    that is not completed and has its recurrence and its nextOccurrence
    set, as every event inserted with a recurrence rule has, the object
    that the method builds for the next occurrence has the property [_id],
    holding [undefined]; the store refuses it, and the method throws
    complete-failed: nothing is spawned, and the event is not completed
    either.  So for the daily feeding [e1]. *)
Theorem C1_recurring_completion_fails :
  (forall h this id notes st props,
      authenticated this ->
      events st !! id = Some props ->
      props !! "ownerId" = this_userId this ->
      truthy (props !! "isCompleted") = false ->
      truthy (props !! "recurrence") && truthy (props !! "nextOccurrence") = true ->
      completeEvent h this id notes st = (Throw Behaviour.complete_failed, st))
  /\ (let this := Scenario.alice Scenario.t_call2 "e2" in
      let r := completeEvent Scenario.host this "e1" "done" Scenario.one_event in
      events Scenario.one_event !! "e1" = Some Scenario.daily_feeding
      /\ Scenario.daily_feeding !! "isCompleted" = Some (VBool false)
      /\ Scenario.daily_feeding !! "recurrence" = Some (VStr "daily")
      /\ Scenario.daily_feeding !! "nextOccurrence"
         = Some (VDate (Some (Scenario.t_jan31 + msPerDay)))
      /\ r = (Throw Behaviour.complete_failed, Scenario.one_event)
      /\ events r.2 !! "e2" = None
      /\ events r.2 !! "e1" ≫= (.!! "isCompleted") = Some (VBool false)).
Proof.
  assert (G : forall h this id notes st props,
             authenticated this ->
             events st !! id = Some props ->
             props !! "ownerId" = this_userId this ->
             truthy (props !! "isCompleted") = false ->
             truthy (props !! "recurrence") && truthy (props !! "nextOccurrence") = true ->
             completeEvent h this id notes st = (Throw Behaviour.complete_failed, st)).
  { intros h this id notes st props Ha Hp Ho Hc Hr.
    pose proof Ha as (u & Eu & Hu).
    pose proof (authenticated_userId _ _ Eu) as Et.
    apply completeEvent_recurring with (ev := document id props); [done| |..].
    - unfold own_event. apply lookup_owned_Some. exists props.
      split; [done|]. split; [|done]. rewrite Ho, Et. by apply strict_eq_str.
    - by rewrite document_lookup_ne.
    - by rewrite !document_lookup_ne. }
  split; [exact G|]. cbv zeta.
  rewrite (G Scenario.host (Scenario.alice Scenario.t_call2 "e2") "e1" "done"
             Scenario.one_event Scenario.daily_feeding);
    [|apply alice_authenticated|reflexivity..].
  repeat split.
Qed.

(** [C2] An update whose payload carries ownerId hands the event over:
    alice's event [e1] belongs to mallory afterwards and alice no longer
    finds it. *)
Lemma C2_update_overwrites_ownerId :
  let this := Scenario.alice Scenario.t_call2 "e2" in
  let updated := updateEvent Scenario.host this "e1" Scenario.change_owner Scenario.one_event in
  events Scenario.one_event !! "e1" ≫= (.!! "ownerId") = Some (VStr "alice")
  /\ updated.1 = Return true
  /\ events updated.2 !! "e1" ≫= (.!! "ownerId") = Some (VStr "mallory")
  /\ own_event updated.2 this "e1" = None.
Proof. cbv zeta. repeat split. Qed.

(** [C3] For an authenticated caller and an identifier under which no
    event of the caller is stored (never stored, already deleted, or owned
    by another account), update, delete and complete throw
    [event-not-found] and leave the store as it was, journal included; and
    completing an event whose isCompleted is true throws
    [already-completed] and leaves the store as it was, so that nothing is
    spawned. *)
Theorem C3_not_found_leaves_store h this id payload notes st :
  authenticated this ->
  ((forall props, events st !! id = Some props ->
                  props !! "ownerId" <> this_userId this) ->
   updateEvent h this id payload st = (Throw event_not_found, st)
   /\ deleteEvent this id st = (Throw event_not_found, st)
   /\ completeEvent h this id notes st = (Throw event_not_found, st))
  /\ (forall b st', deleteEvent this id st = (Return b, st') ->
        deleteEvent this id st' = (Throw event_not_found, st'))
  /\ (forall props, events st !! id = Some props ->
        props !! "ownerId" = this_userId this ->
        props !! "isCompleted" = Some (VBool true) ->
        completeEvent h this id notes st = (Throw already_completed, st)).
Proof.
  intros Ha. pose proof Ha as (u & Eu & Hu).
  pose proof (authenticated_userId _ _ Eu) as Et.
  assert (Hnone : forall s : state,
             (forall props, events s !! id = Some props ->
                            props !! "ownerId" <> this_userId this) ->
             own_event s this id = None).
  { intros s Hs. unfold own_event. rewrite Et in *. by apply lookup_owned_None_str. }
  split; [|split].
  - intros Hno. specialize (Hnone st Hno).
    auto using updateEvent_not_found, deleteEvent_not_found, completeEvent_not_found.
  - intros b st' Hd. apply deleteEvent_not_found; [done|]. apply Hnone.
    intros props. rewrite (deleteEvent_deletes _ _ _ _ _ Hd), lookup_delete_eq. done.
  - intros props Hp Ho Hc.
    apply completeEvent_already_completed with (ev := document id props); [done| |].
    + unfold own_event. apply lookup_owned_Some. exists props.
      split; [done|]. split; [|done]. rewrite Ho, Et. by apply strict_eq_str.
    + rewrite document_lookup_ne by done. by rewrite Hc.
Qed.

Lemma C3_witness :
  deleteEvent (Scenario.bob Scenario.t_call2 "e2") "e1" Scenario.one_event
  = (Throw event_not_found, Scenario.one_event).
Proof.
  refine (proj1 (proj2 (proj1 (C3_not_found_leaves_store Scenario.host
                                 (Scenario.bob Scenario.t_call2 "e2") "e1"
                                 Scenario.change_owner EmptyString Scenario.one_event
                                 (bob_authenticated _ _)) _))).
  intros props H. unfold Scenario.one_event in H. cbn [events] in H.
  apply lookup_singleton_Some in H as [_ <-]. discriminate.
Defined.

(** [C4] An update that only clears the recurrence to null stores the
    null recurrence and leaves the nextOccurrence of the daily rule in
    place. *)
Lemma C4_cleared_recurrence_keeps_nextOccurrence :
  let this := Scenario.alice Scenario.t_call2 "e2" in
  let updated :=
    updateEvent Scenario.host this "e1" Scenario.clear_recurrence Scenario.one_event in
  updated.1 = Return true
  /\ events updated.2 !! "e1" ≫= (.!! "recurrence") = Some VNull
  /\ events updated.2 !! "e1" ≫= (.!! "nextOccurrence")
     = Some (VDate (Some (Scenario.t_jan31 + msPerDay))).
Proof. cbv zeta. repeat split. Qed.

(** [C5] With forty events of which twenty-three are completed the
    method answers a completion rate of 57: the double [23 / 40 * 100] lies
    just below 57.5, where [round(100 * completed / total)] is 58.  The
    counts themselves are the ones asked for. *)
Lemma C5_rate_of_23_in_40 :
  exists s,
    getEventStats Scenario.host (Scenario.alice Scenario.t_call2 "x")
      Scenario.forty_events = (Return s, Scenario.forty_events)
    /\ total s = 40
    /\ completed s = 23
    /\ pending s = 17
    /\ completionRate s = 57
    /\ exact_rate (completed s) (total s) = 58
    /\ completionRate s <> exact_rate (completed s) (total s).
Proof.
  exists {| total := 40; completed := 23; pending := 17; overdue := 17;
            today := {| today_total := 40; today_completed := 23;
                        today_remaining := 17 |};
            completionRate := 57 |}.
  split; [reflexivity|]. repeat split. discriminate.
Qed.

(** [C6] The specification lists none among the recurrences and checks
    priority and recurrence when they are present.  The validation refuses
    the recurrence none, which violates no rule of the specification; and
    it accepts the priority 0, which is present and is not one of low,
    medium and high. *)
Lemma C6_counterexample :
  let none := <["recurrence" := VStr "none"]> Scenario.aquarium_with_fish in
  let zero := <["priority" := VNum 0]> Scenario.aquarium_with_fish in
  (forallb (fun r => negb (violated r Scenario.host none)) rules = true
   /\ validateEventData Scenario.host none
      = {| isValid := false; errors := [msg_recurrence] |})
  /\ (messages rules Scenario.host zero = [msg_priority]
      /\ validateEventData Scenario.host zero = {| isValid := true; errors := [] |}).
Proof. cbv zeta. split; split; reflexivity. Qed.

(** [C6, as amended] The validation reports exactly the violated rules,
    read as the code reads them (an optional property is checked when it
    is truthy, the recurrences are daily, weekly and monthly): its list of
    messages is the list of the messages of all violated rules, in the
    order of the rules; it answers valid exactly when no rule is violated,
    and the list is then empty and otherwise not.  On the payloads whose
    priority, recurrence, completedAt and scheduledAt are absent, null or
    truthy and whose recurrence is not none, these are the rules as the
    specification words them.  A payload of type aquarium_medication aimed
    at a fish is invalid and the coherence message is among its errors;
    inserting it persists nothing and throws: the validation error with
    all the messages when the caller is authenticated, title, scheduledAt
    and fishId pass the type checks and fishId names a fish of the caller,
    and otherwise the error of the step that fails before the validation
    (not-authorized, the type error, fish-not-found). *)
Theorem C6_validation_reports_all h d :
  errors (validateEventData h d) = messages enforced h d
  /\ (isValid (validateEventData h d) = true
      <-> forall r, In r enforced -> violated r h d = false)
  /\ (isValid (validateEventData h d) = true
      <-> errors (validateEventData h d) = [])
  /\ (plain d ->
      errors (validateEventData h d) = messages rules h d
      /\ (isValid (validateEventData h d) = true
          <-> forall r, In r rules -> violated r h d = false))
  /\ (is_lit (d !! "type") "aquarium_medication" = true ->
      is_lit (d !! "targetType") "fish" = true ->
      isValid (validateEventData h d) = false
      /\ In msg_coherence (errors (validateEventData h d))
      /\ forall this st,
          insertEvent h this d st
          = (Throw
               (if negb (truthy (this_userId this)) then
                  not_authorized "Vous devez être connecté pour créer un événement"
                else if negb (is_string (d !! "title") && is_date (d !! "scheduledAt")
                              && is_string (d !! "fishId")) then MatchError
                else if lookup_owned (fish st) (d !! "fishId") (this_userId this)
                        is Some _
                then validation_error (validateEventData h d)
                else fish_not_found), st)).
Proof.
  assert (Hall : forall rs : list rule,
             forallb (fun r => negb (violated r h d)) rs = true
             <-> forall r, In r rs -> violated r h d = false).
  { intros rs. rewrite forallb_forall.
    split; intros H r Hr; specialize (H r Hr); by destruct (violated r h d). }
  split; [apply ValidationFacts.validateEventData_errors|].
  split; [by rewrite ValidationFacts.validateEventData_isValid|].
  split.
  { change (isValid (validateEventData h d))
      with (Nat.eqb (List.length (errors (validateEventData h d))) 0).
    destruct (errors (validateEventData h d)); simpl; split; done. }
  split.
  { intros Hp. pose proof (plain_rules h d Hp) as Ev. split.
    - rewrite ValidationFacts.validateEventData_errors. unfold violations.
      symmetry. by apply messages_fmap.
    - rewrite ValidationFacts.validateEventData_isValid, <- Hall.
      rewrite <- (forallb_fmap (fun r => violated r h d) negb enforced).
      rewrite <- (forallb_fmap (fun r => violated r h d) negb rules).
      by rewrite Ev. }
  intros Hty Htt.
  pose proof (coherence_reported h d Hty Htt) as Hin.
  split; [by apply invalid_of_error with msg_coherence|]. split; [done|].
  intros this st. by apply insertEvent_incoherent.
Qed.

Lemma C6_witness :
  insertEvent Scenario.host (Scenario.alice Scenario.t_call1 "e1")
    (Scenario.incoherent "f1") Scenario.empty_store
  = (Throw (validation_error
              (validateEventData Scenario.host (Scenario.incoherent "f1"))),
     Scenario.empty_store)
  /\ insertEvent Scenario.host (Scenario.alice Scenario.t_call1 "e1")
       (Scenario.incoherent "f2") Scenario.empty_store
     = (Throw fish_not_found, Scenario.empty_store).
Proof.
  split.
  - destruct (C6_validation_reports_all Scenario.host (Scenario.incoherent "f1"))
      as (_ & _ & _ & _ & H).
    destruct H as (_ & _ & H); [reflexivity..|].
    rewrite (H (Scenario.alice Scenario.t_call1 "e1") Scenario.empty_store).
    reflexivity.
  - destruct (C6_validation_reports_all Scenario.host (Scenario.incoherent "f2"))
      as (_ & _ & _ & _ & H).
    destruct H as (_ & _ & H); [reflexivity..|].
    rewrite (H (Scenario.alice Scenario.t_call1 "e1") Scenario.empty_store).
    reflexivity.
Defined.

(** [C7] For an anchor date of time value [t], calculateNextOccurrence is
    a function of its two arguments and moves the local time of the host:
    daily gives the date whose local time is one day later, weekly the one
    whose local time is seven days later (the invalid date when that
    leaves the range of time values), and monthly the date whose local
    civil time is one month later, the same day of the next month at the
    same time of day, rolled over into the month after when the next month
    has no such day.  On a host without clock changes daily is [t] plus
    one day and weekly [t] plus seven days; across a clock change a
    calendar day is not twenty-four hours, as for noon UTC on 2024-03-30 in
    Paris, whose daily successor is 23 hours later.  For the anchor
    2024-01-31T08:00Z on a UTC server, monthly gives 2024-03-02T08:00Z and
    inserting the event stores that value as nextOccurrence; completing
    the event throws complete-failed and spawns nothing. *)
Theorem C7_calculateNextOccurrence h t :
  let anchor := Some (VDate (Some t)) in
  let l := LocalTime h t in
  calculateNextOccurrence h anchor (Some (VStr "daily"))
  = VDate (TimeClip (UTC h (l + msPerDay)))
  /\ calculateNextOccurrence h anchor (Some (VStr "weekly"))
     = VDate (TimeClip (UTC h (l + 7 * msPerDay)))
  /\ (exists l',
        calculateNextOccurrence h anchor (Some (VStr "monthly"))
        = VDate (TimeClip (UTC h l'))
        /\ civil l' = one_month_later (civil l))
  /\ (forall tza,
        fixed_offset h tza ->
        calculateNextOccurrence h anchor (Some (VStr "daily"))
        = VDate (TimeClip (t + msPerDay))
        /\ calculateNextOccurrence h anchor (Some (VStr "weekly"))
           = VDate (TimeClip (t + 7 * msPerDay))
        /\ exists r,
             calculateNextOccurrence h anchor (Some (VStr "monthly"))
             = VDate (TimeClip r)
             /\ civil (LocalTime h r) = one_month_later (civil l))
  /\ calculateNextOccurrence Examples.paris
       (Some (VDate (Some (Examples.t_mar28 + 2 * msPerDay + 37800000))))
       (Some (VStr "daily"))
     = VDate (Some (Examples.t_mar28 + 2 * msPerDay + 37800000 + 23 * 3600000))
  /\ (let inserted :=
        insertEvent Scenario.host (Scenario.alice Scenario.t_call1 "e1")
          Scenario.monthly_feeding Scenario.empty_store in
      let completed :=
        completeEvent Scenario.host (Scenario.alice Scenario.t_call2 "e2") "e1"
          EmptyString inserted.2 in
      calculateNextOccurrence Scenario.host (Some (VDate (Some Scenario.t_jan31)))
        (Some (VStr "monthly")) = VDate (Some Scenario.t_mar02)
      /\ civil Scenario.t_jan31 = (2024, 0, 31, 8 * 3600000)
      /\ civil Scenario.t_mar02 = (2024, 2, 2, 8 * 3600000)
      /\ inserted.1 = Return "e1"
      /\ events inserted.2 !! "e1" ≫= (.!! "nextOccurrence")
         = Some (VDate (Some Scenario.t_mar02))
      /\ completed = (Throw Behaviour.complete_failed, inserted.2)
      /\ events completed.2 !! "e2" = None).
Proof.
  cbv zeta.
  assert (Ed : calculateNextOccurrence h (Some (VDate (Some t))) (Some (VStr "daily"))
               = VDate (TimeClip (UTC h (LocalTime h t + msPerDay)))).
  { unfold calculateNextOccurrence. simpl (is_lit _ _). cbv iota.
    change (construct h (Some (VDate (Some t)))) with (Some t).
    by rewrite CalendarFacts.setDate_shift, Z.mul_1_l. }
  assert (Ew : calculateNextOccurrence h (Some (VDate (Some t))) (Some (VStr "weekly"))
               = VDate (TimeClip (UTC h (LocalTime h t + 7 * msPerDay)))).
  { unfold calculateNextOccurrence. simpl (is_lit _ _). cbv iota.
    change (construct h (Some (VDate (Some t)))) with (Some t).
    by rewrite CalendarFacts.setDate_shift. }
  assert (Em : exists l',
             calculateNextOccurrence h (Some (VDate (Some t))) (Some (VStr "monthly"))
             = VDate (TimeClip (UTC h l'))
             /\ civil l' = one_month_later (civil (LocalTime h t))).
  { unfold calculateNextOccurrence. simpl (is_lit _ _). cbv iota.
    change (construct h (Some (VDate (Some t)))) with (Some t).
    destruct (CalendarFacts.setMonth_next h t) as (l' & E & Hl).
    exists l'. by rewrite E. }
  split; [exact Ed|]. split; [exact Ew|]. split; [exact Em|].
  split.
  { intros tza Hf.
    rewrite Ed, Ew, !(CalendarFacts.UTC_LocalTime_fixed h tza) by done.
    split; [done|]. split; [done|].
    destruct Em as (l' & E & Hl). exists (UTC h l'). split; [done|].
    by rewrite (CalendarFacts.LocalTime_UTC_fixed h tza). }
  split; [reflexivity|].
  repeat split.
Qed.

(** [C8] An aquarium payload that names a fish is stored with its fishId,
    and a fish event retargeted to the aquarium keeps its fishId: both
    stored events have targetType aquarium and a fishId. *)
Lemma C8_aquarium_event_with_fishId :
  let inserted :=
    insertEvent Scenario.host (Scenario.alice Scenario.t_call1 "e1")
      Scenario.aquarium_with_fish Scenario.empty_store in
  let updated :=
    updateEvent Scenario.host (Scenario.alice Scenario.t_call2 "e2") "e1"
      Scenario.retarget_aquarium Scenario.one_event in
  let stored1 := default ∅ (events inserted.2 !! "e1") in
  let stored2 := default ∅ (events updated.2 !! "e1") in
  (inserted.1 = Return "e1"
   /\ stored1 !! "targetType" = Some (VStr "aquarium")
   /\ stored1 !! "fishId" = Some (VStr "f1")
   /\ ~ fishId_iff_fish stored1)
  /\ (updated.1 = Return true
      /\ stored2 !! "targetType" = Some (VStr "aquarium")
      /\ stored2 !! "fishId" = Some (VStr "f1")
      /\ ~ fishId_iff_fish stored2).
Proof.
  assert (Hno : forall props : obj,
             props !! "targetType" = Some (VStr "aquarium") ->
             props !! "fishId" = Some (VStr "f1") ->
             ~ fishId_iff_fish props).
  { intros props Ht Hf [H _]. rewrite Ht, Hf in H.
    assert (X : is_Some (Some (VStr "f1"))) by (by eexists). by apply H in X. }
  cbv zeta.
  split; (split; [reflexivity|]);
    (split; [reflexivity|]); (split; [reflexivity|]);
    apply Hno; reflexivity.
Qed.

(** [C9] Whatever else the payload carries, the document that a
    successful insert persists under the returned identifier has
    isCompleted false, completedAt null, the priority of the payload or
    medium, the recurrence of the payload or null, nextOccurrence computed
    from scheduledAt and recurrence when the recurrence is set (then a
    date) and null otherwise, title, description and notes trimmed (empty
    when not given), the caller as ownerId, and createdAt and updatedAt at
    the instant of the call. *)
Theorem C9_insert_normalises h this eventData st id st' :
  insertEvent h this eventData st = (Return id, st') ->
  exists props,
    events st' !! id = Some props
    /\ props !! "isCompleted" = Some (VBool false)
    /\ props !! "completedAt" = Some VNull
    /\ props !! "priority"
       = Some (or_default (eventData !! "priority") (VStr "medium"))
    /\ (eventData !! "priority" = None -> props !! "priority" = Some (VStr "medium"))
    /\ props !! "recurrence" = Some (or_default (eventData !! "recurrence") VNull)
    /\ (eventData !! "recurrence" = None -> props !! "recurrence" = Some VNull)
    /\ (if truthy (eventData !! "recurrence")
        then props !! "nextOccurrence"
             = Some (calculateNextOccurrence h (eventData !! "scheduledAt")
                                             (eventData !! "recurrence"))
             /\ exists tv, props !! "nextOccurrence" = Some (VDate tv)
        else props !! "nextOccurrence" = Some VNull)
    /\ props !! "title" = Some (trimmed_or_empty (eventData !! "title"))
    /\ is_string (eventData !! "title") = true
    /\ props !! "description" = Some (trimmed_or_empty (eventData !! "description"))
    /\ props !! "notes" = Some (trimmed_or_empty (eventData !! "notes"))
    /\ authenticated this
    /\ props !! "ownerId" = this_userId this
    /\ props !! "createdAt" = Some (VDate (Some (now this)))
    /\ props !! "updatedAt" = Some (VDate (Some (now this))).
Proof.
  intros H. unfold insertEvent in H.
  destruct (truthy (this_userId this)) eqn:Ha; cbn [negb] in H; [|done].
  apply bind_inv in H as (? & s1 & [_ ->]%check_inv & H).
  apply bind_inv in H as (? & s1 & [Ht ->]%check_inv & H).
  apply bind_inv in H as (? & s1 & [_ ->]%check_inv & H).
  apply bind_inv in H as (? & s1 & [_ ->]%check_inv & H).
  apply bind_inv in H as (? & s1 & Hf & H).
  assert (s1 = st) as ->.
  { destruct (is_lit _ "fish"); [by apply check_inv in Hf as [_ ->]|].
    by injection Hf. }
  clear Hf.
  apply try_catch_inv, bind_inv in H as (? & s1 & Hf & H).
  assert (s1 = st) as ->.
  { destruct (is_lit _ "fish"); [|by injection Hf].
    apply bind_inv in Hf as (fish & s2 & [= <- <-] & Hf).
    destruct (lookup_owned _ _ _); [by injection Hf|done]. }
  clear Hf. cbv zeta in H.
  apply bind_inv in H as (? & s1 & Hv & H).
  destruct (isValid (validateEventData h eventData)) eqn:Hvalid;
    cbn [negb] in Hv; [|done].
  injection Hv as _ <-.
  apply bind_inv in H as (title & s1 & (t & Et & -> & ->)%trim_call_inv & H).
  apply bind_inv in H as (description & s1 & [-> ->]%trimmed_inv & H).
  apply bind_inv in H as (notes & s1 & [-> ->]%trimmed_inv & H).
  apply insertAsync_inv in H as (Hfree & -> & _).
  eexists. split; [apply lookup_insert_eq|].
  cbn [assign foldl prop undefined fst snd this_userId]. stored.
  assert (Hauth : authenticated this).
  { unfold this_userId in Ha. destruct (userId this) as [u|] eqn:Eu; [|done].
    exists u. split; [done|]. intros ->. done. }
  assert (Hrec : truthy (eventData !! "recurrence") = true ->
                 includes EVENT_RECURRENCES (eventData !! "recurrence") = true).
  { intros Tr. rewrite ValidationFacts.validateEventData_isValid in Hvalid.
    unfold enforced, rule_list in Hvalid. cbn [forallb violated] in Hvalid.
    rewrite Tr in Hvalid. repeat (apply andb_prop in Hvalid as [? Hvalid]).
    match goal with
    | H : negb (true && negb ?x) = true |- ?x = true => by destruct x
    end. }
  rewrite !lookup_delete_ne by done.
  repeat split.
  all: try (rewrite ?lookup_insert_ne by done; rewrite ?lookup_insert_eq; done).
  - intros E. rewrite ?lookup_insert_ne by done. rewrite lookup_insert_eq. by rewrite E.
  - intros E. rewrite ?lookup_insert_ne by done. rewrite lookup_insert_eq. by rewrite E.
  - destruct (truthy (eventData !! "recurrence")) eqn:Tr.
    + split; [rewrite ?lookup_insert_ne by done; by rewrite lookup_insert_eq|].
      destruct (includes_recurrence_next h (eventData !! "scheduledAt") _ (Hrec eq_refl))
        as [tv Etv].
      exists tv. rewrite ?lookup_insert_ne by done. by rewrite lookup_insert_eq, Etv.
    + rewrite ?lookup_insert_ne by done. by rewrite lookup_insert_eq.
  - rewrite ?lookup_insert_ne by done. rewrite lookup_insert_eq. by rewrite Et.
Qed.

Lemma C9_witness :
  exists props,
    events (insertEvent Scenario.host (Scenario.alice Scenario.t_call1 "e1")
              Scenario.monthly_feeding Scenario.empty_store).2 !! "e1" = Some props
    /\ props !! "isCompleted" = Some (VBool false)
    /\ props !! "completedAt" = Some VNull
    /\ props !! "createdAt" = Some (VDate (Some Scenario.t_call1))
    /\ props !! "updatedAt" = Some (VDate (Some Scenario.t_call1)).
Proof.
  destruct (C9_insert_normalises Scenario.host (Scenario.alice Scenario.t_call1 "e1")
              Scenario.monthly_feeding Scenario.empty_store "e1"
              (insertEvent Scenario.host (Scenario.alice Scenario.t_call1 "e1")
                 Scenario.monthly_feeding Scenario.empty_store).2)
    as (props & H1 & H2 & H3 & _ & _ & _ & _ & _ & _ & _ & _ & _ & _ & _ & H4 & H5).
  - reflexivity.
  - exists props. repeat split; assumption.
Defined.

(** [C10] When isCompleted is a boolean on every event of the owner, the
    snapshot of the method and the snapshot of the statistics publication
    are consistent: completed + pending = total; today.completed is at
    most today.total, so that today.remaining, their difference, is not
    negative; and completionRate lies between 0 and 100. *)
Theorem C10_snapshot_consistent h this u st s st' instant :
  (forall i props, events st !! i = Some props ->
     props !! "ownerId" = Some (VStr u) ->
     exists b, props !! "isCompleted" = Some (VBool b)) ->
  (userId this = Some u ->
   getEventStats h this st = (Return s, st') ->
   completed s + pending s = total s
   /\ today_completed (today s) <= today_total (today s)
   /\ today_remaining (today s) = today_total (today s) - today_completed (today s)
   /\ 0 <= today_remaining (today s)
   /\ 0 <= completionRate s <= 100)
  /\ (let p := EventsPublications.calculateStats h instant u st in
      EventsPublications.completed p + EventsPublications.pending p
      = EventsPublications.total p
      /\ EventsPublications.today_completed (EventsPublications.today p)
         <= EventsPublications.today_total (EventsPublications.today p)
      /\ EventsPublications.today_remaining (EventsPublications.today p)
         = EventsPublications.today_total (EventsPublications.today p)
           - EventsPublications.today_completed (EventsPublications.today p)
      /\ 0 <= EventsPublications.today_remaining (EventsPublications.today p)
      /\ 0 <= EventsPublications.completionRate p <= 100).
Proof.
  intros Hb.
  pose proof (completed_pending_total u (events st) Hb) as Hsum.
  pose proof (completed_le_total u (events st)) as Hle.
  assert (Hday : forall a b,
    count_where (matches [("ownerId", Is (VStr u)); ("isCompleted", Is (VBool true));
                          ("scheduledAt", NotBefore a); ("scheduledAt", NotAfter b)])
                (events st)
    <= count_where (matches [("ownerId", Is (VStr u));
                             ("scheduledAt", NotBefore a); ("scheduledAt", NotAfter b)])
                   (events st)).
  { intros a b. apply (today_completed_le [_] [_; _]). }
  pose proof (count_where_nonneg
                (matches [("ownerId", Is (VStr u)); ("isCompleted", Is (VBool true))])
                (events st)) as H0.
  split.
  - intros Eu Hrun.
    destruct (String.eqb_spec u EmptyString) as [->|Hu].
    { unfold getEventStats, this_userId in Hrun. rewrite Eu in Hrun. done. }
    rewrite (getEventStats_run h this u st Eu Hu) in Hrun.
    cbv zeta in Hrun. injection Hrun as <- <-. cbn [total completed pending today
      today_total today_completed today_remaining completionRate].
    consistent_snapshot Hday.
  - cbv zeta. unfold EventsPublications.calculateStats.
    cbn [EventsPublications.total EventsPublications.completed
         EventsPublications.pending EventsPublications.today
         EventsPublications.today_total EventsPublications.today_completed
         EventsPublications.today_remaining EventsPublications.completionRate].
    consistent_snapshot Hday.
Qed.

Lemma C10_witness :
  let p := EventsPublications.calculateStats Scenario.host Scenario.t_call2 "alice"
             Scenario.one_event in
  EventsPublications.completed p + EventsPublications.pending p
  = EventsPublications.total p.
Proof.
  refine (proj1 (proj2 (C10_snapshot_consistent Scenario.host
                          (Scenario.alice Scenario.t_call2 "x") "alice"
                          Scenario.one_event
                          {| total := 0; completed := 0; pending := 0; overdue := 0;
                             today := {| today_total := 0; today_completed := 0;
                                         today_remaining := 0 |};
                             completionRate := 0 |}
                          Scenario.one_event Scenario.t_call2 _))).
  intros i props H _. unfold Scenario.one_event in H. cbn [events] in H.
  apply lookup_singleton_Some in H as [_ <-].
  exists false. reflexivity.
Defined.

(** ** Further properties: the methods

    Failures, ownership, and how the methods compose. *)

Import Behaviour.

(** *** What a call that throws leaves behind *)

Lemma check_throw ok st e st' : check ok st = (Throw e, st') -> st' = st.
Proof. destruct ok; simpl; [done|]. by intros [= _ <-]. Qed.

Lemma trim_call_state v st o st' : trim_call v st = (o, st') -> st' = st.
Proof. destruct v as [[| | |s|]|]; simpl; by intros [= _ <-]. Qed.

Lemma findOne_events_state id owner st o st' :
  EventsCollection_findOneAsync id owner st = (o, st') -> st' = st.
Proof. by intros [= _ <-]. Qed.

Lemma insertAsync_throw this doc st e st' :
  EventsCollection_insertAsync this doc st = (Throw e, st') -> st' = st.
Proof.
  unfold EventsCollection_insertAsync.
  repeat case_match; by intros [= _ <-].
Qed.

Lemma updateAsync_throw id fields st e st' :
  EventsCollection_updateAsync id fields st = (Throw e, st') -> st' = st.
Proof.
  unfold EventsCollection_updateAsync.
  repeat case_match; by intros [= _ <-].
Qed.

Lemma removeAsync_throw id st e st' :
  EventsCollection_removeAsync id st = (Throw e, st') -> st' = st.
Proof.
  unfold EventsCollection_removeAsync.
  repeat case_match; by intros [= _ <-].
Qed.


Lemma readonly_atomic {A} (m : M A) : readonly m -> atomic m.
Proof. intros H st e st'. apply H. Qed.

Lemma atomic_bind_readonly {A B} (m : M A) (k : A -> M B) :
  readonly m -> (forall a, atomic (k a)) -> atomic (bind m k).
Proof.
  intros Hm Hk st e st'. unfold bind.
  destruct (m st) as [[a|e1] st1] eqn:E; apply Hm in E as ->.
  - apply Hk.
  - by intros [= _ <-].
Qed.

Lemma readonly_bind {A B} (m : M A) (k : A -> M B) :
  readonly m -> (forall a, readonly (k a)) -> readonly (bind m k).
Proof.
  intros Hm Hk st o st'. unfold bind.
  destruct (m st) as [[a|e1] st1] eqn:E; apply Hm in E as ->.
  - apply Hk.
  - by intros [= _ <-].
Qed.

Lemma readonly_ret {A} (a : A) : readonly (ret a).
Proof. by intros st o st' [= _ <-]. Qed.
Lemma readonly_throw {A} e : readonly (@throw A e).
Proof. by intros st o st' [= _ <-]. Qed.
Lemma readonly_check ok : readonly (check ok).
Proof. destruct ok; [apply readonly_ret | apply readonly_throw]. Qed.
Lemma readonly_trim_call v : readonly (trim_call v).
Proof. intros st o st'. apply trim_call_state. Qed.
Lemma readonly_findOne_events id owner : readonly (EventsCollection_findOneAsync id owner).
Proof. by intros st o st' [= _ <-]. Qed.
Lemma readonly_findOne_fish id owner : readonly (FishCollection_findOneAsync id owner).
Proof. by intros st o st' [= _ <-]. Qed.
Lemma readonly_count sel : readonly (EventsCollection_count sel).
Proof. by intros st o st' [= _ <-]. Qed.
Lemma readonly_if {A} (c : bool) (m1 m2 : M A) :
  readonly m1 -> readonly m2 -> readonly (if c then m1 else m2).
Proof. by destruct c. Qed.
Lemma atomic_if {A} (c : bool) (m1 m2 : M A) :
  atomic m1 -> atomic m2 -> atomic (if c then m1 else m2).
Proof. by destruct c. Qed.
Lemma atomic_try_catch {A} (m : M A) code reason :
  atomic m -> atomic (try_catch m code reason).
Proof.
  intros H st e st'. unfold try_catch.
  destruct (m st) as [[a|[]] st1] eqn:E; intros [= _ <-]; by apply H in E.
Qed.
Lemma readonly_catch_all {A} (m : M A) code reason :
  readonly m -> readonly (catch_all m code reason).
Proof.
  intros H st o st'. unfold catch_all.
  destruct (m st) as [[a|e] st1] eqn:E; intros [= _ <-]; by apply H in E.
Qed.
Lemma atomic_insertAsync this doc : atomic (EventsCollection_insertAsync this doc).
Proof. intros st e st'. apply insertAsync_throw. Qed.
Lemma atomic_updateAsync id fields : atomic (EventsCollection_updateAsync id fields).
Proof. intros st e st'. apply updateAsync_throw. Qed.
Lemma atomic_removeAsync id : atomic (EventsCollection_removeAsync id).
Proof. intros st e st'. apply removeAsync_throw. Qed.
Lemma atomic_bind_ret {A B} (m : M A) (f : A -> B) :
  atomic m -> atomic (bind m (fun a => ret (f a))).
Proof.
  intros H st e st'. unfold bind.
  destruct (m st) as [[a|e1] st1] eqn:E; [done|]. intros [= _ <-]. by apply H in E.
Qed.

Ltac readonly_steps :=
  repeat first
    [ apply readonly_ret | apply readonly_throw | apply readonly_check
    | apply readonly_trim_call | apply readonly_findOne_events
    | apply readonly_findOne_fish | apply readonly_count
    | apply readonly_if
    | apply readonly_bind; [|intros ?]
    | match goal with |- readonly (match ?x with _ => _ end) => destruct x end ].

Ltac atomic_steps :=
  repeat first
    [ apply atomic_insertAsync | apply atomic_updateAsync | apply atomic_removeAsync
    | apply atomic_try_catch
    | apply atomic_bind_ret
    | apply atomic_bind_readonly; [readonly_steps; fail|intros ?]
    | apply readonly_atomic; readonly_steps; fail
    | apply atomic_if
    | match goal with |- atomic (match ?x with _ => _ end) => destruct x end
    | progress cbv zeta ].

Lemma atomic_insertEvent h this payload : atomic (insertEvent h this payload).
Proof. unfold insertEvent. atomic_steps. Qed.

Lemma atomic_updateEvent h this id payload : atomic (updateEvent h this id payload).
Proof. unfold updateEvent. atomic_steps. Qed.

Lemma atomic_deleteEvent this id : atomic (deleteEvent this id).
Proof. unfold deleteEvent. atomic_steps. Qed.

Lemma readonly_getEventStats h this : readonly (getEventStats h this).
Proof. unfold getEventStats. apply readonly_if; [readonly_steps|]. apply readonly_catch_all. readonly_steps. Qed.

Lemma truthy_authenticated this :
  truthy (this_userId this) = true -> authenticated this.
Proof.
  unfold this_userId. destruct (userId this) as [u|] eqn:Eu; [|done].
  intros H. exists u. split; [done|]. by intros ->.
Qed.

Lemma insertEvent_inv h this eventData st id st' :
  insertEvent h this eventData st = (Return id, st') ->
  authenticated this
  /\ isValid (validateEventData h eventData) = true
  /\ (is_lit (eventData !! "targetType") "fish" = true ->
      is_Some (lookup_owned (fish st) (eventData !! "fishId") (this_userId this)))
  /\ inserted_id this eventData = Some id
  /\ events st !! id = None
  /\ st' = {| events := <[id := inserted_props h this eventData]> (events st);
              fish := fish st;
              journal := journal st ++ [Inserted id (inserted_props h this eventData)] |}.
Proof.
  intros H. unfold insertEvent in H.
  destruct (truthy (this_userId this)) eqn:Ha; cbn [negb] in H; [|done].
  apply bind_inv in H as (? & s1 & [_ ->]%check_inv & H).
  apply bind_inv in H as (? & s1 & [Ht ->]%check_inv & H).
  apply bind_inv in H as (? & s1 & [_ ->]%check_inv & H).
  apply bind_inv in H as (? & s1 & [_ ->]%check_inv & H).
  apply bind_inv in H as (? & s1 & Hf & H).
  assert (s1 = st) as ->.
  { destruct (is_lit _ "fish"); [by apply check_inv in Hf as [_ ->]|].
    by injection Hf. }
  clear Hf.
  apply try_catch_inv, bind_inv in H as (? & s1 & Hf & H).
  assert (s1 = st
          /\ (is_lit (eventData !! "targetType") "fish" = true ->
              is_Some (lookup_owned (fish st) (eventData !! "fishId") (this_userId this))))
    as [-> Hfish].
  { destruct (is_lit _ "fish"); [|by injection Hf].
    apply bind_inv in Hf as (fish & s2 & [= <- <-] & Hf).
    destruct (lookup_owned _ _ _); [|done]. injection Hf as _ <-. eauto. }
  clear Hf. cbv zeta in H.
  apply bind_inv in H as (? & s1 & Hv & H).
  destruct (isValid (validateEventData h eventData)) eqn:Hvalid;
    cbn [negb] in Hv; [|done].
  injection Hv as _ <-.
  apply bind_inv in H as (title & s1 & (t & Et & -> & ->)%trim_call_inv & H).
  apply bind_inv in H as (description & s1 & [-> ->]%trimmed_inv & H).
  apply bind_inv in H as (notes & s1 & [-> ->]%trimmed_inv & H).
  pose proof H as H'.
  apply insertAsync_inv in H as (Hfree & -> & Hid).
  assert (Hprops :
    defined (delete "_id"
      (assign eventData
         [prop "title" (VStr (trim t));
          prop "description" (trimmed_or_empty (eventData !! "description"));
          prop "notes" (trimmed_or_empty (eventData !! "notes"));
          prop "isCompleted" (VBool false); prop "completedAt" VNull;
          prop "priority" (or_default (eventData !! "priority") (VStr "medium"));
          prop "recurrence" (or_default (eventData !! "recurrence") VNull);
          prop "nextOccurrence"
            (if truthy (eventData !! "recurrence")
             then calculateNextOccurrence h (eventData !! "scheduledAt")
                                          (eventData !! "recurrence")
             else VNull);
          ("ownerId"%string, this_userId this);
          prop "createdAt" (new_Date this); prop "updatedAt" (new_Date this)]))
    = inserted_props h this eventData).
  { unfold inserted_props. rewrite Et.
    cbn [assign foldl prop undefined fst snd trimmed_or_empty]. stored.
    by rewrite !delete_insert_ne by done. }
  rewrite Hprops.
  split; [by apply truthy_authenticated|]. split; [done|]. split; [done|].
  split; [|done].
  unfold EventsCollection_insertAsync in H'.
  cbn [assign foldl prop undefined fst snd] in H'.
  rewrite !lookup_insert_ne, lookup_fmap in H' by done.
  unfold inserted_id.
  destruct (eventData !! "_id") as [[| | |i|]|]; cbn [fmap option_fmap option_map] in H';
    try done.
  - destruct (String.eqb i EmptyString); [done|].
    destruct (events st !! i); [done|]. by injection H' as ->.
  - destruct (events st !! randomId this); [done|]. by injection H' as ->.
Qed.

Lemma own_event_Some st this id d :
  authenticated this ->
  own_event st this id = Some d <->
  exists props, events st !! id = Some props
                /\ props !! "ownerId" = this_userId this
                /\ d = document id props.
Proof.
  intros (u & Eu & Hu). unfold own_event. rewrite lookup_owned_Some.
  rewrite (authenticated_userId _ _ Eu).
  split; intros (props & Hp & Ho & Hd); exists props; split_and!; try done.
  - by apply strict_eq_str.
  - by apply strict_eq_str.
Qed.

Lemma set_trimmed_inv k updateData (fields : literal) st x st' :
  (if truthy (updateData !! k)
   then bind (trim_call (updateData !! k)) (fun t => ret (<[k := Some t]> fields))
   else ret fields) st = (Return x, st') ->
  defined x = set_trimmed k updateData (defined fields) /\ st' = st.
Proof.
  unfold set_trimmed.
  destruct (updateData !! k) as [[|b|n|s|tv]|] eqn:E; simpl; try done.
  - by intros [= <- <-].
  - destruct b; simpl; [done|]. by intros [= <- <-].
  - destruct (n =? 0); simpl; [|done]. by intros [= <- <-].
  - destruct (String.eqb s EmptyString); simpl; intros [= <- <-]; [done|].
    by rewrite defined_insert_Some.
  - by intros [= <- <-].
Qed.

Lemma updateEvent_inv h this id updateData st b st' :
  updateEvent h this id updateData st = (Return b, st') ->
  exists props,
    let existing := document id props in
    let fields := updated_fields h this updateData existing in
    authenticated this
    /\ events st !! id = Some props
    /\ props !! "ownerId" = this_userId this
    /\ (truthy (updateData !! "fishId") = true ->
        strict_eq (updateData !! "fishId") (props !! "fishId") = false ->
        is_Some (lookup_owned (fish st) (updateData !! "fishId") (this_userId this)))
    /\ isValid (validateEventData h (updateData ∪ existing)) = true
    /\ (updateData !! "_id" = None \/ updateData !! "_id" = Some (VStr id))
    /\ b = true
    /\ st' = {| events := <[id := delete "_id" fields ∪ props]> (events st);
                fish := fish st;
                journal := journal st ++ [Updated id fields] |}.
Proof.
  intros H. unfold updateEvent in H.
  destruct (truthy (this_userId this)) eqn:Ha; cbn [negb] in H; [|done].
  apply truthy_authenticated in Ha.
  apply try_catch_inv in H. unfold bind at 1, EventsCollection_findOneAsync in H.
  fold (own_event st this id) in H.
  destruct (own_event st this id) as [existing|] eqn:Hown; [|done].
  apply (own_event_Some st this id existing Ha) in Hown as (props & Hp & Ho & ->).
  exists props. cbv zeta.
  apply bind_inv in H as (? & s1 & Hf & H).
  rewrite document_lookup_ne in Hf by done.
  assert (s1 = st
          /\ (truthy (updateData !! "fishId") = true ->
              strict_eq (updateData !! "fishId") (props !! "fishId") = false ->
              is_Some (lookup_owned (fish st) (updateData !! "fishId")
                                    (this_userId this))))
    as [-> Hfish].
  { destruct (truthy (updateData !! "fishId")); cbn [andb] in Hf.
    - destruct (strict_eq _ _); cbn [negb] in Hf.
      + by injection Hf as <-.
      + apply bind_inv in Hf as (fish & s2 & [= <- <-] & Hf).
        destruct (lookup_owned _ _ _); [|done]. injection Hf as <-. eauto.
    - by injection Hf as <-. }
  clear Hf.
  apply bind_inv in H as (? & s1 & Hf & H).
  assert (s1 = st) as ->.
  { destruct (_ && _ && _); [done|]. by injection Hf. }
  clear Hf.
  apply bind_inv in H as (? & s1 & Hv & H).
  destruct (isValid _) eqn:Hvalid; cbn [negb] in Hv; [|done].
  injection Hv as _ <-.
  apply bind_inv in H as (f1 & s1 & [E1 ->]%set_trimmed_inv & H).
  apply bind_inv in H as (f2 & s1 & [E2 ->]%set_trimmed_inv & H).
  apply bind_inv in H as (f3 & s1 & [E3 ->]%set_trimmed_inv & H).
  apply bind_inv in H as (result & s1 & H & [= <- <-]).
  unfold EventsCollection_updateAsync in H. cbv zeta in H. rewrite Hp in H.
  match type of H with
  | context [defined ?l] =>
      assert (Ef : defined l = updated_fields h this updateData (document id props))
  end.
  { unfold updated_fields. cbv zeta.
    destruct (_ || _); stored; rewrite E3, E2, E1;
      cbn [assign foldl prop fst snd]; stored; done. }
  rewrite Ef in H. clear Ef E1 E2 E3 f1 f2 f3.
  unfold updated_fields in *. rewrite !document_lookup_ne by done.
  rewrite !document_lookup_ne in H by done.
  match type of H with
  | context [bool_decide ?P] => destruct (bool_decide_reflect P) as [Hid|Hid]; [|done]
  end.
  injection H as <- <-.
  split_and!; try done.
  clear -Hid.
  assert (forall k (f : obj), k <> "_id"%string -> set_trimmed k updateData f !! "_id" = f !! "_id") as Hs.
  { intros k f Hk. unfold set_trimmed. repeat case_match; try done; by rewrite lookup_insert_ne. }
  destruct (_ || _); rewrite ?lookup_insert_ne in Hid by done;
    rewrite !Hs in Hid by done; by rewrite lookup_insert_ne in Hid.
Qed.

Lemma deleteEvent_run this id st props :
  authenticated this -> events st !! id = Some props ->
  props !! "ownerId" = this_userId this ->
  deleteEvent this id st
  = (Return true, {| events := delete id (events st);
                     fish := fish st;
                     journal := journal st ++ [Removed id] |}).
Proof.
  intros Ha Hp Ho. unfold deleteEvent. rewrite (authenticated_truthy _ Ha). cbn [negb].
  unfold try_catch, bind, EventsCollection_findOneAsync.
  assert (Hown : own_event st this id = Some (document id props)).
  { apply own_event_Some; eauto. }
  unfold own_event in Hown. rewrite Hown.
  unfold EventsCollection_removeAsync. by rewrite Hp.
Qed.


Lemma completion_fields this notes :
  defined (assign ∅ [ prop "isCompleted" (VBool true);
                      prop "completedAt" (new_Date this);
                      prop "notes" (VStr (trim notes));
                      prop "updatedAt" (new_Date this) ])
  = completion this notes.
Proof.
  cbn [assign foldl prop fst snd]. stored. reflexivity.
Qed.

(** The two ways a completion of an event of the caller that is not
    completed can go. *)
Lemma completeEvent_run h this id notes st props :
  authenticated this -> events st !! id = Some props ->
  props !! "ownerId" = this_userId this ->
  truthy (props !! "isCompleted") = false ->
  completeEvent h this id notes st
  = if truthy (props !! "recurrence") && truthy (props !! "nextOccurrence") then
      (Throw complete_failed, st)
    else
      (Return true,
       {| events := <[id := completed_with this notes props]> (events st);
          fish := fish st;
          journal := journal st ++ [Updated id (completion this notes)] |}).
Proof.
  intros Ha Hp Ho Hc.
  assert (Hown : own_event st this id = Some (document id props)).
  { apply own_event_Some; eauto. }
  destruct (truthy (props !! "recurrence") && truthy (props !! "nextOccurrence")) eqn:Hr.
  - apply completeEvent_recurring with (ev := document id props); [done|done|..];
      by rewrite !document_lookup_ne.
  - unfold completeEvent. rewrite (authenticated_truthy _ Ha). cbn [negb].
    unfold try_catch, bind at 1, EventsCollection_findOneAsync.
    unfold own_event in Hown. rewrite Hown. cbv beta iota.
    rewrite !document_lookup_ne by done. rewrite Hc, Hr.
    unfold bind, ret, EventsCollection_updateAsync. cbv zeta.
    rewrite completion_fields, Hp.
    rewrite bool_decide_eq_true_2 by (left; done).
    rewrite (delete_id (completion this notes)) by done. done.
Qed.

Lemma atomic_completeEvent h this id notes : atomic (completeEvent h this id notes).
Proof.
  intros st e st' H.
  destruct (truthy (this_userId this)) eqn:Ha.
  2:{ unfold completeEvent in H. rewrite Ha in H. by injection H. }
  apply truthy_authenticated in Ha.
  destruct (own_event st this id) as [d|] eqn:Hown.
  2:{ rewrite completeEvent_not_found in H by done. by injection H. }
  apply own_event_Some in Hown as (props & Hp & Ho & ->); [|done].
  destruct (truthy (props !! "isCompleted")) eqn:Hc.
  { rewrite (completeEvent_already_completed h this id notes st (document id props)) in H.
    - by injection H.
    - done.
    - apply own_event_Some; eauto.
    - by rewrite document_lookup_ne. }
  rewrite (completeEvent_run h this id notes st props) in H by done.
  repeat case_match; by simplify_eq.
Qed.

Lemma deleteEvent_inv this id st b st' :
  deleteEvent this id st = (Return b, st') ->
  authenticated this
  /\ b = true
  /\ (exists props, events st !! id = Some props
                    /\ props !! "ownerId" = this_userId this)
  /\ st' = {| events := delete id (events st);
              fish := fish st;
              journal := journal st ++ [Removed id] |}.
Proof.
  intros H.
  destruct (truthy (this_userId this)) eqn:Ha.
  2:{ unfold deleteEvent in H. by rewrite Ha in H. }
  apply truthy_authenticated in Ha.
  destruct (own_event st this id) as [d|] eqn:Hown.
  2:{ by rewrite deleteEvent_not_found in H. }
  apply own_event_Some in Hown as (props & Hp & Ho & ->); [|done].
  rewrite (deleteEvent_run this id st props) in H by done.
  injection H as <- <-. eauto 10.
Qed.

Lemma completeEvent_inv h this id notes st b st' :
  completeEvent h this id notes st = (Return b, st') ->
  authenticated this
  /\ exists props,
       events st !! id = Some props
       /\ props !! "ownerId" = this_userId this
       /\ truthy (props !! "isCompleted") = false.
Proof.
  intros H.
  destruct (truthy (this_userId this)) eqn:Ha.
  2:{ unfold completeEvent in H. by rewrite Ha in H. }
  apply truthy_authenticated in Ha.
  destruct (own_event st this id) as [d|] eqn:Hown.
  2:{ by rewrite completeEvent_not_found in H. }
  apply own_event_Some in Hown as (props & Hp & Ho & ->); [|done].
  destruct (truthy (props !! "isCompleted")) eqn:Hc; [|eauto 10].
  rewrite (completeEvent_already_completed h this id notes st (document id props)) in H.
  - done.
  - done.
  - apply own_event_Some; eauto.
  - by rewrite document_lookup_ne.
Qed.

(** [X1] Every call writes at most once, and a call that throws has
    written nothing: whatever the caller, the arguments and the store,
    insert, update, delete and complete add at most one write to the
    journal, and when they end with an error the two collections and the
    journal are as before the call (a completion that comes to spawn the
    next occurrence throws on that insertion, before its update);
    getStats never writes.  A write that the store accepts is taken to
    succeed. *)
Theorem X1_failed_call_writes_nothing h this id payload notes st :
  (forall e st', insertEvent h this payload st = (Throw e, st') -> st' = st)
  /\ (forall e st', updateEvent h this id payload st = (Throw e, st') -> st' = st)
  /\ (forall e st', deleteEvent this id st = (Throw e, st') -> st' = st)
  /\ (forall e st', completeEvent h this id notes st = (Throw e, st') -> st' = st)
  /\ (forall o st', getEventStats h this st = (o, st') -> st' = st)
  /\ at_most_one_write st (insertEvent h this payload st).2
  /\ at_most_one_write st (updateEvent h this id payload st).2
  /\ at_most_one_write st (deleteEvent this id st).2
  /\ at_most_one_write st (completeEvent h this id notes st).2.
Proof.
  assert (H0 : at_most_one_write st st).
  { exists []. split; [by rewrite app_nil_r|simpl; lia]. }
  assert (H1 : forall w evs,
             at_most_one_write st {| events := evs; fish := fish st;
                                     journal := journal st ++ [w] |}).
  { intros w evs. exists [w]. split; [done|simpl; lia]. }
  split_and!.
  - intros ? ?. apply atomic_insertEvent.
  - intros ? ?. apply atomic_updateEvent.
  - intros ? ?. apply atomic_deleteEvent.
  - intros ? ?. apply atomic_completeEvent.
  - intros ? ?. apply readonly_getEventStats.
  - destruct (insertEvent h this payload st) as [[i|e] st'] eqn:E.
    + apply insertEvent_inv in E as (_ & _ & _ & _ & _ & ->). apply H1.
    + by apply atomic_insertEvent in E as ->.
  - destruct (updateEvent h this id payload st) as [[b|e] st'] eqn:E.
    + apply updateEvent_inv in E as (old & _ & _ & _ & _ & _ & _ & _ & ->). apply H1.
    + by apply atomic_updateEvent in E as ->.
  - destruct (deleteEvent this id st) as [[b|e] st'] eqn:E.
    + apply deleteEvent_inv in E as (_ & _ & _ & ->). apply H1.
    + by apply atomic_deleteEvent in E as ->.
  - destruct (completeEvent h this id notes st) as [[b|e] st'] eqn:E.
    + pose proof E as E'.
      apply completeEvent_inv in E' as (Ha & old & Ho & Hown & Hc).
      rewrite (completeEvent_run h this id notes st old) in E by done.
      destruct (_ && _); [done|]. injection E as _ <-. apply H1.
    + by apply atomic_completeEvent in E as ->.
Qed.

(** [X2] Without a login (no userId, or the empty one) each of the five
    methods throws not-authorized before it looks at its arguments or at
    the store, and writes nothing. *)
Theorem X2_anonymous_calls_are_refused h this id payload notes st :
  ~ authenticated this ->
  (exists reason,
      insertEvent h this payload st = (Throw (MeteorError "not-authorized" reason), st))
  /\ (exists reason,
        updateEvent h this id payload st
        = (Throw (MeteorError "not-authorized" reason), st))
  /\ (exists reason,
        deleteEvent this id st = (Throw (MeteorError "not-authorized" reason), st))
  /\ (exists reason,
        completeEvent h this id notes st
        = (Throw (MeteorError "not-authorized" reason), st))
  /\ (exists reason,
        getEventStats h this st = (Throw (MeteorError "not-authorized" reason), st)).
Proof.
  intros Hno.
  assert (Ha : truthy (this_userId this) = false).
  { destruct (truthy (this_userId this)) eqn:E; [|done].
    by apply truthy_authenticated in E. }
  unfold insertEvent, updateEvent, deleteEvent, completeEvent, getEventStats.
  rewrite Ha. cbn [negb]. split_and!; eexists; reflexivity.
Qed.

Lemma X2_anonymous_calls_are_refused_witness :
  (deleteEvent {| userId := Some EmptyString; now := Scenario.t_call2; randomId := "e2" |}
     "e1" Scenario.one_event).2 = Scenario.one_event.
Proof.
  destruct (X2_anonymous_calls_are_refused Scenario.host
              {| userId := Some EmptyString; now := Scenario.t_call2; randomId := "e2" |}
              "e1" Scenario.change_owner EmptyString Scenario.one_event)
    as (_ & _ & [reason E] & _).
  - intros (u & [= <-] & Hu). by apply Hu.
  - rewrite E. reflexivity.
Defined.

(** [X3] No call changes an event of another account: an event whose
    ownerId is not the caller's userId is stored unchanged after insert,
    update, delete and complete, whatever their arguments and their
    outcome; and no call changes the fish collection. *)
Theorem X3_foreign_events_are_untouched h this st other props :
  events st !! other = Some props ->
  props !! "ownerId" <> this_userId this ->
  (forall payload,
      let r := insertEvent h this payload st in
      events r.2 !! other = Some props /\ fish r.2 = fish st)
  /\ (forall id payload,
        let r := updateEvent h this id payload st in
        events r.2 !! other = Some props /\ fish r.2 = fish st)
  /\ (forall id,
        let r := deleteEvent this id st in
        events r.2 !! other = Some props /\ fish r.2 = fish st)
  /\ (forall id notes,
        let r := completeEvent h this id notes st in
        events r.2 !! other = Some props /\ fish r.2 = fish st).
Proof.
  intros Hp Hforeign. split_and!; intros; subst r.
  - destruct (insertEvent h this payload st) as [[id|e] st'] eqn:E.
    + apply insertEvent_inv in E as (_ & _ & _ & _ & Hfree & ->). cbn [snd events fish].
      split; [|done]. rewrite lookup_insert_ne; [done|congruence].
    + by apply atomic_insertEvent in E as ->.
  - destruct (updateEvent h this id payload st) as [[b|e] st'] eqn:E.
    + apply updateEvent_inv in E as (old & _ & Ho & Hown & _ & _ & _ & _ & ->).
      cbn [snd events fish]. split; [|done].
      rewrite lookup_insert_ne; [done|congruence].
    + by apply atomic_updateEvent in E as ->.
  - destruct (deleteEvent this id st) as [[b|e] st'] eqn:E.
    + apply deleteEvent_inv in E as (_ & _ & (old & Ho & Hown) & ->).
      cbn [snd events fish]. split; [|done].
      rewrite lookup_delete_ne; [done|congruence].
    + by apply atomic_deleteEvent in E as ->.
  - destruct (completeEvent h this id notes st) as [[b|e] st'] eqn:E.
    + pose proof E as E'.
      apply completeEvent_inv in E' as (Ha & old & Ho & Hown & Hc).
      rewrite (completeEvent_run h this id notes st old) in E by done.
      assert (other <> id) by congruence.
      destruct (_ && _); [done|].
      injection E as _ <-. cbn [snd events fish]. split; [|done].
      by rewrite lookup_insert_ne.
    + by apply atomic_completeEvent in E as ->.
Qed.

Lemma X3_foreign_events_are_untouched_witness :
  events (deleteEvent (Scenario.bob Scenario.t_call2 "e2") "e1" Scenario.one_event).2
    !! "e1" = Some Scenario.daily_feeding.
Proof.
  refine (proj1 (proj1 (proj2 (proj2 (X3_foreign_events_are_untouched Scenario.host
            (Scenario.bob Scenario.t_call2 "e2") Scenario.one_event "e1"
            Scenario.daily_feeding _ _))) "e1")).
  - reflexivity.
  - discriminate.
Defined.

(** *** Insertion, completion and deletion together *)

Ltac lookup_inserted :=
  rewrite ?lookup_insert_ne by done; rewrite ?lookup_insert_eq; try done.

Lemma this_userId_ext c1 c2 : userId c1 = userId c2 -> this_userId c1 = this_userId c2.
Proof. unfold this_userId. by intros ->. Qed.

Lemma authenticated_ext c1 c2 : userId c1 = userId c2 -> authenticated c2 -> authenticated c1.
Proof. unfold authenticated. by intros ->. Qed.

Lemma inserted_props_owner h this d :
  inserted_props h this d !! "ownerId" = this_userId this.
Proof. unfold inserted_props. lookup_inserted. Qed.

Lemma inserted_props_isCompleted h this d :
  inserted_props h this d !! "isCompleted" = Some (VBool false).
Proof. unfold inserted_props. lookup_inserted. Qed.

Lemma completed_with_owner this notes props :
  completed_with this notes props !! "ownerId" = props !! "ownerId".
Proof.
  unfold completed_with, completion. apply lookup_union_r. by lookup_inserted.
Qed.

Lemma completed_with_isCompleted this notes props :
  completed_with this notes props !! "isCompleted" = Some (VBool true).
Proof.
  unfold completed_with, completion. apply lookup_union_Some_l. by lookup_inserted.
Qed.

(** What a successful completion leaves under the identifier. *)
Lemma completeEvent_completed h this id notes st b st' props :
  completeEvent h this id notes st = (Return b, st') ->
  events st !! id = Some props ->
  b = true /\ events st' !! id = Some (completed_with this notes props).
Proof.
  intros E Hp. pose proof E as E'.
  apply completeEvent_inv in E' as (Ha & old & Ho & Hown & Hc).
  assert (old = props) as -> by congruence.
  rewrite (completeEvent_run h this id notes st props) in E by done.
  destruct (_ && _); [done|].
  injection E as <- <-. split; [done|]. apply lookup_insert_eq.
Qed.

(** What the validation accepts as a recurrence is a rule, and insert
    stores a next occurrence for it. *)
Lemma valid_recurrence h d :
  isValid (validateEventData h d) = true ->
  truthy (d !! "recurrence") = true ->
  includes EVENT_RECURRENCES (d !! "recurrence") = true.
Proof.
  intros Hvalid Tr. rewrite ValidationFacts.validateEventData_isValid in Hvalid.
  unfold enforced, rule_list in Hvalid. cbn [forallb violated] in Hvalid.
  rewrite Tr in Hvalid. repeat (apply andb_prop in Hvalid as [? Hvalid]).
  match goal with
  | H : negb (true && negb ?x) = true |- ?x = true => by destruct x
  end.
Qed.

Lemma inserted_props_recurring h this d :
  isValid (validateEventData h d) = true ->
  truthy (inserted_props h this d !! "recurrence")
  && truthy (inserted_props h this d !! "nextOccurrence")
  = truthy (d !! "recurrence").
Proof.
  intros Hvalid.
  assert (E1 : inserted_props h this d !! "recurrence"
               = Some (or_default (d !! "recurrence") VNull))
    by (unfold inserted_props; lookup_inserted).
  assert (E2 : inserted_props h this d !! "nextOccurrence"
               = Some (if truthy (d !! "recurrence")
                       then calculateNextOccurrence h (d !! "scheduledAt")
                                                    (d !! "recurrence")
                       else VNull))
    by (unfold inserted_props; lookup_inserted).
  rewrite E1, E2. clear E1 E2.
  destruct (truthy (d !! "recurrence")) eqn:Tr.
  - destruct (includes_recurrence_next h (d !! "scheduledAt") _
                (valid_recurrence h d Hvalid Tr)) as [tv ->].
    unfold or_default. destruct (d !! "recurrence") as [r|]; [|done].
    rewrite Tr. cbv iota. by rewrite Tr.
  - unfold or_default. destruct (d !! "recurrence") as [r|]; [|done].
    by rewrite Tr.
Qed.

(** [X4] Deleting an event of the caller returns true after one write,
    the removal of that event; and the deletion undoes an insertion: after
    a successful insert, the deletion of the new identifier by the same
    account succeeds and the events are those from before the insert. *)
Theorem X4_delete_undoes_insert h this st :
  authenticated this ->
  (forall id props,
      events st !! id = Some props -> props !! "ownerId" = this_userId this ->
      deleteEvent this id st
      = (Return true, {| events := delete id (events st);
                         fish := fish st;
                         journal := journal st ++ [Removed id] |}))
  /\ (forall payload id st1 later,
        insertEvent h this payload st = (Return id, st1) ->
        userId later = userId this ->
        exists doc st2,
          deleteEvent later id st1 = (Return true, st2)
          /\ events st2 = events st
          /\ fish st2 = fish st
          /\ journal st2 = journal st ++ [Inserted id doc; Removed id]).
Proof.
  intros Ha. split.
  - intros id props Hp Ho. by apply deleteEvent_run with (props := props).
  - intros payload id st1 later E Hu.
    apply insertEvent_inv in E as (_ & _ & _ & _ & Hfree & ->).
    eexists _, _. split.
    + apply deleteEvent_run with (props := inserted_props h this payload).
      * by apply (authenticated_ext _ this).
      * apply lookup_insert_eq.
      * rewrite inserted_props_owner. symmetry. by apply this_userId_ext.
    + cbn [events fish journal]. split_and!; [|done|by rewrite <- app_assoc].
      rewrite delete_insert_eq. by apply delete_id.
Qed.

Lemma X4_delete_undoes_insert_witness :
  (deleteEvent (Scenario.alice Scenario.t_call2 "e2") "e1" Scenario.one_event).1
  = Return true.
Proof.
  destruct (X4_delete_undoes_insert Scenario.host (Scenario.alice Scenario.t_call2 "e2")
              Scenario.one_event (alice_authenticated _ _)) as [E _].
  rewrite (E "e1" Scenario.daily_feeding); reflexivity.
Defined.

(** [X5] An event inserted without a recurrence can be completed
    exactly once: the first completion by its owner returns true, and a
    second one throws already-completed and writes nothing.  An event
    inserted with a recurrence can not be completed at all: the completion
    by its owner throws complete-failed and writes nothing. *)
Theorem X5_inserted_event_completes_once_unless_recurring
    h this c1 c2 payload notes1 notes2 st id st1 :
  insertEvent h this payload st = (Return id, st1) ->
  userId c1 = userId this ->
  userId c2 = userId this ->
  if truthy (payload !! "recurrence")
  then completeEvent h c1 id notes1 st1 = (Throw complete_failed, st1)
  else exists st2,
         completeEvent h c1 id notes1 st1 = (Return true, st2)
         /\ completeEvent h c2 id notes2 st2 = (Throw already_completed, st2).
Proof.
  intros E H1 H2.
  apply insertEvent_inv in E as (Ha & Hvalid & _ & _ & Hfree & ->).
  pose proof (inserted_props_recurring h this payload Hvalid) as Hrec.
  set (props := inserted_props h this payload) in *.
  set (st1 := {| events := <[id:=props]> (events st) |}) in *.
  assert (Hp : events st1 !! id = Some props) by apply lookup_insert_eq.
  assert (Ho : props !! "ownerId" = this_userId c1).
  { unfold props. rewrite inserted_props_owner. symmetry. by apply this_userId_ext. }
  assert (Ha1 : authenticated c1) by (by apply (authenticated_ext _ this)).
  assert (Ha2 : authenticated c2) by (by apply (authenticated_ext _ this)).
  assert (Hc : truthy (props !! "isCompleted") = false).
  { unfold props. by rewrite inserted_props_isCompleted. }
  pose proof (completeEvent_run h c1 id notes1 st1 props Ha1 Hp Ho Hc) as E.
  rewrite Hrec in E.
  destruct (truthy (payload !! "recurrence")); [done|].
  eexists. split; [exact E|].
  destruct (completeEvent_completed _ _ _ _ _ _ _ _ E Hp) as [_ Hp2].
  apply completeEvent_already_completed with (ev := document id (completed_with c1 notes1 props)).
  - done.
  - apply own_event_Some; [done|]. eexists. split; [done|]. split; [|done].
    rewrite completed_with_owner, Ho. apply this_userId_ext. congruence.
  - rewrite document_lookup_ne by done. by rewrite completed_with_isCompleted.
Qed.

Lemma X5_inserted_event_completes_once_unless_recurring_witness :
  completeEvent Scenario.host (Scenario.alice Scenario.t_call2 "e2") "e1" "done"
    (insertEvent Scenario.host (Scenario.alice Scenario.t_call1 "e1")
       Scenario.monthly_feeding Scenario.empty_store).2
  = (Throw complete_failed,
     (insertEvent Scenario.host (Scenario.alice Scenario.t_call1 "e1")
        Scenario.monthly_feeding Scenario.empty_store).2)
  /\ exists st2,
       completeEvent Scenario.host (Scenario.alice Scenario.t_call2 "e2") "e1" "done"
         (insertEvent Scenario.host (Scenario.alice Scenario.t_call1 "e1")
            Scenario.aquarium_with_fish Scenario.empty_store).2 = (Return true, st2)
       /\ completeEvent Scenario.host (Scenario.alice Scenario.t_call2 "e3") "e1" "again"
            st2 = (Throw already_completed, st2).
Proof.
  split.
  - apply (X5_inserted_event_completes_once_unless_recurring Scenario.host
             (Scenario.alice Scenario.t_call1 "e1") _
             (Scenario.alice Scenario.t_call2 "e3") Scenario.monthly_feeding _ "again"
             Scenario.empty_store "e1"); reflexivity.
  - apply (X5_inserted_event_completes_once_unless_recurring Scenario.host
             (Scenario.alice Scenario.t_call1 "e1") _
             (Scenario.alice Scenario.t_call2 "e3") Scenario.aquarium_with_fish _ "again"
             Scenario.empty_store "e1"); reflexivity.
Defined.

(** [X6] Completing an event of the caller that is not completed and is
    not recurring (no recurrence or no nextOccurrence) returns true after a
    single write, the update of the event to isCompleted true, completedAt
    now and the trimmed notes: nothing is inserted and no other event
    changes. *)
Theorem X6_complete_without_recurrence h this id notes st props :
  authenticated this ->
  events st !! id = Some props ->
  props !! "ownerId" = this_userId this ->
  truthy (props !! "isCompleted") = false ->
  truthy (props !! "recurrence") && truthy (props !! "nextOccurrence") = false ->
  completeEvent h this id notes st
  = (Return true,
     {| events := <[id := completed_with this notes props]> (events st);
        fish := fish st;
        journal := journal st ++ [Updated id (completion this notes)] |})
  /\ dom (<[id := completed_with this notes props]> (events st)) = dom (events st).
Proof.
  intros Ha Hp Ho Hc Hr. split.
  - rewrite (completeEvent_run h this id notes st props) by done. by rewrite Hr.
  - rewrite dom_insert_L.
    assert (Hin : id ∈ dom (events st)) by (apply elem_of_dom; eauto).
    apply subseteq_union_1_L, singleton_subseteq_l, Hin.
Qed.

Lemma X6_complete_without_recurrence_witness :
  let this := Scenario.alice Scenario.t_call2 "x" in
  let st := Examples.two_events in
  completeEvent Scenario.host this "e2" " done " st
  = (Return true,
     {| events := <["e2" := completed_with this " done " Examples.water_change]> (events st);
        fish := fish st;
        journal := journal st ++ [Updated "e2" (completion this " done ")] |})
  /\ dom (<["e2" := completed_with this " done " Examples.water_change]> (events st))
     = dom (events st).
Proof.
  apply (X6_complete_without_recurrence Scenario.host (Scenario.alice Scenario.t_call2 "x")
           "e2" " done " Examples.two_events Examples.water_change);
    [apply alice_authenticated|reflexivity..].
Defined.

Lemma set_trimmed_lookup_ne k k' updateData (fields : obj) :
  k' <> k -> set_trimmed k updateData fields !! k' = fields !! k'.
Proof.
  intros Hk. unfold set_trimmed. repeat case_match; try done. by rewrite lookup_insert_ne.
Qed.

Lemma set_trimmed_lookup k updateData (fields : obj) s :
  updateData !! k = Some (VStr s) -> fields !! k = Some (VStr s) ->
  set_trimmed k updateData fields !! k = Some (VStr (trim s)).
Proof.
  intros E F. unfold set_trimmed. rewrite E.
  destruct (String.eqb_spec s EmptyString) as [->|]; [done|]. by rewrite lookup_insert_eq.
Qed.

(** The properties set by an update, one by one. *)
Lemma updated_fields_lookup h this updateData existing k :
  k <> "nextOccurrence"%string -> k <> "updatedAt"%string ->
  updated_fields h this updateData existing !! k
  = match updateData !! k with
    | Some (VStr s) =>
        if bool_decide (k ∈ ["title"; "description"; "notes"]%string)
        then Some (VStr (trim s)) else Some (VStr s)
    | v => v
    end.
Proof.
  intros H1 H2.
  assert (E : updated_fields h this updateData existing !! k
              = set_trimmed "notes" updateData
                  (set_trimmed "description" updateData
                     (set_trimmed "title" updateData
                        (<["updatedAt" := VDate (Some (now this))]> updateData))) !! k).
  { unfold updated_fields. destruct (_ || _); [|done]. by rewrite lookup_insert_ne. }
  rewrite E. clear E.
  assert (B : <["updatedAt" := VDate (Some (now this))]> updateData !! k = updateData !! k)
    by (by rewrite lookup_insert_ne).
  destruct (decide (k = "title"%string)) as [->|Ht].
  { rewrite !set_trimmed_lookup_ne by done.
    destruct (updateData !! "title") as [[| | |s|]|] eqn:Es;
      try (unfold set_trimmed; rewrite Es; by rewrite B).
    by apply set_trimmed_lookup. }
  destruct (decide (k = "description"%string)) as [->|Hd].
  { rewrite set_trimmed_lookup_ne by done.
    destruct (updateData !! "description") as [[| | |s|]|] eqn:Es;
      try (unfold set_trimmed at 1; rewrite Es; rewrite set_trimmed_lookup_ne by done;
           by rewrite B).
    apply set_trimmed_lookup; [done|]. by rewrite set_trimmed_lookup_ne. }
  destruct (decide (k = "notes"%string)) as [->|Hn].
  { destruct (updateData !! "notes") as [[| | |s|]|] eqn:Es;
      try (unfold set_trimmed at 1; rewrite Es; rewrite !set_trimmed_lookup_ne by done;
           by rewrite B).
    apply set_trimmed_lookup; [done|]. by rewrite !set_trimmed_lookup_ne. }
  rewrite !set_trimmed_lookup_ne, B by done.
  rewrite bool_decide_eq_false_2.
  - by destruct (updateData !! k) as [[| | | |]|].
  - rewrite !elem_of_cons, elem_of_nil. tauto.
Qed.




Lemma strict_eq_eq a b : strict_eq a b = true -> a = b.
Proof.
  destruct a as [[|x|x|x|x]|], b as [[|y|y|y|y]|]; simpl; try done.
  - by intros ->%Bool.eqb_prop.
  - by intros ->%Z.eqb_eq.
  - by intros ->%String.eqb_eq.
Qed.

Lemma lookup_owned_is_Some coll id owner :
  is_Some (lookup_owned coll id owner) ->
  exists f doc, id = Some (VStr f) /\ coll !! f = Some doc
                /\ doc !! "ownerId" = owner.
Proof.
  intros [d Hd]. destruct id as [[| | |f|]|]; try done.
  apply lookup_owned_Some in Hd as (doc & Hdoc & Ho & _).
  exists f, doc. split; [done|]. split; [done|]. by apply strict_eq_eq.
Qed.

Lemma inserted_props_lookup h this d k :
  k ∉ ["_id"; "title"; "description"; "notes"; "isCompleted"; "completedAt"; "priority";
       "recurrence"; "nextOccurrence"; "ownerId"; "createdAt"; "updatedAt"]%string ->
  inserted_props h this d !! k = d !! k.
Proof.
  intros Hk. rewrite !not_elem_of_cons in Hk.
  destruct Hk as (? & ? & ? & ? & ? & ? & ? & ? & ? & ? & ? & ? & _).
  unfold inserted_props. rewrite !lookup_insert_ne by done. by rewrite lookup_delete_ne.
Qed.

Ltac not_listed := rewrite !not_elem_of_cons; split_and!; [done..|apply not_elem_of_nil].

(** [X9] The fish of an event is checked when a call names it for a
    fish event.  When an insert with targetType fish succeeds, fishId
    names a fish that the store holds for the caller, and that identifier
    is what is stored; when an update that gives the event another fishId
    succeeds, the new fishId names a fish of the caller and is what is
    stored.  That check is all there is: an insert with targetType
    aquarium stores the fishId of its payload unchecked, and an update
    that only sets targetType to fish keeps it, so that an event of alice
    comes to be a fish event on a fish of bob. *)
Theorem X9_fish_is_checked_when_named h this st :
  (forall payload id st',
      insertEvent h this payload st = (Return id, st') ->
      payload !! "targetType" = Some (VStr "fish") ->
      exists f doc,
        payload !! "fishId" = Some (VStr f)
        /\ fish st !! f = Some doc
        /\ doc !! "ownerId" = this_userId this
        /\ events st' !! id ≫= (.!! "fishId") = Some (VStr f))
  /\ (forall id payload b st' old,
        updateEvent h this id payload st = (Return b, st') ->
        events st !! id = Some old ->
        truthy (payload !! "fishId") = true ->
        payload !! "fishId" <> old !! "fishId" ->
        exists f doc,
          payload !! "fishId" = Some (VStr f)
          /\ fish st !! f = Some doc
          /\ doc !! "ownerId" = this_userId this
          /\ events st' !! id ≫= (.!! "fishId") = Some (VStr f))
  /\ (let inserted :=
        insertEvent Scenario.host (Scenario.alice Scenario.t_call1 "e1")
          Examples.cleaning_naming_f2 Examples.two_owners in
      let updated :=
        updateEvent Scenario.host (Scenario.alice Scenario.t_call2 "x") "e1"
          Examples.retarget_fish inserted.2 in
      inserted.1 = Return "e1"%string
      /\ updated.1 = Return true
      /\ events updated.2 !! "e1" ≫= (.!! "ownerId") = Some (VStr "alice")
      /\ events updated.2 !! "e1" ≫= (.!! "targetType") = Some (VStr "fish")
      /\ events updated.2 !! "e1" ≫= (.!! "fishId") = Some (VStr "f2")
      /\ fish updated.2 !! "f2" ≫= (.!! "ownerId") = Some (VStr "bob")).
Proof.
  split_and!.
  - intros payload id st' E Ht.
    apply insertEvent_inv in E as (_ & _ & Hfish & _ & _ & ->).
    destruct (lookup_owned_is_Some _ _ _ (Hfish ltac:(by rewrite Ht)))
      as (f & doc & Ef & Hdoc & Ho).
    exists f, doc. split_and!; try done. cbn [events].
    rewrite lookup_insert_eq. cbn [mbind option_bind].
    rewrite inserted_props_lookup by not_listed. done.
  - intros id payload b st' old E Hold Ht Hne.
    apply updateEvent_inv in E as (old' & _ & Hp & _ & Hfish & _ & _ & _ & ->).
    assert (old' = old) as -> by congruence.
    assert (Hs : strict_eq (payload !! "fishId") (old !! "fishId") = false).
    { destruct (strict_eq _ _) eqn:S; [|done]. by apply strict_eq_eq in S. }
    destruct (lookup_owned_is_Some _ _ _ (Hfish Ht Hs)) as (f & doc & Ef & Hdoc & Ho).
    exists f, doc. split_and!; try done. cbn [events].
    rewrite lookup_insert_eq. cbn [mbind option_bind].
    apply lookup_union_Some_l. rewrite lookup_delete_ne by done.
    rewrite updated_fields_lookup, Ef by done. done.
  - cbv zeta. split_and!; vm_compute; reflexivity.
Qed.

Lemma X9_fish_is_checked_when_named_witness :
  exists doc,
    fish Scenario.empty_store !! "f1" = Some doc
    /\ doc !! "ownerId" = Some (VStr "alice").
Proof.
  destruct (proj1 (X9_fish_is_checked_when_named Scenario.host
                     (Scenario.alice Scenario.t_call1 "e1") Scenario.empty_store)
              Scenario.monthly_feeding "e1"
              (insertEvent Scenario.host (Scenario.alice Scenario.t_call1 "e1")
                 Scenario.monthly_feeding Scenario.empty_store).2 eq_refl eq_refl)
    as (f & doc & Ef & Hdoc & Ho & _).
  injection Ef as <-. by exists doc.
Defined.

(** *** Trimming *)


Lemma trimStart_clean s : starts_clean (trimStart s).
Proof.
  induction s as [|c s IH]; simpl; [done|].
  destruct (is_space c) eqn:E; [done|]. by simpl.
Qed.

Lemma trimStart_id s : starts_clean s -> trimStart s = s.
Proof. destruct s as [|c s]; simpl; [done|]. by intros ->. Qed.

Lemma trimEnd_clean s : starts_clean s -> starts_clean (trimEnd s).
Proof.
  destruct s as [|c s]; simpl; [done|]. intros Hc.
  destruct (trimEnd s); simpl; by rewrite ?Hc.
Qed.

Lemma trimEnd_idemp s : trimEnd (trimEnd s) = trimEnd s.
Proof.
  induction s as [|c s IH]; simpl; [done|].
  destruct (trimEnd s) as [|c' t] eqn:E.
  - destruct (is_space c) eqn:Ec; simpl; [done|]. by rewrite Ec.
  - simpl. simpl in IH. rewrite IH. done.
Qed.

Lemma trim_idemp s : trim (trim s) = trim s.
Proof.
  unfold trim. rewrite (trimStart_id (trimEnd _)).
  - apply trimEnd_idemp.
  - apply trimEnd_clean, trimStart_clean.
Qed.

Lemma trimStart_length s : (String.length (trimStart s) <= String.length s)%nat.
Proof. induction s as [|c s IH]; simpl; [done|]. destruct (is_space c); simpl; lia. Qed.

Lemma trimEnd_length s : (String.length (trimEnd s) <= String.length s)%nat.
Proof.
  induction s as [|c s IH]; simpl; [done|].
  destruct (trimEnd s); [destruct (is_space c)|]; simpl in *; lia.
Qed.

Lemma trim_length s : strlen (trim s) <= strlen s.
Proof.
  unfold strlen, trim. pose proof (trimStart_length s).
  pose proof (trimEnd_length (trimStart s)). lia.
Qed.

Lemma strlen_empty s : strlen s = 0 <-> s = EmptyString.
Proof. unfold strlen. destruct s; simpl; split; (done || lia). Qed.

(** *** Validation, rule by rule *)

Lemma valid_rules h d :
  isValid (validateEventData h d) = true ->
  forall r, In r enforced -> violated r h d = false.
Proof.
  rewrite ValidationFacts.validateEventData_isValid, forallb_forall.
  intros H r Hr. specialize (H r Hr). by destruct (violated r h d).
Qed.

Lemma rules_valid h d :
  forallb (fun r => negb (violated r h d)) enforced = true ->
  isValid (validateEventData h d) = true.
Proof. by rewrite ValidationFacts.validateEventData_isValid. Qed.

Lemma or_default_includes names v dflt :
  forallb (fun s => negb (String.eqb s EmptyString)) names = true ->
  truthy v && negb (includes names v) = false ->
  includes names (Some dflt) = true ->
  includes names (Some (or_default v dflt)) = true.
Proof.
  intros Hn Hv Hd. unfold or_default. destruct v as [x|]; [|done].
  destruct (truthy (Some x)); [|done]. by destruct (includes names (Some x)).
Qed.

Lemma trimmed_or_empty_short v n :
  nonempty_string v && (n <? length_of v) = false ->
  nonempty_string (Some (trimmed_or_empty v))
  && (n <? length_of (Some (trimmed_or_empty v))) = false.
Proof.
  destruct v as [[| | |s|]|]; simpl; try done.
  destruct (String.eqb_spec s EmptyString) as [->|Hs]; simpl; [done|].
  intros H%Z.ltb_ge. apply andb_false_iff. right. apply Z.ltb_ge.
  pose proof (trim_length s). lia.
Qed.

(** The stored form of a valid payload is valid. *)
Lemma inserted_props_valid h this d id :
  authenticated this ->
  isValid (validateEventData h d) = true ->
  isValid (validateEventData h (document id (inserted_props h this d))) = true.
Proof.
  intros Ha Hv. pose proof (valid_rules h d Hv) as R.
  apply rules_valid. unfold enforced, rule_list in *.
  assert (K : forall k,
    k ∉ ["_id"; "title"; "description"; "notes"; "isCompleted"; "completedAt";
         "priority"; "recurrence"; "nextOccurrence"; "ownerId"; "createdAt";
         "updatedAt"]%string ->
    document id (inserted_props h this d) !! k = d !! k).
  { intros k Hk. rewrite document_lookup_ne; [by apply inserted_props_lookup|].
    rewrite !not_elem_of_cons in Hk. tauto. }
  assert (P : forall k v, k <> "_id"%string ->
    inserted_props h this d !! k = Some v ->
    document id (inserted_props h this d) !! k = Some v).
  { intros k v Hk E. by rewrite document_lookup_ne. }
  assert (Et : document id (inserted_props h this d) !! "title"
               = Some (trimmed_or_empty (d !! "title"))).
  { apply P; [done|]. unfold inserted_props. by lookup_inserted. }
  assert (Ed : document id (inserted_props h this d) !! "description"
               = Some (trimmed_or_empty (d !! "description"))).
  { apply P; [done|]. unfold inserted_props. by lookup_inserted. }
  assert (En : document id (inserted_props h this d) !! "notes"
               = Some (trimmed_or_empty (d !! "notes"))).
  { apply P; [done|]. unfold inserted_props. by lookup_inserted. }
  assert (Ec : document id (inserted_props h this d) !! "completedAt" = Some VNull).
  { apply P; [done|]. unfold inserted_props. by lookup_inserted. }
  assert (Ep : document id (inserted_props h this d) !! "priority"
               = Some (or_default (d !! "priority") (VStr "medium"))).
  { apply P; [done|]. unfold inserted_props. by lookup_inserted. }
  assert (Er : document id (inserted_props h this d) !! "recurrence"
               = Some (or_default (d !! "recurrence") VNull)).
  { apply P; [done|]. unfold inserted_props. by lookup_inserted. }
  cbn [forallb violated].
  rewrite !(K "targetType"), !(K "fishId"), !(K "type"), !(K "scheduledAt") by not_listed.
  rewrite Et, Ed, En, Ec, Ep, Er.
  pose proof (R _ ltac:(do 0 right; left; reflexivity)) as R1.
  pose proof (R _ ltac:(do 1 right; left; reflexivity)) as R2.
  pose proof (R _ ltac:(do 2 right; left; reflexivity)) as R3.
  pose proof (R _ ltac:(do 3 right; left; reflexivity)) as R4.
  pose proof (R _ ltac:(do 4 right; left; reflexivity)) as R5.
  pose proof (R _ ltac:(do 5 right; left; reflexivity)) as R6.
  pose proof (R _ ltac:(do 6 right; left; reflexivity)) as R7.
  pose proof (R _ ltac:(do 7 right; left; reflexivity)) as R8.
  pose proof (R _ ltac:(do 8 right; left; reflexivity)) as R9.
  pose proof (R _ ltac:(do 9 right; left; reflexivity)) as R10.
  pose proof (R _ ltac:(do 10 right; left; reflexivity)) as R11.
  pose proof (R _ ltac:(do 11 right; left; reflexivity)) as R12.
  pose proof (R _ ltac:(do 12 right; left; reflexivity)) as R13.
  clear R. cbn [violated] in *.
  rewrite R1, R2, R3, R4, R8, R9. cbn [negb andb].
  rewrite (trimmed_or_empty_short _ 500 R12), (trimmed_or_empty_short _ 500 R13).
  (* title *)
  destruct (d !! "title") as [[| | |s|]|] eqn:Es; try done.
  cbn [trimmed_or_empty nonempty_string trimmed_length_of] in *.
  rewrite trim_idemp.
  apply negb_false_iff in R5. rewrite R5 in R6, R7. cbn [andb] in R6, R7.
  rewrite R6, R7, !andb_false_r. cbn [negb andb].
  assert (Hne : String.eqb (trim s) EmptyString = false).
  { destruct (String.eqb_spec (trim s) EmptyString) as [E|]; [|done].
    rewrite E in R6. done. }
  rewrite Hne. cbn [negb andb].
  (* priority, recurrence *)
  assert (Hp : truthy (Some (or_default (d !! "priority") (VStr "medium")))
               && negb (includes EVENT_PRIORITIES
                          (Some (or_default (d !! "priority") (VStr "medium")))) = false).
  { rewrite (or_default_includes EVENT_PRIORITIES); [by rewrite andb_false_r|done..]. }
  rewrite Hp. cbn [negb andb].
  assert (Hr : truthy (Some (or_default (d !! "recurrence") VNull))
               && negb (includes EVENT_RECURRENCES
                          (Some (or_default (d !! "recurrence") VNull))) = false).
  { unfold or_default. destruct (d !! "recurrence") as [x|] eqn:Ex; [|done].
    destruct (truthy (Some x)) eqn:Tx; [|done]. cbn [andb] in R11. by rewrite Tx. }
  rewrite Hr. cbn [negb andb].
  done.
Qed.

Lemma updateEvent_touch h this id st props :
  authenticated this -> events st !! id = Some props ->
  props !! "ownerId" = this_userId this ->
  isValid (validateEventData h (document id props)) = true ->
  updateEvent h this id ∅ st
  = (Return true,
     {| events := <[id := <["updatedAt" := VDate (Some (now this))]> props]> (events st);
        fish := fish st;
        journal := journal st ++ [Updated id {[ "updatedAt" := VDate (Some (now this)) ]}] |}).
Proof.
  intros Ha Hp Ho Hv.
  assert (Hown : own_event st this id = Some (document id props)).
  { apply own_event_Some; eauto. }
  unfold updateEvent. rewrite (authenticated_truthy _ Ha). cbn [negb].
  unfold try_catch, bind at 1, EventsCollection_findOneAsync.
  unfold own_event in Hown. rewrite Hown. cbv beta iota.
  rewrite !lookup_empty. cbn [truthy andb orb is_lit strict_eq].
  rewrite (left_id_L ∅ (∪)), Hv. cbn [negb].
  unfold bind, ret, EventsCollection_updateAsync. cbv zeta. rewrite Hp.
  cbn [assign foldl prop fst snd]. stored.
  rewrite bool_decide_eq_true_2 by (left; by rewrite lookup_insert_ne).
  rewrite delete_id by (by rewrite lookup_insert_ne).
  rewrite insert_empty, <- insert_union_singleton_l. done.
Qed.

Lemma updateEvent_invalid h this id payload st props :
  authenticated this -> events st !! id = Some props ->
  props !! "ownerId" = this_userId this ->
  truthy (payload !! "fishId") = false ->
  is_lit (payload !! "targetType") "fish" = false ->
  isValid (validateEventData h (payload ∪ document id props)) = false ->
  updateEvent h this id payload st
  = (Throw (validation_error (validateEventData h (payload ∪ document id props))), st).
Proof.
  intros Ha Hp Ho Hf Ht Hv.
  assert (Hown : own_event st this id = Some (document id props)).
  { apply own_event_Some; eauto. }
  unfold updateEvent. rewrite (authenticated_truthy _ Ha). cbn [negb].
  unfold try_catch, bind at 1, EventsCollection_findOneAsync.
  unfold own_event in Hown. rewrite Hown. cbv beta iota.
  rewrite Hf, Ht, Hv. cbn [negb andb]. reflexivity.
Qed.

(** [X10] What insert stores passes the validation again: the document
    persisted by a successful insert is valid, so that its owner can
    update it; an update with an empty payload returns true and changes
    updatedAt only. *)
Theorem X10_inserted_event_is_valid h this payload st id st1 :
  insertEvent h this payload st = (Return id, st1) ->
  exists props,
    events st1 !! id = Some props
    /\ isValid (validateEventData h (document id props)) = true
    /\ forall later,
         userId later = userId this ->
         updateEvent h later id ∅ st1
         = (Return true,
            {| events := <[id := <["updatedAt" := VDate (Some (now later))]> props]>
                           (events st1);
               fish := fish st1;
               journal := journal st1
                          ++ [Updated id {[ "updatedAt" := VDate (Some (now later)) ]}] |}).
Proof.
  intros E.
  apply insertEvent_inv in E as (Ha & Hv & _ & _ & _ & ->).
  exists (inserted_props h this payload). cbn [events].
  split; [apply lookup_insert_eq|].
  pose proof (inserted_props_valid h this payload id Ha Hv) as Hv'.
  split; [done|]. intros later Hu.
  apply updateEvent_touch.
  - by apply (authenticated_ext _ this).
  - apply lookup_insert_eq.
  - rewrite inserted_props_owner. symmetry. by apply this_userId_ext.
  - done.
Qed.

Lemma X10_inserted_event_is_valid_witness :
  (updateEvent Scenario.host (Scenario.alice Scenario.t_call2 "e2") "e1" ∅
     (insertEvent Scenario.host (Scenario.alice Scenario.t_call1 "e1")
        Scenario.monthly_feeding Scenario.empty_store).2).1 = Return true.
Proof.
  destruct (X10_inserted_event_is_valid Scenario.host (Scenario.alice Scenario.t_call1 "e1")
              Scenario.monthly_feeding Scenario.empty_store "e1"
              (insertEvent Scenario.host (Scenario.alice Scenario.t_call1 "e1")
                 Scenario.monthly_feeding Scenario.empty_store).2 eq_refl)
    as (props & _ & _ & E).
  rewrite (E (Scenario.alice Scenario.t_call2 "e2") eq_refl). reflexivity.
Defined.

Lemma completed_with_lookup this notes props k :
  k ∉ ["isCompleted"; "completedAt"; "notes"; "updatedAt"]%string ->
  completed_with this notes props !! k = props !! k.
Proof.
  intros Hk. rewrite !not_elem_of_cons in Hk. destruct Hk as (? & ? & ? & ? & _).
  unfold completed_with, completion. apply lookup_union_r. by lookup_inserted.
Qed.

Lemma completed_with_completedAt this notes props :
  completed_with this notes props !! "completedAt" = Some (VDate (Some (now this))).
Proof.
  unfold completed_with, completion. apply lookup_union_Some_l. by lookup_inserted.
Qed.

(** [X11] An event that was completed before its scheduled time can no
    longer be updated.  After a completion at an instant before
    scheduledAt, every update whose payload carries neither scheduledAt
    nor completedAt throws and writes nothing, whoever calls; for the owner
    and a payload that does not touch fishId or targetType, what is thrown
    is the validation error, with the message on the date of completion
    among its messages. *)
Theorem X11_early_completion_blocks_updates h c1 this id notes st st1 props s payload :
  completeEvent h c1 id notes st = (Return true, st1) ->
  events st !! id = Some props ->
  props !! "scheduledAt" = Some (VDate (Some s)) ->
  now c1 < s ->
  payload !! "scheduledAt" = None ->
  payload !! "completedAt" = None ->
  (exists e, updateEvent h this id payload st1 = (Throw e, st1))
  /\ (userId this = userId c1 ->
      truthy (payload !! "fishId") = false ->
      is_lit (payload !! "targetType") "fish" = false ->
      exists v,
        updateEvent h this id payload st1 = (Throw (validation_error v), st1)
        /\ In msg_completedAt (errors v)).
Proof.
  intros E Hp Hs Hlt Hps Hpc.
  destruct (completeEvent_completed _ _ _ _ _ _ _ _ E Hp) as [_ Hp1].
  apply completeEvent_inv in E as (Ha1 & old & Hold & Ho & _).
  assert (old = props) as -> by congruence. clear Hold.
  set (stored := completed_with c1 notes props) in *.
  assert (Hbad : forall d : obj,
            d !! "completedAt" = Some (VDate (Some (now c1))) ->
            d !! "scheduledAt" = Some (VDate (Some s)) ->
            In msg_completedAt (errors (validateEventData h d))).
  { intros d Hc Hd. rewrite ValidationFacts.validateEventData_errors.
    unfold violations, messages, enforced, rule_list. rewrite !ValidationFacts.violations_cons.
    cbn [violated message]. rewrite Hc, Hd. cbn [truthy andb JS.lt ToNumber].
    apply Z.ltb_lt in Hlt. rewrite Hlt. cbn [seg].
    rewrite !in_app_iff. simpl. tauto. }
  assert (Hmerged : In msg_completedAt
            (errors (validateEventData h (payload ∪ document id stored)))).
  { apply Hbad.
    - rewrite lookup_union_r by done. rewrite document_lookup_ne by done.
      apply completed_with_completedAt.
    - rewrite lookup_union_r by done. rewrite document_lookup_ne by done.
      unfold stored. rewrite completed_with_lookup by not_listed. done. }
  pose proof (invalid_of_error _ _ _ Hmerged) as Hinv.
  split.
  - destruct (updateEvent h this id payload st1) as [[b|e] st2] eqn:U.
    + apply updateEvent_inv in U as (old & _ & Hold & _ & _ & Hv & _).
      assert (old = stored) as -> by congruence. cbv zeta in Hv. congruence.
    + pose proof (atomic_updateEvent _ _ _ _ _ _ _ U) as ->. eauto.
  - intros Hu Hf Ht. eexists. split; [|exact Hmerged].
    apply updateEvent_invalid; try done.
    + by apply (authenticated_ext _ c1).
    + unfold stored. rewrite completed_with_owner, Ho. symmetry. by apply this_userId_ext.
Qed.

Lemma X11_early_completion_blocks_updates_witness :
  let st1 := (completeEvent Scenario.host (Scenario.alice Scenario.t_call1 "x") "e2"
                "early" Examples.two_events).2 in
  exists v,
    updateEvent Scenario.host (Scenario.alice Scenario.t_call2 "y") "e2"
      Scenario.retarget_aquarium st1 = (Throw (validation_error v), st1)
    /\ In msg_completedAt (errors v).
Proof.
  refine (proj2 (X11_early_completion_blocks_updates Scenario.host
                   (Scenario.alice Scenario.t_call1 "x")
                   (Scenario.alice Scenario.t_call2 "y") "e2" "early"
                   Examples.two_events _ Examples.water_change Scenario.t_jan31
                   Scenario.retarget_aquarium eq_refl eq_refl eq_refl _ eq_refl eq_refl)
            eq_refl eq_refl eq_refl).
  reflexivity.
Defined.

(** *** The steps of a recurrence *)

Lemma calculateNextOccurrence_daily h tv :
  calculateNextOccurrence h (Some (VDate tv)) (Some (VStr "daily"))
  = VDate (tv ≫= fun t => TimeClip (UTC h (LocalTime h t + msPerDay))).
Proof.
  unfold calculateNextOccurrence. simpl (is_lit _ _). cbv iota.
  change (construct h (Some (VDate tv))) with tv.
  destruct tv as [t|]; [|done]. cbn [mbind option_bind].
  by rewrite CalendarFacts.setDate_shift, Z.mul_1_l.
Qed.

Lemma calculateNextOccurrence_weekly h t :
  calculateNextOccurrence h (Some (VDate (Some t))) (Some (VStr "weekly"))
  = VDate (TimeClip (UTC h (LocalTime h t + 7 * msPerDay))).
Proof.
  unfold calculateNextOccurrence. simpl (is_lit _ _). cbv iota.
  change (construct h (Some (VDate (Some t)))) with (Some t).
  by rewrite CalendarFacts.setDate_shift.
Qed.


Lemma daily_steps h tza t (k : nat) :
  fixed_offset h tza ->
  TimeClip t = Some t ->
  Nat.iter k (fun d => calculateNextOccurrence h (Some d) (Some (VStr "daily")))
           (VDate (Some t))
  = VDate (TimeClip (t + Z.of_nat k * msPerDay)).
Proof.
  intros Hf Ht. induction k as [|k IH].
  - simpl. by rewrite Z.add_0_r, Ht.
  - rewrite Nat.iter_succ, IH, calculateNextOccurrence_daily. f_equal.
    unfold TimeClip in *. unfold msPerDay.
    destruct (Z.leb_spec (Z.abs t) 8640000000000000); [|done].
    replace (t + Z.of_nat (S k) * 86400000)
      with (t + Z.of_nat k * 86400000 + 86400000) by lia.
    destruct (Z.leb_spec (Z.abs (t + Z.of_nat k * 86400000)) 8640000000000000);
      cbn [mbind option_bind].
    + by rewrite (CalendarFacts.UTC_LocalTime_fixed h tza).
    + destruct (Z.leb_spec (Z.abs (t + Z.of_nat k * 86400000 + 86400000))
                  8640000000000000); [lia|done].
Qed.


(** [X13] On a host without clock changes seven daily steps are one
    weekly step: from a valid anchor date, applying the daily rule seven
    times in a row gives the date the weekly rule gives (the invalid date
    in both cases when the week leaves the range of time values).  Across
    a clock change they differ: from 2024-03-28T01:30Z in Paris, half past
    two in the morning, the third daily step falls into the hour that the
    clock skips and the steps go on from half past three, so that seven
    of them end an hour after the weekly step. *)
Theorem X13_seven_daily_steps_are_one_weekly :
  (forall h tza t,
      fixed_offset h tza ->
      TimeClip t = Some t ->
      Nat.iter 7 (fun d => calculateNextOccurrence h (Some d) (Some (VStr "daily")))
               (VDate (Some t))
      = calculateNextOccurrence h (Some (VDate (Some t))) (Some (VStr "weekly")))
  /\ Nat.iter 7
       (fun d => calculateNextOccurrence Examples.paris (Some d) (Some (VStr "daily")))
       (VDate (Some Examples.t_mar28))
     = VDate (Some (Examples.t_mar28 + 7 * msPerDay))
  /\ calculateNextOccurrence Examples.paris (Some (VDate (Some Examples.t_mar28)))
       (Some (VStr "weekly"))
     = VDate (Some (Examples.t_mar28 + 7 * msPerDay - 3600000)).
Proof.
  split; [|split; reflexivity].
  intros h tza t Hf Ht.
  rewrite (daily_steps h tza) by done. rewrite calculateNextOccurrence_weekly.
  by rewrite (CalendarFacts.UTC_LocalTime_fixed h tza).
Qed.

Lemma X13_seven_daily_steps_are_one_weekly_witness :
  Nat.iter 7 (fun d => calculateNextOccurrence Scenario.host (Some d) (Some (VStr "daily")))
           (VDate (Some Scenario.t_jan31))
  = VDate (Some (Scenario.t_jan31 + 7 * msPerDay)).
Proof.
  rewrite (proj1 X13_seven_daily_steps_are_one_weekly Scenario.host 0 Scenario.t_jan31).
  - reflexivity.
  - by intros ? ?.
  - reflexivity.
Defined.

(** *** Counting over a store that changes *)

Lemma filter_length_Permutation {A} (p : A -> bool) l1 l2 :
  l1 ≡ₚ l2 -> List.length (List.filter p l1) = List.length (List.filter p l2).
Proof.
  induction 1 as [|x l1 l2 _ IH|x y l|l1 l2 l3 _ IH1 _ IH2]; simpl.
  - done.
  - destruct (p x); simpl; by rewrite IH.
  - destruct (p x), (p y); done.
  - by rewrite IH1.
Qed.


Lemma count_where_empty p : count_where p ∅ = 0.
Proof. unfold count_where. by rewrite map_to_list_empty. Qed.

Lemma count_where_insert p (coll : gmap string obj) i x :
  coll !! i = None ->
  count_where p (<[i := x]> coll) = indicator (p (document i x)) + count_where p coll.
Proof.
  intros Hi. unfold count_where.
  rewrite (filter_length_Permutation _ _ _ (map_to_list_insert coll i x Hi)).
  simpl. unfold indicator. destruct (p (document i x)); simpl; lia.
Qed.

Lemma count_where_delete p (coll : gmap string obj) i x :
  coll !! i = Some x ->
  count_where p coll = indicator (p (document i x)) + count_where p (delete i coll).
Proof.
  intros Hi. rewrite <- (insert_delete_id coll i x Hi) at 1.
  apply count_where_insert, lookup_delete_eq.
Qed.

Lemma count_where_replace p (coll : gmap string obj) i x y :
  coll !! i = Some x ->
  count_where p (<[i := y]> coll)
  = count_where p coll - indicator (p (document i x)) + indicator (p (document i y)).
Proof.
  intros Hi. rewrite (count_where_delete p coll i x Hi).
  rewrite <- (insert_delete_eq coll i y).
  rewrite count_where_insert by apply lookup_delete_eq. lia.
Qed.

(** Documents that a predicate does not select do not count. *)
Lemma count_where_filter p (Q : string * obj -> Prop) `{!forall kv, Decision (Q kv)}
    (coll : gmap string obj) :
  (forall i x, p (document i x) = true -> Q (i, x)) ->
  count_where p (filter Q coll) = count_where p coll.
Proof.
  intros HpQ. induction coll as [|i x coll Hi _ IH] using map_first_key_ind.
  - by rewrite map_filter_empty.
  - rewrite count_where_insert by done.
    destruct (decide (Q (i, x))) as [HQ|HQ].
    + rewrite map_filter_insert_True by done.
      rewrite count_where_insert by (by rewrite map_lookup_filter_None; left).
      by rewrite IH.
    + rewrite map_filter_insert_not' by (done || by intros ? ?; simplify_eq).
      rewrite IH. destruct (p (document i x)) eqn:E; [|done].
      by apply HpQ in E.
Qed.

Lemma matches_owned u sel d :
  matches (("ownerId"%string, Is (VStr u)) :: sel) d = true ->
  d !! "ownerId" = Some (VStr u).
Proof.
  unfold matches. cbn [forallb fst snd holds]. intros H%andb_prop.
  destruct H as [H _]. by apply bool_decide_eq_true in H.
Qed.

Lemma count_own_events u sel (m1 m2 : gmap string obj) :
  (forall id props, props !! "ownerId" = Some (VStr u) ->
                    m1 !! id = Some props <-> m2 !! id = Some props) ->
  count_where (matches (("ownerId"%string, Is (VStr u)) :: sel)) m1
  = count_where (matches (("ownerId"%string, Is (VStr u)) :: sel)) m2.
Proof.
  intros Hsame.
  set (Q := fun kv : string * obj => kv.2 !! "ownerId" = Some (VStr u)).
  assert (HpQ : forall i x,
            matches (("ownerId"%string, Is (VStr u)) :: sel) (document i x) = true ->
            Q (i, x)).
  { intros i x H. apply matches_owned in H. by rewrite document_lookup_ne in H. }
  rewrite <- (count_where_filter _ Q m1 HpQ), <- (count_where_filter _ Q m2 HpQ).
  f_equal. apply map_eq. intros i. apply option_eq. intros x.
  rewrite !map_lookup_filter_Some. unfold Q. simpl. split; intros [H1 H2]; split; try done.
  - by apply Hsame.
  - by apply Hsame.
Qed.

(** [X14] The statistics of an account depend on its own events only:
    two stores that hold the same events of the caller give the same
    answer to getStats, and the same snapshot of the statistics publication
    at the same instant, whatever events of other accounts they hold; an
    authenticated caller without events gets zero everywhere, the rate
    included. *)
Theorem X14_stats_depend_on_own_events_only h this st1 st2 :
  (forall id props,
      props !! "ownerId" = this_userId this ->
      events st1 !! id = Some props <-> events st2 !! id = Some props) ->
  (getEventStats h this st1).1 = (getEventStats h this st2).1
  /\ (forall instant u,
        this_userId this = Some (VStr u) ->
        EventsPublications.calculateStats h instant u st1
        = EventsPublications.calculateStats h instant u st2)
  /\ (authenticated this -> events st2 = ∅ ->
      (getEventStats h this st1).1
      = Return {| total := 0; completed := 0; pending := 0; overdue := 0;
                  today := {| today_total := 0; today_completed := 0;
                              today_remaining := 0 |};
                  completionRate := 0 |}).
Proof.
  intros Hsame.
  assert (Hrun : authenticated this ->
                 (getEventStats h this st1).1 = (getEventStats h this st2).1).
  { intros (u & Eu & Hu).
    rewrite !(getEventStats_run h this u _ Eu Hu). cbv zeta. cbn [fst].
    rewrite (authenticated_userId _ _ Eu) in Hsame.
    by rewrite !(count_own_events u _ (events st1) (events st2) Hsame). }
  split; [|split].
  - destruct (truthy (this_userId this)) eqn:Ha.
    + by apply Hrun, truthy_authenticated.
    + unfold getEventStats. by rewrite Ha.
  - intros instant u Eu. rewrite Eu in Hsame.
    unfold EventsPublications.calculateStats.
    by rewrite !(count_own_events u _ (events st1) (events st2) Hsame).
  - intros Ha Hempty. rewrite (Hrun Ha).
    destruct Ha as (u & Eu & Hu).
    rewrite (getEventStats_run h this u _ Eu Hu). cbv zeta. cbn [fst].
    rewrite Hempty, !count_where_empty. reflexivity.
Qed.

Lemma X14_stats_depend_on_own_events_only_witness :
  (getEventStats Scenario.host (Scenario.bob Scenario.t_call2 "x") Scenario.one_event).1
  = Return {| total := 0; completed := 0; pending := 0; overdue := 0;
              today := {| today_total := 0; today_completed := 0;
                          today_remaining := 0 |};
              completionRate := 0 |}.
Proof.
  refine (proj2 (proj2 (X14_stats_depend_on_own_events_only Scenario.host
                          (Scenario.bob Scenario.t_call2 "x") Scenario.one_event
                          Scenario.empty_store _)) (bob_authenticated _ _) eq_refl).
  intros id props Ho. unfold Scenario.one_event, Scenario.empty_store. cbn [events].
  rewrite lookup_empty. split; [|done].
  intros [_ <-]%lookup_singleton_Some. discriminate.
Defined.

(** [X15] The counters of a snapshot are ordered, whatever the events
    hold: completed and pending together are at most total (events whose
    isCompleted is not a boolean are in neither), overdue is at most
    pending, today.total at most total and today.completed at most
    completed, and none is negative. *)
Theorem X15_stats_counters_are_ordered h this st s st' :
  getEventStats h this st = (Return s, st') ->
  0 <= completed s /\ 0 <= pending s /\ 0 <= overdue s
  /\ 0 <= today_total (today s) /\ 0 <= today_completed (today s)
  /\ completed s + pending s <= total s
  /\ overdue s <= pending s
  /\ today_total (today s) <= total s
  /\ today_completed (today s) <= completed s.
Proof.
  intros E.
  destruct (truthy (this_userId this)) eqn:Ha.
  2:{ unfold getEventStats in E. by rewrite Ha in E. }
  apply truthy_authenticated in Ha as (u & Eu & Hu).
  rewrite (getEventStats_run h this u st Eu Hu) in E. cbv zeta in E.
  injection E as <- <-.
  cbn [total completed pending overdue today today_total today_completed].
  split_and!; try apply count_where_nonneg.
  - rewrite (count_where_split _ _
               (fun d => matches [("ownerId"%string, Is (VStr u));
                                  ("isCompleted"%string, Is (VBool true))] d
                         || matches [("ownerId"%string, Is (VStr u));
                                     ("isCompleted"%string, Is (VBool false))] d)).
    + apply count_where_le. intros i props _.
      rewrite !matches_owner_completed, matches_owner.
      by destruct (owned_by u _).
    + done.
    + intros i props _. rewrite !matches_owner_completed.
      unfold completed_is. destruct (owned_by u _); [|done].
      destruct (document i props !! "isCompleted") as [[|[]| | |]|]; done.
  - apply (today_completed_le [_; _] []).
  - apply count_where_le. intros i props _. unfold matches. cbn [forallb].
    intros H. apply andb_prop in H as [-> _]. done.
  - apply count_where_le. intros i props _. unfold matches. cbn [forallb].
    intros H. apply andb_prop in H as [-> H]. apply andb_prop in H as [-> _]. done.
Qed.

Lemma X15_stats_counters_are_ordered_witness :
  exists s,
    (getEventStats Scenario.host (Scenario.alice Scenario.t_call2 "x")
       Scenario.forty_events).1 = Return s
    /\ completed s + pending s <= total s
    /\ overdue s <= pending s.
Proof.
  destruct (getEventStats Scenario.host (Scenario.alice Scenario.t_call2 "x")
              Scenario.forty_events) as [[s|e] st'] eqn:E.
  - exists s. split; [reflexivity|].
    destruct (X15_stats_counters_are_ordered _ _ _ _ _ E) as (_ & _ & _ & _ & _ & H1 & H2 & _).
    by split.
  - exfalso. revert E. discriminate.
Defined.

Lemma counts_as u (x : obj) i b :
  x !! "ownerId" = Some (VStr u) ->
  x !! "isCompleted" = Some (VBool b) ->
  matches [("ownerId"%string, Is (VStr u))] (document i x) = true
  /\ matches [("ownerId"%string, Is (VStr u)); ("isCompleted"%string, Is (VBool true))]
       (document i x) = b
  /\ matches [("ownerId"%string, Is (VStr u)); ("isCompleted"%string, Is (VBool false))]
       (document i x) = negb b.
Proof.
  intros Ho Hc. rewrite matches_owner, !matches_owner_completed.
  unfold owned_by, completed_is. rewrite !document_lookup_ne by done.
  rewrite Ho, Hc. rewrite bool_decide_eq_true_2 by done. by destruct b.
Qed.

Lemma getEventStats_counts h c st s st' :
  getEventStats h c st = (Return s, st') ->
  exists u,
    this_userId c = Some (VStr u)
    /\ authenticated c
    /\ forall st0 s0 st0',
         getEventStats h c st0 = (Return s0, st0') ->
         total s0 = count_where (matches [("ownerId"%string, Is (VStr u))]) (events st0)
         /\ completed s0
            = count_where (matches [("ownerId"%string, Is (VStr u));
                                    ("isCompleted"%string, Is (VBool true))]) (events st0)
         /\ pending s0
            = count_where (matches [("ownerId"%string, Is (VStr u));
                                    ("isCompleted"%string, Is (VBool false))]) (events st0).
Proof.
  intros E.
  destruct (truthy (this_userId c)) eqn:Ha.
  2:{ unfold getEventStats in E. by rewrite Ha in E. }
  apply truthy_authenticated in Ha. pose proof Ha as (u & Eu & Hu).
  exists u. split; [by apply authenticated_userId|]. split; [done|].
  intros st0 s0 st0' E0.
  rewrite (getEventStats_run h c u st0 Eu Hu) in E0. cbv zeta in E0.
  by injection E0 as <- <-.
Qed.

(** [X16] How the writes move the counters of their account.  A
    successful insert adds one to total and to pending.  A successful
    delete takes one from total, and one from completed or from pending
    according to the isCompleted of the deleted event.  A successful
    completion of an event whose isCompleted is false adds one to
    completed, takes one from pending and keeps total: no completion that
    succeeds adds an event. *)
Theorem X16_writes_move_the_counters h c st s :
  getEventStats h c st = (Return s, st) ->
  (forall this payload id st1 s1,
      userId this = userId c ->
      insertEvent h this payload st = (Return id, st1) ->
      getEventStats h c st1 = (Return s1, st1) ->
      total s1 = total s + 1
      /\ pending s1 = pending s + 1
      /\ completed s1 = completed s)
  /\ (forall this id props done b st1 s1,
        userId this = userId c ->
        events st !! id = Some props ->
        props !! "isCompleted" = Some (VBool done) ->
        deleteEvent this id st = (Return b, st1) ->
        getEventStats h c st1 = (Return s1, st1) ->
        total s1 = total s - 1
        /\ completed s1 = completed s - indicator done
        /\ pending s1 = pending s - indicator (negb done))
  /\ (forall this id notes props b st1 s1,
        userId this = userId c ->
        events st !! id = Some props ->
        props !! "isCompleted" = Some (VBool false) ->
        completeEvent h this id notes st = (Return b, st1) ->
        getEventStats h c st1 = (Return s1, st1) ->
        completed s1 = completed s + 1
        /\ total s1 = total s
        /\ pending s1 = pending s - 1).
Proof.
  intros E. destruct (getEventStats_counts _ _ _ _ _ E) as (u & Eu & Ha & Hcount).
  destruct (Hcount _ _ _ E) as (T0 & C0 & P0).
  split_and!.
  - intros this payload id st1 s1 Hu I E1.
    destruct (Hcount _ _ _ E1) as (T1 & C1 & P1).
    apply insertEvent_inv in I as (_ & _ & _ & _ & Hfree & ->). cbn [events] in *.
    rewrite count_where_insert in T1, C1, P1 by done.
    destruct (counts_as u (inserted_props h this payload) id false) as (M1 & M2 & M3).
    { rewrite inserted_props_owner, <- Eu. by apply this_userId_ext. }
    { apply inserted_props_isCompleted. }
    rewrite M1 in T1. rewrite M2 in C1. rewrite M3 in P1. unfold indicator in *.
    cbn [negb] in *. lia.
  - intros this id props done b st1 s1 Hu Hp Hc D E1.
    destruct (Hcount _ _ _ E1) as (T1 & C1 & P1).
    apply deleteEvent_inv in D as (_ & _ & (old & Hold & Ho) & ->). cbn [events] in *.
    assert (old = props) as -> by congruence.
    destruct (counts_as u props id done) as (M1 & M2 & M3); [|done|].
    { rewrite Ho, <- Eu. by apply this_userId_ext. }
    rewrite (count_where_delete _ _ _ _ Hp) in T0.
    rewrite (count_where_delete _ _ _ _ Hp) in C0.
    rewrite (count_where_delete _ _ _ _ Hp) in P0.
    rewrite M1 in T0. rewrite M2 in C0. rewrite M3 in P0.
    unfold indicator in *. lia.
  - intros this id notes props b st1 s1 Hu Hp Hc Cm E1. cbv zeta.
    destruct (Hcount _ _ _ E1) as (T1 & C1 & P1).
    pose proof Cm as Cm'.
    apply completeEvent_inv in Cm' as (Ha' & old & Hold & Ho & Hf).
    assert (old = props) as -> by congruence.
    rewrite (completeEvent_run h this id notes st props) in Cm by done.
    assert (Hou : props !! "ownerId" = Some (VStr u)).
    { rewrite Ho, <- Eu. by apply this_userId_ext. }
    destruct (counts_as u props id false Hou Hc) as (M1 & M2 & M3).
    destruct (counts_as u (completed_with this notes props) id true) as (N1 & N2 & N3).
    { by rewrite completed_with_owner. }
    { apply completed_with_isCompleted. }
    destruct (truthy (props !! "recurrence") && truthy (props !! "nextOccurrence"));
      [done|].
    injection Cm as _ <-. cbn [events] in *.
    rewrite (count_where_replace _ _ id props) in T1 by done.
    rewrite (count_where_replace _ _ id props) in C1 by done.
    rewrite (count_where_replace _ _ id props) in P1 by done.
    rewrite M1, N1 in T1. rewrite M2, N2 in C1. rewrite M3, N3 in P1.
    unfold indicator in *. cbn [negb] in *. lia.
Qed.

Lemma X16_writes_move_the_counters_witness :
  let this := Scenario.alice Scenario.t_call2 "x" in
  let st1 := (completeEvent Scenario.host this "e2" "done" Examples.two_events).2 in
  let s := {| total := 2; completed := 1; pending := 1; overdue := 1;
              today := {| today_total := 2; today_completed := 1;
                          today_remaining := 1 |};
              completionRate := 50 |} in
  let s1 := {| total := 2; completed := 2; pending := 0; overdue := 0;
               today := {| today_total := 2; today_completed := 2;
                           today_remaining := 0 |};
               completionRate := 100 |} in
  getEventStats Scenario.host this Examples.two_events = (Return s, Examples.two_events)
  /\ getEventStats Scenario.host this st1 = (Return s1, st1)
  /\ completed s1 = completed s + 1
  /\ total s1 = total s
  /\ pending s1 = pending s - 1.
Proof.
  intros this st1 s s1.
  assert (E : getEventStats Scenario.host this Examples.two_events
              = (Return s, Examples.two_events)) by reflexivity.
  assert (E1 : getEventStats Scenario.host this st1 = (Return s1, st1)) by reflexivity.
  split; [exact E|]. split; [exact E1|].
  exact (proj2 (proj2 (X16_writes_move_the_counters Scenario.host this
                         Examples.two_events s E))
           this "e2" "done" Examples.water_change true st1 s1
           eq_refl eq_refl eq_refl eq_refl E1).
Defined.

(** ** Further properties: queries and publications *)

Import EventsQueries Publications.
Import EventsMethods.

Lemma selects_fields (sel : list (string * condition)) sort limit doc :
  selects {| selector := (fun kc => Field kc.1 kc.2) <$> sel;
             sort := sort; limit := limit |} doc
  = matches sel doc.
Proof.
  unfold selects, matches. cbn [selector].
  induction sel as [|[k c] sel IH]; [done|].
  cbn [fmap list_fmap forallb satisfies fst snd]. f_equal. exact IH.
Qed.

Lemma selects_app_inv sel1 sel2 sort1 limit1 sort2 limit2 doc :
  selects {| selector := sel1 ++ sel2; sort := sort1; limit := limit1 |} doc = true ->
  selects {| selector := sel1; sort := sort2; limit := limit2 |} doc = true.
Proof.
  unfold selects. cbn [selector]. rewrite forallb_app. by intros [H _]%andb_prop.
Qed.

Lemma selects_owner u sel sort limit doc :
  selects {| selector := Field "ownerId" (Is (VStr u)) :: sel;
             sort := sort; limit := limit |} doc = true ->
  doc !! "ownerId" = Some (VStr u).
Proof.
  unfold selects. cbn [selector forallb satisfies holds]. intros [H _]%andb_prop.
  by apply bool_decide_eq_true in H.
Qed.

(** The selector of [events.filtered] starts with the owner. *)
Lemma events_filtered_selector h this filters options c :
  events_filtered h this filters options = Documents c ->
  exists rest,
    selector c = Field "ownerId" (Is (default VNull (this_userId this))) :: rest.
Proof.
  unfold events_filtered. destruct (negb _); [done|]. intros [= <-]. cbn [selector].
  cbv zeta.
  repeat match goal with
         | |- context [if ?b then _ else _] => destruct b
         end;
    destruct (filters !! "isCompleted") as [[| | | |]|]; cbn [app fmap list_fmap]; eauto.
Qed.

(** [X17] Every publication serves its subscriber.  Whatever the
    arguments (the fish, the filters and options, a filter named ownerId
    among them), the cursors of events.all, events.byFish, events.today,
    events.overdue and events.filtered range over documents whose ownerId
    is the subscriber's userId; and without a login each of them is ready
    at once with no document. *)
Theorem X17_publications_serve_the_subscriber_only h this fishId filters options :
  serves (events_all this) this
  /\ (forall r, events_byFish this fishId = Return r -> serves r this)
  /\ serves (events_today h this) this
  /\ serves (events_overdue this) this
  /\ serves (events_filtered h this filters options) this
  /\ (~ authenticated this ->
      events_all this = Ready
      /\ events_byFish this fishId = Return Ready
      /\ events_today h this = Ready
      /\ events_overdue this = Ready
      /\ events_filtered h this filters options = Ready).
Proof.
  destruct (truthy (this_userId this)) eqn:Ha.
  2:{ unfold events_all, events_byFish, events_today, events_overdue, events_filtered.
      rewrite Ha. cbn [negb]. split_and!; try done. by intros r [= <-]. }
  pose proof (truthy_authenticated _ Ha) as Hauth.
  pose proof Hauth as (u & Eu & Hu).
  pose proof (authenticated_userId _ _ Eu) as Et.
  split_and!.
  - unfold events_all. rewrite Ha, Et. cbn [negb default serves]. split; [done|].
    intros doc. rewrite Et. apply selects_owner.
  - intros r. unfold events_byFish. rewrite Ha, Et. cbn [negb default].
    destruct (is_string fishId); cbn [negb]; [|done]. intros [= <-].
    split; [done|]. intros doc H. rewrite Et. unfold selects in H.
    cbn [selector forallb satisfies holds] in H.
    apply andb_prop in H as [_ H]. apply andb_prop in H as [H _].
    by apply bool_decide_eq_true in H.
  - unfold events_today. rewrite Ha, Et. cbn [negb default serves]. split; [done|].
    intros doc. rewrite Et. apply selects_owner.
  - unfold events_overdue. rewrite Ha, Et. cbn [negb default serves]. split; [done|].
    intros doc. rewrite Et. apply selects_owner.
  - destruct (events_filtered h this filters options) as [|c] eqn:E; [done|].
    split; [done|]. intros doc H.
    apply events_filtered_selector in E as [rest E].
    rewrite Et in E. cbn [default] in E.
    destruct c as [sel srt lim]. cbn [selector] in E. subst sel.
    rewrite Et. by apply selects_owner in H.
  - intros Hno. done.
Qed.

Lemma same_local_day h now tza t :
  steady_day h now tza ->
  (startOfDay h now <=? t) && (t <=? endOfDay h now) = true
  <-> Day (LocalTime h t) = Day (LocalTime h now).
Proof.
  intros (Hs & He & Hd). rewrite andb_true_iff, !Z.leb_le.
  unfold endOfDay, startOfDay, UTC. rewrite Hs, He.
  set (D := Day (LocalTime h now)) in *. split.
  - intros [H1 H2].
    assert (E : Day (t + tza) = D).
    { unfold Day, msPerDay in *. Z.div_mod_to_equations. lia. }
    unfold LocalTime. by rewrite (Hd t (or_introl E)).
  - intros H. pose proof (Hd t (or_intror H)) as E.
    unfold LocalTime in H. rewrite E in H.
    unfold Day, msPerDay in *. Z.div_mod_to_equations. lia.
Qed.

(** [X18] The events of today are those of the local calendar day.  For
    a target date [d] whose local day lies within the range of time
    values and has no clock change (local time is [tza] ahead of UTC all
    through it), the query getTodayEvents ranges over exactly the
    documents of the owner whose scheduledAt is a date on the same local
    day as [d]; the publication events.today is that query for the
    subscriber and the instant of the subscription. *)
Theorem X18_today_is_the_local_day h instant u d tza :
  steady_day h d tza ->
  TimeClip (startOfDay h d) = Some (startOfDay h d) ->
  TimeClip (endOfDay h d) = Some (endOfDay h d) ->
  (forall doc,
      selects (getTodayEvents h instant u (Some (VDate (Some d)))) doc = true
      <-> doc !! "ownerId" = Some (VStr u)
          /\ exists t, doc !! "scheduledAt" = Some (VDate (Some t))
                       /\ Day (LocalTime h t) = Day (LocalTime h d))
  /\ getTodayEvents h d u None = getTodayEvents h instant u (Some (VDate (Some d)))
  /\ (forall this,
        userId this = Some u -> u <> EmptyString -> now this = d ->
        events_today h this = Documents (getTodayEvents h d u None)).
Proof.
  intros Hday Hs He. split; [|split].
  - intros doc.
    change (selects (getTodayEvents h instant u (Some (VDate (Some d)))) doc)
      with (matches [("ownerId"%string, Is (VStr u));
                     ("scheduledAt"%string, NotBefore (setHours h (Some d) 0 0 0 0));
                     ("scheduledAt"%string, NotAfter (setHours h (Some d) 23 59 59 999))]
              doc).
    rewrite (matches_today h u d doc Hs He), andb_true_iff.
    unfold owned_by, scheduled_today. rewrite bool_decide_eq_true.
    split.
    + intros [Ho Ht]. split; [done|].
      destruct (doc !! "scheduledAt") as [[| | | |[t|]]|]; try done.
      exists t. split; [done|]. by apply (same_local_day h d tza).
    + intros [Ho (t & -> & Ht)]. split; [done|]. by apply (same_local_day h d tza).
  - reflexivity.
  - intros this Eu Hu <-. unfold events_today.
    rewrite authenticated_truthy by (by exists u).
    rewrite (authenticated_userId _ _ Eu). reflexivity.
Qed.

Lemma X18_today_is_the_local_day_witness :
  selects (getTodayEvents Examples.paris Scenario.t_call1 "alice"
             (Some (VDate (Some Scenario.t_call2))))
    (document "e1" Scenario.daily_feeding) = true.
Proof.
  assert (Hday : steady_day Examples.paris Scenario.t_call2 3600000).
  { split; [reflexivity|]. split; [reflexivity|].
    intros t Ht. revert Ht.
    change (Day (LocalTime Examples.paris Scenario.t_call2)) with 19753.
    unfold LocalTime. cbn [LocalTZA Examples.paris].
    unfold Examples.t_mar31_01, Examples.t_oct27_01, Day, msPerDay.
    destruct (Z.leb_spec 1711846800000 t); [|done].
    destruct (Z.ltb_spec t 1729990800000); [|done].
    cbn [andb]. intros Ht. exfalso. Z.div_mod_to_equations. lia. }
  apply (proj1 (X18_today_is_the_local_day Examples.paris Scenario.t_call1 "alice"
                  Scenario.t_call2 3600000 Hday eq_refl eq_refl)).
  split; [reflexivity|]. exists Scenario.t_jan31. split; reflexivity.
Defined.

(** [X19] The counters count what is published.  For the caller of
    getStats, the publications events.all, events.overdue, events.today and
    events.byFish are the predefined queries getUserEvents,
    getOverdueEvents, getTodayEvents and getFishEvents for that account;
    total, overdue and today.total are the numbers of documents that the
    first three range over at the instant of the call; and the four
    counters of the helper of the collection are those of the method. *)
Theorem X19_stats_count_what_is_published h this st s st' :
  getEventStats h this st = (Return s, st') ->
  exists u,
    userId this = Some u
    /\ events_all this = Documents (getUserEvents u)
    /\ events_overdue this = Documents (getOverdueEvents (now this) u)
    /\ events_today h this = Documents (getTodayEvents h (now this) u None)
    /\ (forall f, events_byFish this (Some (VStr f))
                  = Return (Documents (getFishEvents f u)))
    /\ total s = count (getUserEvents u) st
    /\ overdue s = count (getOverdueEvents (now this) u) st
    /\ today_total (today s) = count (getTodayEvents h (now this) u None) st
    /\ EventsQueries.getEventStats (now this) u st
       = {| EventsQueries.total := total s;
            EventsQueries.completed := completed s;
            EventsQueries.pending := pending s;
            EventsQueries.overdue := overdue s |}.
Proof.
  intros E.
  destruct (truthy (this_userId this)) eqn:Ha.
  2:{ unfold getEventStats in E. by rewrite Ha in E. }
  pose proof (truthy_authenticated _ Ha) as (u & Eu & Hu).
  pose proof (authenticated_userId _ _ Eu) as Et.
  rewrite (getEventStats_run h this u st Eu Hu) in E. cbv zeta in E.
  injection E as <- <-. exists u.
  unfold events_all, events_overdue, events_today, events_byFish.
  rewrite Ha, Et. cbn [negb default is_string].
  split_and!; (exact Eu || reflexivity).
Qed.

Lemma X19_stats_count_what_is_published_witness :
  count (getUserEvents "alice") Scenario.forty_events = 40.
Proof.
  destruct (X19_stats_count_what_is_published Scenario.host
              (Scenario.alice Scenario.t_call2 "x") Scenario.forty_events
              {| total := 40; completed := 23; pending := 17; overdue := 17;
                 today := {| today_total := 40; today_completed := 23;
                             today_remaining := 17 |};
                 completionRate := 57 |} Scenario.forty_events eq_refl)
    as (u & Eu & _ & _ & _ & _ & Ht & _).
  injection Eu as <-. symmetry. exact Ht.
Defined.

Lemma forallb_if_app {A} (p : A -> bool) (b : bool) q e :
  forallb p (if b then q ++ e else q) = forallb p q && (if b then forallb p e else true).
Proof. destruct b; [apply forallb_app|by rewrite andb_true_r]. Qed.



Lemma is_date_truthy v : is_date v = true -> truthy v = true.
Proof. by destruct v as [[| | | |]|]. Qed.

Lemma events_filtered_selects h this filters options c doc :
  events_filtered h this filters options = Documents c ->
  selects c doc
  = bool_decide (doc !! "ownerId" = Some (default VNull (this_userId this)))
    && string_filter filters doc "type"
    && match filters !! "isCompleted" with
       | Some (VBool b) => bool_decide (doc !! "isCompleted" = Some (VBool b))
       | _ => true
       end
    && string_filter filters doc "priority"
    && string_filter filters doc "fishId"
    && date_filter filters doc.
Proof.
  unfold events_filtered. destruct (negb _); [done|]. cbv zeta.
  set (q0 := [Field "ownerId" (Is (default VNull (this_userId this)))]).
  set (q1 := if truthy (filters !! "type") && is_string (filters !! "type")
             then q0 ++ [Field "type" (Is (default VNull (filters !! "type")))] else q0).
  set (q2 := match filters !! "isCompleted" with
             | Some (VBool b) => q1 ++ [Field "isCompleted" (Is (VBool b))]
             | _ => q1
             end).
  set (q3 := if truthy (filters !! "priority") && is_string (filters !! "priority")
             then q2 ++ [Field "priority" (Is (default VNull (filters !! "priority")))]
             else q2).
  set (q4 := if truthy (filters !! "fishId") && is_string (filters !! "fishId")
             then q3 ++ [Field "fishId" (Is (default VNull (filters !! "fishId")))]
             else q3).
  intros [= <-]. unfold selects. cbn [selector].
  assert (E0 : forallb (satisfies doc) q0
               = bool_decide (doc !! "ownerId" = Some (default VNull (this_userId this)))).
  { unfold q0. cbn [forallb satisfies holds]. by rewrite andb_true_r. }
  assert (E1 : forallb (satisfies doc) q1
               = forallb (satisfies doc) q0 && string_filter filters doc "type").
  { unfold q1, string_filter. rewrite forallb_if_app. f_equal.
    destruct (truthy (filters !! "type") && _); [|done]. cbn [forallb satisfies holds]. by rewrite andb_true_r. }
  assert (E2 : forallb (satisfies doc) q2
               = forallb (satisfies doc) q1
                 && match filters !! "isCompleted" with
                    | Some (VBool b) => bool_decide (doc !! "isCompleted" = Some (VBool b))
                    | _ => true
                    end).
  { unfold q2. destruct (filters !! "isCompleted") as [[|b| | |]|];
      rewrite ?andb_true_r; try done.
    rewrite forallb_app. cbn [forallb satisfies holds]. by rewrite andb_true_r. }
  assert (E3 : forallb (satisfies doc) q3
               = forallb (satisfies doc) q2 && string_filter filters doc "priority").
  { unfold q3, string_filter. rewrite forallb_if_app. f_equal.
    destruct (truthy (filters !! "priority") && _); [|done]. cbn [forallb satisfies holds]. by rewrite andb_true_r. }
  assert (E4 : forallb (satisfies doc) q4
               = forallb (satisfies doc) q3 && string_filter filters doc "fishId").
  { unfold q4, string_filter. rewrite forallb_if_app. f_equal.
    destruct (truthy (filters !! "fishId") && _); [|done]. cbn [forallb satisfies holds]. by rewrite andb_true_r. }
  rewrite <- E0, <- E1, <- E2, <- E3, <- E4. clearbody q4. clear.
  unfold date_filter.
  destruct (truthy (filters !! "dateFrom") || truthy (filters !! "dateTo")) eqn:Ht;
    [|by rewrite andb_true_r].
  destruct (is_date (filters !! "dateFrom")) eqn:Df;
    destruct (is_date (filters !! "dateTo")) eqn:Dt;
    rewrite ?(is_date_truthy _ Df), ?(is_date_truthy _ Dt), ?andb_true_r, ?andb_false_r;
    cbn [andb orb app fmap list_fmap]; rewrite ?forallb_app;
    cbn [forallb satisfies holds]; rewrite ?andb_true_r, ?andb_false_r; done.
Qed.

Lemma string_filter_spec filters doc k :
  string_filter filters doc k = true
  <-> forall s, filters !! k = Some (VStr s) -> s <> EmptyString ->
                doc !! k = Some (VStr s).
Proof.
  unfold string_filter.
  destruct (filters !! k) as [[| | |s|]|] eqn:E; cbn [truthy is_string andb default];
    rewrite ?andb_false_r; try (split; [by intros _ s' [=]|done]).
  - destruct (String.eqb_spec s EmptyString) as [->|Hs]; cbn [negb andb].
    + split; [|done]. by intros _ s' [= <-].
    + rewrite bool_decide_eq_true. split; [by intros H s' [= <-]|]. intros H. by apply H.
Qed.

Lemma date_rel_spec rel (v : option value) (d : option Z) :
  date_rel rel v d = true
  <-> exists x t, d = Some x /\ v = Some (VDate (Some t)) /\ rel t x = true.
Proof.
  unfold date_rel. destruct v as [[| | | |[t|]]|], d as [x|];
    (split; [try done; intros; by eexists _, _ | intros (x' & t' & H1 & H2 & H3); by simplify_eq]).
Qed.

Lemma date_filter_spec filters doc :
  date_filter filters doc = true
  <-> (truthy (filters !! "dateFrom") || truthy (filters !! "dateTo") = true ->
       (is_date (filters !! "dateFrom") || is_date (filters !! "dateTo") = true)
       /\ (forall a, filters !! "dateFrom" = Some (VDate a) ->
             exists x t, a = Some x /\ doc !! "scheduledAt" = Some (VDate (Some t))
                         /\ x <= t)
       /\ (forall b, filters !! "dateTo" = Some (VDate b) ->
             exists y t, b = Some y /\ doc !! "scheduledAt" = Some (VDate (Some t))
                         /\ t <= y)).
Proof.
  unfold date_filter.
  destruct (truthy (filters !! "dateFrom") || truthy (filters !! "dateTo")); [|done].
  rewrite !andb_true_iff.
  assert (F : (if is_date (filters !! "dateFrom")
               then date_rel Z.geb (doc !! "scheduledAt") (time_of (filters !! "dateFrom"))
               else true) = true
              <-> forall a, filters !! "dateFrom" = Some (VDate a) ->
                    exists x t, a = Some x /\ doc !! "scheduledAt" = Some (VDate (Some t))
                                /\ x <= t).
  { destruct (filters !! "dateFrom") as [[| | | |a]|]; cbn [is_date time_of];
      try (split; [by intros _ a' [=]|done]).
    rewrite date_rel_spec. split.
    - intros (x & t & -> & Ht & Hr) a' [= <-]. exists x, t. split_and!; try done. lia.
    - intros H. destruct (H a eq_refl) as (x & t & -> & Ht & Hr).
      exists x, t. split_and!; try done. lia. }
  assert (T : (if is_date (filters !! "dateTo")
               then date_rel Z.leb (doc !! "scheduledAt") (time_of (filters !! "dateTo"))
               else true) = true
              <-> forall b, filters !! "dateTo" = Some (VDate b) ->
                    exists y t, b = Some y /\ doc !! "scheduledAt" = Some (VDate (Some t))
                                /\ t <= y).
  { destruct (filters !! "dateTo") as [[| | | |a]|]; cbn [is_date time_of];
      try (split; [by intros _ a' [=]|done]).
    rewrite date_rel_spec. split.
    - intros (x & t & -> & Ht & Hr) a' [= <-]. exists x, t. split_and!; try done. lia.
    - intros H. destruct (H a eq_refl) as (x & t & -> & Ht & Hr).
      exists x, t. split_and!; try done. lia. }
  rewrite F, T. tauto.
Qed.

(** [X20] What events.filtered hands out.  The cursor ranges over
    exactly the documents of the subscriber that agree with every filter
    of the expected type: the strings type, priority and fishId when not
    empty, the boolean isCompleted, and the dates dateFrom and dateTo as
    bounds of scheduledAt; a filter of another type is ignored, except
    that a dateFrom or dateTo that is set while neither is a date leaves
    no document.  The documents come in the order asked for, by
    scheduledAt descending when none is, and the limit is the one asked
    for, 50 when none or 0 is, and never more than 100. *)
Theorem X20_filtered_applies_the_typed_filters h this filters options c :
  events_filtered h this filters options = Documents c ->
  (forall doc,
      selects c doc = true
      <-> doc !! "ownerId" = this_userId this
          /\ (forall k s, k ∈ ["type"; "priority"; "fishId"]%string ->
                filters !! k = Some (VStr s) -> s <> EmptyString ->
                doc !! k = Some (VStr s))
          /\ (forall b, filters !! "isCompleted" = Some (VBool b) ->
                doc !! "isCompleted" = Some (VBool b))
          /\ (truthy (filters !! "dateFrom") || truthy (filters !! "dateTo") = true ->
              (is_date (filters !! "dateFrom") || is_date (filters !! "dateTo") = true)
              /\ (forall a, filters !! "dateFrom" = Some (VDate a) ->
                    exists x t, a = Some x
                                /\ doc !! "scheduledAt" = Some (VDate (Some t))
                                /\ x <= t)
              /\ (forall b, filters !! "dateTo" = Some (VDate b) ->
                    exists y t, b = Some y
                                /\ doc !! "scheduledAt" = Some (VDate (Some t))
                                /\ t <= y)))
  /\ sort c = default [("scheduledAt"%string, -1)] (opt_sort options)
  /\ (exists n, limit c = Limit n /\ forall k, n = Some k -> k <= 100)
  /\ (truthy (opt_limit options) = false -> limit c = Limit (Some 50))
  /\ (forall n, opt_limit options = Some (VNum n) -> n <> 0 ->
        limit c = Limit (Some (Z.min n 100))).
Proof.
  intros E. split.
  { intros doc. rewrite (events_filtered_selects _ _ _ _ _ doc E).
    rewrite !andb_true_iff, !string_filter_spec, date_filter_spec, bool_decide_eq_true.
    assert (Hc : match filters !! "isCompleted" with
                 | Some (VBool b) => bool_decide (doc !! "isCompleted" = Some (VBool b))
                 | _ => true
                 end = true
                 <-> forall b, filters !! "isCompleted" = Some (VBool b) ->
                               doc !! "isCompleted" = Some (VBool b)).
    { destruct (filters !! "isCompleted") as [[|b| | |]|];
        try (split; [by intros _ b' [=]|done]).
      rewrite bool_decide_eq_true. split; [by intros H b' [= <-]|]. intros H. by apply H. }
    rewrite Hc.
    assert (Ho : Some (default VNull (this_userId this)) = this_userId this) by done.
    rewrite Ho. split.
    - intros (((((H1 & H2) & H3) & H4) & H5) & H6). split_and!; try done.
      intros k s Hk. rewrite !elem_of_cons, elem_of_nil in Hk.
      destruct Hk as [->|[->|[->|[]]]]; auto.
    - intros (H1 & H2 & H3 & H4). split_and!; try done; intros s; apply H2;
        rewrite !elem_of_cons; tauto. }
  unfold events_filtered in E. destruct (negb _); [done|].
  injection E as <-. cbn [sort limit]. split; [done|].
  split_and!.
  - eexists. split; [done|]. intros k.
    destruct (ToNumber h _) as [x|]; cbn [Math_min]; [|done]. intros [= <-]. lia.
  - intros Hf. unfold or_else. rewrite Hf. done.
  - intros n Hn H0. unfold or_else. rewrite Hn. cbn [truthy].
    destruct (Z.eqb_spec n 0); [done|]. done.
Qed.

Lemma X20_filtered_applies_the_typed_filters_witness :
  let this := Scenario.alice Scenario.t_call2 "x" in
  let filters : obj := {[ "isCompleted" := VBool false; "type" := VNum 3 ]} in
  let options := {| opt_sort := None; opt_limit := Some (VNum 500) |} in
  let c := {| selector := [Field "ownerId" (Is (VStr "alice"));
                           Field "isCompleted" (Is (VBool false))];
              sort := [("scheduledAt"%string, -1)];
              limit := Limit (Some 100) |} in
  events_filtered Scenario.host this filters options = Documents c
  /\ selects c (document "e1" Scenario.daily_feeding) = true.
Proof.
  intros this filters options c.
  assert (E : events_filtered Scenario.host this filters options = Documents c)
    by reflexivity.
  split; [exact E|].
  apply (proj1 (X20_filtered_applies_the_typed_filters Scenario.host this filters options c E)).
  split; [reflexivity|]. split_and!.
  - intros k s Hk. rewrite !elem_of_cons, elem_of_nil in Hk.
    destruct Hk as [->|[->|[->|[]]]]; discriminate.
  - intros b [= <-]. reflexivity.
  - discriminate.
Defined.

(** ** Further properties: the client *)

Import JSClient.

Lemma filter_length_nonneg {A} (p : A -> bool) l : 0 <= filter_length p l.
Proof. unfold filter_length. lia. Qed.

Lemma filter_length_total {A} (p : A -> bool) l :
  filter_length p l <= Z.of_nat (List.length l).
Proof.
  unfold filter_length. apply inj_le.
  induction l as [|x l IH]; simpl; [done|]. destruct (p x); simpl; lia.
Qed.

Lemma filter_length_mono {A} (p q : A -> bool) l :
  (forall x, In x l -> p x = true -> q x = true) ->
  filter_length p l <= filter_length q l.
Proof. intros H. unfold filter_length. by apply inj_le, filter_length_le. Qed.

Lemma filter_length_partition {A} (p : A -> bool) l :
  filter_length p l + filter_length (fun x => negb (p x)) l = Z.of_nat (List.length l).
Proof.
  unfold filter_length. rewrite <- Nat2Z.inj_add. f_equal.
  induction l as [|x l IH]; simpl; [done|]. destruct (p x); simpl; lia.
Qed.

(** The first instant of the week of [now]: the local midnight that
    begins the Sunday on or before [now], when moving the date back to
    that Sunday lands on it. *)
Lemma startOfWeek_value h now :
  let l := LocalTime h now in
  let moved := UTC h (l - WeekDay l * msPerDay) in
  TimeClip moved = Some moved ->
  Day (LocalTime h moved) = Day l - WeekDay l ->
  setHours h (setDate h (Some now) (minus (getDate h (Some now)) (getDay h (Some now))))
           0 0 0 0
  = TimeClip (UTC h ((Day l - WeekDay l) * msPerDay)).
Proof.
  intros l moved Hm Hd.
  cbn [getDate getDay fmap option_fmap option_map minus setDate]. fold l.
  replace (DateFromTime l - WeekDay l) with (DateFromTime l + - WeekDay l) by lia.
  rewrite CalendarFacts.MakeDay_shift.
  pose proof (CalendarFacts.MakeDate_Day l) as El.
  replace (MakeDate (Day l + - WeekDay l) (TimeWithinDay l))
    with (l - WeekDay l * msPerDay) by (unfold MakeDate in *; lia).
  fold moved. rewrite Hm. cbn [setHours]. rewrite Hd.
  do 2 f_equal. unfold MakeDate, MakeTime. lia.
Qed.

(** [X21] The statistics that the hook computes from its list of events
    are consistent whatever the events hold: completed and pending (events
    whose isCompleted is truthy, respectively not) add up to total, overdue
    is at most pending, today and thisWeek are at most total, none is
    negative, and an empty list gives zero everywhere. *)
Theorem X21_hook_statistics_are_consistent h now events :
  let s := useEvents.getEventStats h now events in
  useEvents.completed s + useEvents.pending s = useEvents.total s
  /\ useEvents.total s = Z.of_nat (List.length events)
  /\ 0 <= useEvents.overdue s <= useEvents.pending s
  /\ 0 <= useEvents.today s <= useEvents.total s
  /\ 0 <= useEvents.thisWeek s <= useEvents.total s.
Proof.
  cbv zeta. unfold useEvents.getEventStats.
  destruct events as [|e events]; [done|].
  cbn [Nat.eqb List.length useEvents.total useEvents.completed useEvents.pending
       useEvents.overdue useEvents.today useEvents.thisWeek].
  split_and!; try apply filter_length_nonneg;
    try apply (filter_length_total _ (e :: events)).
  - apply (filter_length_partition (fun event : obj => truthy (event !! "isCompleted"))
             (e :: events)).
  - done.
  - apply filter_length_mono. by intros x _ [-> _]%andb_prop.
Qed.

(** [X22] The week of the hook starts on Sunday.  Let [sunday] be the
    local midnight that begins the Sunday on or before the local time of
    [now]: the local time of [now] lies in the seven local days from it.
    When moving the date of [now] back to that Sunday lands on that day,
    and the instants involved are in the range of time values, thisWeek is
    for every list with an event the number of events whose scheduledAt
    converts to a date not before the instant of [sunday] (every later
    week included).  On a host without clock changes [now] lies in the
    seven days from that instant and today is at most thisWeek.  With
    clock changes the week of the hook can be longer than seven days: in
    Paris, late on Saturday 2 November 2024, an event scheduled more than
    seven days before is counted. *)
Theorem X22_this_week_starts_on_sunday h now :
  let l := LocalTime h now in
  let sunday := (Day l - WeekDay l) * msPerDay in
  let moved := UTC h (l - WeekDay l * msPerDay) in
  TimeClip moved = Some moved ->
  Day (LocalTime h moved) = Day sunday ->
  TimeClip (UTC h sunday) = Some (UTC h sunday) ->
  WeekDay sunday = 0
  /\ TimeWithinDay sunday = 0
  /\ sunday <= l < sunday + 7 * msPerDay
  /\ (forall events,
        events <> [] ->
        useEvents.thisWeek (useEvents.getEventStats h now events)
        = filter_length
            (fun event =>
               date_compare Z.geb (construct h (event !! "scheduledAt"))
                 (Some (UTC h sunday)))
            events)
  /\ (forall tza,
        fixed_offset h tza ->
        UTC h sunday <= now < UTC h sunday + 7 * msPerDay
        /\ forall events,
             useEvents.today (useEvents.getEventStats h now events)
             <= useEvents.thisWeek (useEvents.getEventStats h now events))
  /\ (let saturday_night := Examples.t_nov02 in
      let event : obj := {[ "scheduledAt" := VDate (Some (Examples.t_oct27_01 - 10800000)) ]} in
      useEvents.thisWeek (useEvents.getEventStats Examples.paris saturday_night [event]) = 1
      /\ Examples.t_oct27_01 - 10800000 + 7 * msPerDay < saturday_night).
Proof.
  intros l sunday moved Hm Hd Hs.
  assert (Hw : 0 <= WeekDay l < 7) by (unfold WeekDay; Z.div_mod_to_equations; lia).
  assert (Hl : Day l * msPerDay <= l < Day l * msPerDay + msPerDay).
  { unfold Day, msPerDay. Z.div_mod_to_equations. lia. }
  assert (Ed : Day sunday = Day l - WeekDay l).
  { unfold sunday. unfold Day at 1. by rewrite Z.div_mul. }
  assert (Ew : forall events,
             events <> [] ->
             useEvents.thisWeek (useEvents.getEventStats h now events)
             = filter_length
                 (fun event =>
                    date_compare Z.geb (construct h (event !! "scheduledAt"))
                      (Some (UTC h sunday)))
                 events).
  { intros events Hne. unfold useEvents.getEventStats.
    destruct events as [|e events]; [done|].
    cbn [Nat.eqb List.length useEvents.thisWeek].
    change (construct h (Some (VDate (Some now)))) with (Some now).
    rewrite Ed in Hd.
    rewrite (startOfWeek_value h now Hm Hd). fold l. fold sunday. by rewrite Hs. }
  split_and!.
  - unfold WeekDay at 1. rewrite Ed. unfold WeekDay. Z.div_mod_to_equations. lia.
  - unfold TimeWithinDay, sunday. by apply Z.mod_mul.
  - unfold sunday, msPerDay in *. lia.
  - unfold sunday, msPerDay in *. lia.
  - exact Ew.
  - intros tza Hf.
    assert (Eu : UTC h sunday = sunday - tza) by (unfold UTC; by rewrite Hf).
    assert (El : l = now + tza) by (unfold l, LocalTime; by rewrite Hf).
    split; [unfold sunday, msPerDay in *; lia|].
    intros events. destruct events as [|e events]; [done|].
    rewrite Ew by done. unfold useEvents.getEventStats.
    cbn [Nat.eqb List.length useEvents.today].
    change (construct h (Some (VDate (Some now)))) with (Some now).
    apply filter_length_mono. intros x _ [H _]%andb_prop.
    destruct (construct h (x !! "scheduledAt")) as [t|]; [|done].
    cbn [setHours] in H. fold l in H.
    unfold TimeClip in H. destruct (_ <=? _); [|done].
    cbn [date_compare] in *. apply Z.geb_le. apply Z.geb_le in H.
    unfold UTC in H. rewrite Hf in H. rewrite Eu.
    unfold MakeDate, MakeTime in H. unfold sunday, msPerDay in *. lia.
  - split; [reflexivity|]. unfold Examples.t_nov02, Examples.t_oct27_01, msPerDay. lia.
Qed.

Lemma X22_this_week_starts_on_sunday_witness :
  let event : obj := {[ "scheduledAt" := VDate (Some Examples.t_oct27_01) ]} in
  useEvents.thisWeek (useEvents.getEventStats Examples.paris Examples.t_nov02 [event]) = 1.
Proof.
  intros event.
  rewrite (proj1 (proj2 (proj2 (proj2
            (X22_this_week_starts_on_sunday Examples.paris Examples.t_nov02
               eq_refl eq_refl eq_refl))))) by discriminate.
  reflexivity.
Defined.

(** [X23] The counters of the analytics.  The computation of eventStats
    returns exactly when each of the thirty days up to [now] is in the
    range of time values and the scheduledAt of every event converts to a
    valid date; otherwise it throws and gives no counter at all.  When it
    returns: events with and without a fishId add up to the total;
    completed, pending and overdue events add up to the total; overdue and
    completed are those of the hook useEvents, whose pending is the
    pending and the overdue of the analytics together. *)
Theorem X23_analytics_counters_add_up h now events :
  (is_Some (useAnalytics.eventStats h now events)
   <-> (forall i, (i < 30)%nat -> is_Some (TimeClip (now - Z.of_nat i * msPerDay)))
       /\ (forall event, In event events ->
             is_Some (construct h (event !! "scheduledAt"))))
  /\ (forall s,
        useAnalytics.eventStats h now events = Some s ->
        let hook := useEvents.getEventStats h now events in
        useAnalytics.Stats.totalEvents s = Z.of_nat (List.length events)
        /\ useAnalytics.Stats.fishSpecificEvents s + useAnalytics.Stats.generalEvents s
           = useAnalytics.Stats.totalEvents s
        /\ useAnalytics.Stats.completedEvents s + useAnalytics.Stats.pendingEvents s
           + useAnalytics.Stats.overdueEvents s
           = useAnalytics.Stats.totalEvents s
        /\ useEvents.pending hook
           = useAnalytics.Stats.pendingEvents s + useAnalytics.Stats.overdueEvents s
        /\ useEvents.overdue hook = useAnalytics.Stats.overdueEvents s
        /\ useEvents.completed hook = useAnalytics.Stats.completedEvents s).
Proof.
  assert (Hret : useAnalytics.last30Days_returns h now events = true
                 <-> (forall i, (i < 30)%nat ->
                        is_Some (TimeClip (now - Z.of_nat i * msPerDay)))
                     /\ (forall event, In event events ->
                           is_Some (construct h (event !! "scheduledAt")))).
  { unfold useAnalytics.last30Days_returns. rewrite forallb_forall. split.
    - intros H. split.
      + intros i Hi.
        assert (Hin : In i (rev (seq 0 30))) by (rewrite <- in_rev, in_seq; lia).
        apply H, andb_prop in Hin as [Hin _].
        destruct (TimeClip _); [by eexists|done].
      + intros event Hin.
        assert (H0 : In 0%nat (rev (seq 0 30))) by (rewrite <- in_rev, in_seq; lia).
        apply H, andb_prop in H0 as [_ H0].
        rewrite forallb_forall in H0. apply H0 in Hin.
        destruct (construct h _); [by eexists|done].
    - intros [Hd He] i Hin. rewrite <- in_rev, in_seq in Hin.
      apply andb_true_intro. split.
      + destruct (Hd i) as [t ->]; [lia|done].
      + apply forallb_forall. intros event Hin'.
        by destruct (He event Hin') as [t ->]. }
  split.
  - rewrite <- Hret. unfold useAnalytics.eventStats.
    destruct (useAnalytics.last30Days_returns h now events).
    + split; [done|]. intros _. by eexists.
    + split; [by intros [? ?]|done].
  - intros s E. unfold useAnalytics.eventStats in E.
    destruct (useAnalytics.last30Days_returns h now events); [|done].
    destruct (proj1 Hret eq_refl) as [_ Hvalid]. injection E as <-.
    cbn [useAnalytics.Stats.totalEvents useAnalytics.Stats.completedEvents
         useAnalytics.Stats.pendingEvents useAnalytics.Stats.overdueEvents
         useAnalytics.Stats.fishSpecificEvents useAnalytics.Stats.generalEvents].
    unfold useAnalytics.fishSpecificEvents, useAnalytics.generalEvents,
      useAnalytics.totalEvents, useAnalytics.completedEvents,
      useAnalytics.pendingEvents, useAnalytics.overdueEvents.
    assert (Hsum : filter_length
                     (fun event : obj =>
                        negb (truthy (event !! "isCompleted"))
                        && date_compare Z.geb (construct h (event !! "scheduledAt"))
                                        (Some now)) events
                   + filter_length
                       (fun event : obj =>
                          negb (truthy (event !! "isCompleted"))
                          && date_compare Z.ltb (construct h (event !! "scheduledAt"))
                                          (Some now)) events
                   = filter_length (fun event : obj => negb (truthy (event !! "isCompleted")))
                       events).
    { unfold filter_length. rewrite <- Nat2Z.inj_add. f_equal.
      apply filter_length_split; intros e He.
      - destruct (truthy (e !! "isCompleted")) eqn:Hc; [done|]. cbn [negb andb].
        destruct (Hvalid e He) as [t ->]. cbn [date_compare]. rewrite Z.geb_leb.
        destruct (Z.leb_spec now t), (Z.ltb_spec t now); simpl; lia.
      - destruct (truthy (e !! "isCompleted")); [done|]. cbn [negb andb].
        destruct (construct h (e !! "scheduledAt")) as [t|]; [|done].
        cbn [date_compare]. rewrite Z.geb_leb.
        destruct (Z.leb_spec now t), (Z.ltb_spec t now); simpl; lia. }
    cbv zeta. split_and!.
    + done.
    + apply (filter_length_partition (fun event : obj => truthy (event !! "fishId"))).
    + rewrite <- Z.add_assoc, Hsum.
      apply (filter_length_partition (fun event : obj => truthy (event !! "isCompleted"))).
    + unfold useEvents.getEventStats. destruct events as [|e events]; [done|].
      cbn [Nat.eqb List.length useEvents.pending]. by rewrite Hsum.
    + unfold useEvents.getEventStats. by destruct events as [|e events].
    + unfold useEvents.getEventStats. by destruct events as [|e events].
Qed.

Lemma X23_analytics_counters_add_up_witness :
  let events := [document "e1" Examples.done_feeding; document "e2" Examples.water_change] in
  exists s,
    useAnalytics.eventStats Scenario.host Scenario.t_call2 events = Some s
    /\ useAnalytics.Stats.completedEvents s + useAnalytics.Stats.pendingEvents s
       + useAnalytics.Stats.overdueEvents s = 2.
Proof.
  intros events.
  destruct (useAnalytics.eventStats Scenario.host Scenario.t_call2 events) as [s|] eqn:E;
    [|discriminate E].
  exists s. split; [reflexivity|].
  destruct (proj2 (X23_analytics_counters_add_up Scenario.host Scenario.t_call2 events) s E)
    as (H1 & _ & H3 & _).
  rewrite H3, H1. reflexivity.
Defined.

(** *** Sorting *)

Section sorting.
Context {A : Type} (key : A -> option Z).


Lemma sort_insert_Permutation (compare : A -> A -> option Z) x l :
  sort_insert compare x l ≡ₚ x :: l.
Proof.
  induction l as [|y l IH]; simpl; [done|].
  destruct (0 <? _); [|done]. rewrite IH. apply Permutation_swap.
Qed.

Lemma Array_sort_Permutation (compare : A -> A -> option Z) l : Array_sort compare l ≡ₚ l.
Proof.
  induction l as [|x l IH]; simpl; [done|].
  rewrite sort_insert_Permutation. by rewrite IH.
Qed.

Lemma sort_insert_sorted x l :
  is_Some (key x) -> Forall (fun y => is_Some (key y)) l ->
  StronglySorted (key_le key) l -> StronglySorted (key_le key) (sort_insert (by_key key) x l).
Proof.
  intros [kx Ex] Hl Hs. induction Hs as [|y l Hs IH Hy]; simpl.
  { repeat constructor. }
  apply Forall_cons in Hl as [[ky Ey] Hl].
  unfold by_key at 1. rewrite Ex, Ey. cbn [minus default from_option id].
  destruct (Z.ltb_spec 0 (kx - ky)).
  - constructor; [by apply IH|].
    rewrite sort_insert_Permutation. constructor; [|done].
    exists ky, kx. split_and!; try done. lia.
  - constructor; [by constructor|]. constructor.
    + exists kx, ky. split_and!; try done. lia.
    + eapply Forall_impl; [exact Hy|]. intros z (a & b & Ea & Eb & Hab).
      exists kx, b. split_and!; try done. rewrite Ey in Ea. injection Ea as <-. lia.
Qed.

Lemma Array_sort_sorted l :
  Forall (fun y => is_Some (key y)) l -> StronglySorted (key_le key) (Array_sort (by_key key) l).
Proof.
  induction l as [|x l IH]; simpl; [constructor|].
  intros [Hx Hl]%Forall_cons. apply sort_insert_sorted; [done| |by apply IH].
  by rewrite Array_sort_Permutation.
Qed.

Lemma StronglySorted_lookup (R : A -> A -> Prop) l i j a b :
  StronglySorted R l -> (i < j)%nat -> l !! i = Some a -> l !! j = Some b -> R a b.
Proof.
  intros Hs. revert i j. induction Hs as [|x l Hs IH Hx]; intros i j Hij Ha Hb; [done|].
  destruct j as [|j]; [lia|]. destruct i as [|i].
  - injection Ha as <-. rewrite Forall_forall in Hx. apply Hx.
    simpl in Hb. by apply list_elem_of_lookup_2 in Hb.
  - apply (IH i j); [lia|done..].
Qed.
End sorting.

(** [X24] The upcoming events of the analytics are the five next ones.
    They are events of the list that are not completed and whose
    scheduledAt converts to a date not before [now]; there are at most
    five of them; they come in the order of their dates; and together
    with the remaining such events, none of which is scheduled before any
    of the five, they are all the events of the list that qualify, each as
    often as the list has it. *)
Theorem X24_upcoming_events_are_the_next_five h now events :
  let date (event : obj) := construct h (event !! "scheduledAt") in
  let qualifies (event : obj) :=
    negb (truthy (event !! "isCompleted"))
    && date_compare Z.geb (date event) (Some now) in
  let upcoming := useAnalytics.upcomingEvents h now events in
  exists later,
    upcoming ++ later ≡ₚ List.filter qualifies events
    /\ (List.length upcoming <= 5)%nat
    /\ (later <> [] -> List.length upcoming = 5%nat)
    /\ (forall event, In event upcoming ->
          In event events
          /\ truthy (event !! "isCompleted") = false
          /\ exists t, date event = Some t /\ now <= t)
    /\ (forall i j a b,
          (i < j)%nat -> upcoming !! i = Some a -> upcoming !! j = Some b ->
          exists x y, date a = Some x /\ date b = Some y /\ x <= y)
    /\ (forall a b,
          In a upcoming -> In b later ->
          exists x y, date a = Some x /\ date b = Some y /\ x <= y).
Proof.
  intros date qualifies upcoming.
  set (sorted := Array_sort (by_key date) (List.filter qualifies events)).
  assert (Eu : upcoming = take 5 sorted) by reflexivity.
  exists (drop 5 sorted).
  assert (Hperm : sorted ≡ₚ List.filter qualifies events) by apply Array_sort_Permutation.
  assert (Hq : forall event, In event sorted ->
            In event events /\ qualifies event = true).
  { intros event Hin. apply list_elem_of_In in Hin. rewrite Hperm in Hin.
    apply list_elem_of_In in Hin. by apply filter_In in Hin. }
  assert (Hvalid : forall event, qualifies event = true ->
            truthy (event !! "isCompleted") = false
            /\ exists t, date event = Some t /\ now <= t).
  { intros event [Hc Hd]%andb_prop. split; [by destruct (truthy _)|].
    destruct (date event) as [t|]; [|done]. exists t. split; [done|].
    by apply Z.geb_le in Hd. }
  assert (Hsorted : StronglySorted (key_le date) sorted).
  { apply Array_sort_sorted. apply Forall_forall. intros event Hin.
    apply list_elem_of_In, filter_In in Hin as [_ Hin].
    destruct (Hvalid event Hin) as (_ & t & Et & _). by rewrite Et. }
  rewrite <- (take_drop 5 sorted) in Hsorted.
  rewrite Eu. split_and!.
  - by rewrite take_drop.
  - rewrite length_take. lia.
  - intros Hne. rewrite length_take.
    destruct (Nat.le_gt_cases 5 (List.length sorted)); [lia|].
    rewrite drop_ge in Hne by lia. done.
  - intros event Hin. apply list_elem_of_In, elem_of_take in Hin as (i & Hi & _).
    apply list_elem_of_lookup_2, list_elem_of_In, Hq in Hi as [Hin Hqual].
    split; [done|]. by apply Hvalid.
  - intros i j a b Hij Ha Hb.
    apply StronglySorted_app_1_l in Hsorted.
    by apply (StronglySorted_lookup _ _ i j a b Hsorted).
  - intros a b Ha Hb. apply list_elem_of_In in Ha, Hb.
    by apply (StronglySorted_app_1_elem_of _ _ _ _ _ Hsorted).
Qed.

Lemma fields_lookup f :
  EventForm.fields f !! "type" = Some (VStr (EventForm.type f))
  /\ EventForm.fields f !! "targetType" = Some (VStr (EventForm.targetType f))
  /\ EventForm.fields f !! "fishId" = Some (VStr (EventForm.fishId f)).
Proof.
  unfold EventForm.fields. cbn [list_to_map foldr uncurry].
  split_and!; by lookup_inserted.
Qed.

Lemma try_catch_no_match {A} (m : M A) code reason st st' :
  try_catch m code reason st = (Throw MatchError, st') -> False.
Proof. unfold try_catch. by destruct (m st) as [[a|[]] s1]. Qed.

Lemma handleSubmit_payload h now mode eventData f payload :
  EventForm.handleSubmit h now mode eventData f = Some (EventForm.createEvent payload) ->
  payload !! "type" = Some (VStr (EventForm.type f))
  /\ payload !! "targetType" = Some (VStr (EventForm.targetType f))
  /\ payload !! "title" = Some (VStr (trim (EventForm.title f)))
  /\ (exists tv, payload !! "scheduledAt" = Some (VDate tv))
  /\ payload !! "fishId"
     = if String.eqb (EventForm.targetType f) "aquarium" then None
       else Some (VStr (EventForm.fishId f)).
Proof.
  unfold EventForm.handleSubmit. destruct (negb _); [done|]. cbv zeta.
  destruct (fields_lookup f) as (F1 & F2 & F3).
  set (sent := assign (EventForm.fields f) _).
  assert (S : sent !! "type" = Some (Some (VStr (EventForm.type f)))
              /\ sent !! "targetType" = Some (Some (VStr (EventForm.targetType f)))
              /\ sent !! "title" = Some (Some (VStr (trim (EventForm.title f))))
              /\ (exists tv, sent !! "scheduledAt" = Some (Some (VDate tv)))
              /\ sent !! "fishId" = Some (Some (VStr (EventForm.fishId f)))).
  { unfold sent. cbn [assign foldl prop fst snd].
    split_and!; try (lookup_inserted; rewrite lookup_fmap;
                     first [by rewrite F1|by rewrite F2|by rewrite F3]);
      try (by lookup_inserted).
    eexists. by lookup_inserted. }
  destruct S as (S1 & S2 & S3 & [tv S4] & S5).
  intros E.
  assert (payload = defined (if String.eqb (EventForm.targetType f) "aquarium"
                             then delete "fishId" sent else sent)) as ->.
  { destruct eventData as [existing|]; [destruct (String.eqb mode "edit")|];
      congruence. }
  clearbody sent. unfold defined. rewrite !lookup_omap.
  destruct (String.eqb (EventForm.targetType f) "aquarium").
  - rewrite !lookup_delete_ne by done. rewrite lookup_delete_eq.
    rewrite S1, S2, S3, S4. split_and!; try done. by exists tv.
  - rewrite S1, S2, S3, S4, S5. split_and!; try done. by exists tv.
Qed.

(** [X25] What the event form sends is well typed, and an event created
    through the form has a fishId exactly when it is aimed at a fish.  For
    every state of the form whose submission sends an insertion: type,
    title and targetType are strings and scheduledAt is a date, so that the
    insert never fails on a type check; fishId is left out exactly when
    targetType is aquarium; and when the insert succeeds, the stored event
    has a fishId if and only if its targetType is fish. *)
Theorem X25_form_events_keep_fishId_with_fish h now mode eventData f payload :
  EventForm.handleSubmit h now mode eventData f = Some (EventForm.createEvent payload) ->
  is_string (payload !! "type") = true
  /\ is_string (payload !! "title") = true
  /\ is_date (payload !! "scheduledAt") = true
  /\ is_string (payload !! "targetType") = true
  /\ (payload !! "fishId" = None <-> EventForm.targetType f = "aquarium"%string)
  /\ forall this st,
       (forall st', insertEvent h this payload st = (Throw MatchError, st') -> False)
       /\ forall id st',
            insertEvent h this payload st = (Return id, st') ->
            exists stored,
              events st' !! id = Some stored /\ fishId_iff_fish stored.
Proof.
  intros E. apply handleSubmit_payload in E as (P1 & P2 & P3 & [tv P4] & P5).
  rewrite P1, P2, P3, P4. split_and!; try done.
  - rewrite P5. destruct (String.eqb_spec (EventForm.targetType f) "aquarium"); split; done.
  - intros this st. split.
    + intros st' Hm. unfold insertEvent in Hm.
      destruct (negb _); [done|]. rewrite P1, P2, P3, P4, P5 in Hm.
      cbn [is_string is_date check] in Hm.
      do 4 (unfold bind at 1 in Hm; cbn [ret] in Hm).
      assert (Hc : (if is_lit (Some (VStr (EventForm.targetType f))) "fish"
                    then check
                           (is_string
                              (if String.eqb (EventForm.targetType f) "aquarium"
                               then None else Some (VStr (EventForm.fishId f))))
                    else ret tt) = ret tt).
      { destruct (is_lit _ "fish") eqn:Ef; [|done].
        unfold is_lit in Ef. apply strict_eq_str in Ef. injection Ef as Ef.
        by rewrite Ef. }
      rewrite Hc in Hm. unfold bind at 1 in Hm; cbn [ret] in Hm.
      by apply try_catch_no_match in Hm.
    + intros id st' I.
      apply insertEvent_inv in I as (_ & Hv & _ & _ & _ & ->).
      eexists. split; [apply lookup_insert_eq|].
      unfold fishId_iff_fish.
      rewrite !inserted_props_lookup by not_listed. rewrite P2, P5.
      pose proof (valid_rules h payload Hv _ ltac:(do 0 right; left; reflexivity)) as R1.
      pose proof (valid_rules h payload Hv _ ltac:(do 1 right; left; reflexivity)) as R2.
      cbn [violated] in R1, R2. rewrite P2 in R1, R2. rewrite P5 in R2.
      destruct (String.eqb_spec (EventForm.targetType f) "aquarium") as [Ea|Ea].
      * rewrite Ea. split; [by intros []|done].
      * split; [|by eexists]. intros _.
        unfold includes, validTargetTypes in R1. cbn [existsb is_lit strict_eq] in R1.
        destruct (String.eqb_spec (EventForm.targetType f) "fish") as [->|]; [done|].
        destruct (String.eqb_spec (EventForm.targetType f) "aquarium"); done.
Qed.

Lemma X25_form_events_keep_fishId_with_fish_witness :
  let form :=
    {| EventForm.type := "cleaning"; EventForm.title := " Clean the tank ";
       EventForm.description := ""; EventForm.targetType := "aquarium";
       EventForm.fishId := "f1"; EventForm.scheduledAt := "2024-01-31T08:00";
       EventForm.priority := "medium"; EventForm.notes := "" |} in
  let sent :=
    match EventForm.handleSubmit Scenario.host Scenario.t_call1 "add" None form with
    | Some (EventForm.createEvent payload) => payload
    | _ => ∅
    end in
  EventForm.handleSubmit Scenario.host Scenario.t_call1 "add" None form
  = Some (EventForm.createEvent sent)
  /\ sent !! "fishId" = None.
Proof.
  intros form sent.
  assert (E : EventForm.handleSubmit Scenario.host Scenario.t_call1 "add" None form
              = Some (EventForm.createEvent sent)) by reflexivity.
  split; [exact E|].
  destruct (X25_form_events_keep_fishId_with_fish Scenario.host Scenario.t_call1 "add" None
              form sent E) as (_ & _ & _ & _ & H & _).
  apply H. reflexivity.
Defined.

(** *** Deleting the completed events *)


Lemma delete_each_run this (completed : list obj) st :
  authenticated this ->
  NoDup (id_of <$> completed) ->
  (forall event, In event completed ->
     exists props, event = document (id_of event) props
                   /\ events st !! id_of event = Some props
                   /\ props !! "ownerId" = this_userId this) ->
  EventsDashboard.delete_each this completed st
  = (Return tt,
     {| events := foldl (fun m id => delete id m) (events st) (id_of <$> completed);
        fish := fish st;
        journal := journal st ++ (Removed <$> (id_of <$> completed)) |}).
Proof.
  intros Ha. revert st. induction completed as [|event rest IH]; intros st Hnd Hall.
  { simpl. rewrite app_nil_r. by destruct st. }
  apply NoDup_cons in Hnd as [Hnotin Hnd].
  destruct (Hall event (in_eq _ _)) as (props & Ee & Hp & Ho).
  cbn [EventsDashboard.delete_each]. unfold bind at 1.
  assert (Eid : event !! "_id" = Some (VStr (id_of event))).
  { rewrite Ee at 1. unfold document. by rewrite lookup_insert_eq. }
  rewrite Eid. cbn [EventsDashboard.events_delete].
  rewrite (deleteEvent_run this (id_of event) st props Ha Hp Ho).
  rewrite IH; [| done |].
  - cbn [events fish journal fmap list_fmap foldl]. by rewrite <- app_assoc.
  - intros e He. destruct (Hall e (in_cons _ _ _ He)) as (p & E1 & E2 & E3).
    exists p. split; [done|]. split; [|done]. cbn [events].
    rewrite lookup_delete_ne; [done|]. intros Heq. apply Hnotin.
    rewrite Heq. apply list_elem_of_fmap. exists e. split; [done|].
    by apply list_elem_of_In.
Qed.

Lemma foldl_delete_lookup (ids : list string) (m : gmap string obj) id :
  foldl (fun m id => delete id m) m ids !! id
  = if bool_decide (id ∈ ids) then None else m !! id.
Proof.
  revert m. induction ids as [|i ids IH]; intros m; [done|]. simpl. rewrite IH.
  destruct (decide (id = i)) as [->|Hne].
  - rewrite lookup_delete_eq. rewrite (bool_decide_eq_true_2 (i ∈ i :: ids)) by left.
    by destruct (bool_decide _).
  - rewrite lookup_delete_ne by done.
    destruct (bool_decide_reflect (id ∈ ids)) as [Hin|Hnin].
    + by rewrite bool_decide_eq_true_2 by (by right).
    + rewrite bool_decide_eq_false_2; [done|]. by intros [?|?]%elem_of_cons.
Qed.

(** [X26] Deleting the completed events deletes them all and nothing
    else.  When the list of the dashboard holds events of the caller as
    the store has them, each once, and the user confirms, the handler ends
    without error after one removal for each event of the list whose
    isCompleted is truthy, in the order of the list: none of these events
    is in the store afterwards, and every other event, of this or of
    another account, is stored unchanged.  Without such an event, or
    without the confirmation, nothing is written. *)
Theorem X26_completed_events_are_all_deleted this shown st :
  authenticated this ->
  NoDup (id_of <$> shown) ->
  (forall event, In event shown ->
     exists props, event = document (id_of event) props
                   /\ events st !! id_of event = Some props
                   /\ props !! "ownerId" = this_userId this) ->
  let completed := List.filter (fun event => truthy (event !! "isCompleted")) shown in
  exists st',
    EventsDashboard.handleDeleteCompletedEvents this true shown st = (Return tt, st')
    /\ fish st' = fish st
    /\ journal st' = journal st ++ (Removed <$> (id_of <$> completed))
    /\ (forall event, In event completed -> events st' !! id_of event = None)
    /\ (forall id, id ∉ id_of <$> completed -> events st' !! id = events st !! id)
    /\ EventsDashboard.handleDeleteCompletedEvents this false shown st = (Return tt, st).
Proof.
  intros Ha Hnd Hall completed.
  assert (Hsub : forall event, In event completed -> In event shown).
  { intros event Hin. by apply filter_In in Hin as [? _]. }
  assert (Hnd' : NoDup (id_of <$> completed)).
  { unfold completed. clear -Hnd. induction shown as [|e l IH]; [constructor|].
    apply NoDup_cons in Hnd as [Hnotin Hnd]. simpl.
    destruct (truthy (e !! "isCompleted")); [|by apply IH].
    cbn [fmap list_fmap]. apply NoDup_cons. split; [|by apply IH].
    intros Hin. apply Hnotin. apply list_elem_of_fmap in Hin as (x & -> & Hx).
    apply list_elem_of_fmap. exists x. split; [done|].
    apply list_elem_of_In. apply list_elem_of_In in Hx. by apply filter_In in Hx as [? _]. }
  pose proof (delete_each_run this completed st Ha Hnd'
                (fun event Hin => Hall event (Hsub event Hin))) as Hrun.
  unfold EventsDashboard.handleDeleteCompletedEvents. fold completed.
  destruct completed as [|c completed'] eqn:Ec.
  { exists st. cbn [List.length Nat.eqb fmap list_fmap]. rewrite app_nil_r.
    split_and!; try done. }
  cbn [List.length Nat.eqb]. unfold EventsDashboard.logged. rewrite Hrun.
  eexists. split; [reflexivity|]. cbn [events fish journal].
  split_and!; try done.
  - intros event Hin. rewrite foldl_delete_lookup.
    rewrite bool_decide_eq_true_2; [done|].
    apply list_elem_of_fmap. exists event. split; [done|]. by apply list_elem_of_In.
  - intros id Hid. rewrite foldl_delete_lookup. by rewrite bool_decide_eq_false_2.
Qed.

Lemma X26_completed_events_are_all_deleted_witness :
  let this := Scenario.alice Scenario.t_call2 "x" in
  let shown := [document "e1" Examples.done_feeding;
                document "e2" Examples.water_change] in
  exists st',
    EventsDashboard.handleDeleteCompletedEvents this true shown Examples.two_events
    = (Return tt, st')
    /\ journal st' = [Removed "e1"]
    /\ events st' !! "e1" = None
    /\ events st' !! "e2" = Some Examples.water_change.
Proof.
  intros this shown.
  destruct (X26_completed_events_are_all_deleted this shown Examples.two_events)
    as (st' & Hrun & _ & Hj & Hgone & Hkept & _).
  - apply alice_authenticated.
  - change (NoDup ["e1"; "e2"]%string).
    apply NoDup_cons. split; [|apply NoDup_singleton].
    by intros ?%list_elem_of_singleton.
  - intros event [<-|[<-|[]]].
    + exists Examples.done_feeding. by split_and!.
    + exists Examples.water_change. by split_and!.
  - exists st'. split_and!.
    + exact Hrun.
    + exact Hj.
    + apply (Hgone (document "e1" Examples.done_feeding)).
      assert (E : List.filter (fun event : obj => truthy (event !! "isCompleted")) shown
                  = [document "e1" Examples.done_feeding]) by reflexivity.
      rewrite E. apply in_eq.
    + rewrite (Hkept "e2"); [done|].
      change (("e2" : string) ∉ ["e1"]%string).
      by intros ?%list_elem_of_singleton.
Defined.

(** *** The tabs of the dashboard *)

(** [X27] The tabs of the dashboard show what the counters of the hook
    count.  At the same instant and for the same list of events, the tab
    today shows as many events as the counter today, the tab overdue as
    many as overdue and the tab pending as many as pending; any other tab
    shows every event of the list, each as often as the list has it.  What
    a tab shows are events of the list, and they come in the order of
    their dates when the scheduledAt of every event converts to a valid
    date. *)
Theorem X27_dashboard_tabs_match_the_counters h now filter events :
  let s := useEvents.getEventStats h now events in
  let shown := EventsDashboard.filteredEvents h now filter events in
  let date (event : obj) := construct h (event !! "scheduledAt") in
  (filter = "today"%string -> Z.of_nat (List.length shown) = useEvents.today s)
  /\ (filter = "overdue"%string -> Z.of_nat (List.length shown) = useEvents.overdue s)
  /\ (filter = "pending"%string -> Z.of_nat (List.length shown) = useEvents.pending s)
  /\ (filter ∉ ["today"; "overdue"; "pending"]%string -> shown ≡ₚ events)
  /\ (forall event, In event shown -> In event events)
  /\ ((forall event, In event events -> is_Some (date event)) ->
      forall i j a b,
        (i < j)%nat -> shown !! i = Some a -> shown !! j = Some b ->
        exists x y, date a = Some x /\ date b = Some y /\ x <= y).
Proof.
  intros s shown date.
  set (tab := EventsDashboard.getFilteredEvents h now filter events).
  assert (Hperm : shown ≡ₚ tab) by apply Array_sort_Permutation.
  assert (Hlen : Z.of_nat (List.length shown) = Z.of_nat (List.length tab)).
  { by rewrite Hperm. }
  assert (Hsub : forall event, In event tab -> In event events).
  { intros event. subst tab. unfold EventsDashboard.getFilteredEvents. cbv zeta.
    repeat case_match; try done; by intros [? _]%filter_In. }
  split_and!.
  - intros ->. rewrite Hlen. subst tab s.
    unfold EventsDashboard.getFilteredEvents, useEvents.getEventStats.
    destruct events as [|e events]; [done|]. reflexivity.
  - intros ->. rewrite Hlen. subst tab s.
    unfold EventsDashboard.getFilteredEvents, useEvents.getEventStats.
    destruct events as [|e events]; [done|]. reflexivity.
  - intros ->. rewrite Hlen. subst tab s.
    unfold EventsDashboard.getFilteredEvents, useEvents.getEventStats.
    destruct events as [|e events]; [done|]. reflexivity.
  - intros Hn. rewrite Hperm. subst tab.
    unfold EventsDashboard.getFilteredEvents. cbv zeta.
    rewrite !not_elem_of_cons in Hn. destruct Hn as (H1 & H2 & H3 & _).
    apply String.eqb_neq in H1, H2, H3. by rewrite H1, H2, H3.
  - intros event Hin. apply Hsub.
    apply list_elem_of_In. rewrite <- Hperm. by apply list_elem_of_In.
  - intros Hvalid i j a b Hij Ha Hb.
    assert (Hsorted : StronglySorted (key_le date) shown).
    { apply Array_sort_sorted. apply Forall_forall. intros event Hin.
      apply Hvalid, Hsub. by apply list_elem_of_In. }
    by apply (StronglySorted_lookup _ _ i j a b Hsorted).
Qed.
